(** * CityCircuit ML service: the route-optimisation core, embedded in Rocq

    A shallow embedding of the analytical pipeline of [ML/server]:
    [models/*.py] (the pydantic data model), [algorithms/path_matrix.py],
    [algorithms/route_analyzer.py], [algorithms/population_analyzer.py],
    [algorithms/optimization_engine.py] and [algorithms/result_generator.py].

    Conventions of the embedding.
    - A Python [float] is a rational [Q]; [float('inf')] only occurs as the
      initial value of a running minimum and is the constructor [Float.inf]
      of the extended type [Float.t].  NaN, rounding and overflow are not
      modelled; the properties are stated so that they hold of the rounded
      operations too: through comparisons and monotone bounds, with a
      margin on computed factors, and under an explicit range hypothesis
      where the range matters.
    - A Python [int] is a [Z]; list lengths and list indices are [nat].
    - Code that can raise returns [result A]; [try]/[except] is a [match]
      on it.  A pydantic [ValidationError] records the model and the
      fields that failed.  A division the source does not guard returns
      [arith A], whose second outcome is [ZeroDivisionError].
    - The trigonometric distance primitives ([_haversine_distance] and the
      two approximations), the Keras efficiency model, [uuid4] and the
      clock are parameters: a [GeoMetric.t] record, an optional
      prediction function, an id supply and a date string.
    - A [str] is a [string] of bytes; its length is Python's [len] on
      ASCII text, and the byte order of two strings is their code-point
      order.
    - Fields and operations no modelled function reads (timestamps, path
      segments, log messages, report texts) are left out. *)

From Stdlib Require Import String Ascii List ZArith QArith Qminmax Bool Arith.
From Stdlib Require Import Lia Lqa Permutation Sorted DecimalString OrdersEx.
Import ListNotations.

Set Implicit Arguments.

(** ** Python runtime: exceptions *)

Inductive exn : Type :=
| IndexError
| ValueError
| ValidationError (model : string) (fields : list string).

Inductive result (A : Type) : Type :=
| Ok (a : A)
| Raise (e : exn).

Arguments Ok {A} a.
Arguments Raise {A} e.

Definition bind {A B : Type} (c : result A) (k : A -> result B) : result B :=
  match c with
  | Ok a => k a
  | Raise e => Raise e
  end.

Notation "x <- c ;; k" := (bind c (fun x => k))
  (at level 61, c at next level, right associativity).

Fixpoint mapM {A B : Type} (f : A -> result B) (l : list A) : result (list B) :=
  match l with
  | [] => Ok []
  | x :: xs => y <- f x ;; ys <- mapM f xs ;; Ok (y :: ys)
  end.

(** A loop whose termination the source leaves to the data either returns
    or is cut off by the fuel of the model. *)
Inductive outcome (A : Type) : Type :=
| Returns (a : A)
| OutOfFuel.

Arguments Returns {A} a.
Arguments OutOfFuel {A}.

(** ** Python runtime: numbers *)

Definition Qlt_bool (x y : Q) : bool := negb (Qle_bool y x).

(** [min(a, b)] and [max(a, b)] return the first argument on a tie. *)
Definition py_min (a b : Q) : Q := if Qlt_bool b a then b else a.
Definition py_max (a b : Q) : Q := if Qlt_bool a b then b else a.

(** [int(x)] truncates toward zero. *)
Definition py_int (x : Q) : Z := Z.quot (Qnum x) (Zpos (Qden x)).

(** [abs(x)] *)
Definition py_abs (x : Q) : Q := if Qlt_bool x 0 then - x else x.

(** A division the source does not guard raises [ZeroDivisionError] on a
    zero divisor. *)
Inductive arith (A : Type) : Type :=
| Num (a : A)
| ZeroDivisionError.

Arguments Num {A} a.
Arguments ZeroDivisionError {A}.

Definition py_div (a b : Q) : arith Q :=
  if Qeq_bool b 0 then ZeroDivisionError else Num (a / b).

Definition arith_bind {A B : Type} (c : arith A) (k : A -> arith B) : arith B :=
  match c with
  | Num a => k a
  | ZeroDivisionError => ZeroDivisionError
  end.

Fixpoint arith_mapM {A B : Type} (f : A -> arith B) (l : list A) : arith (list B) :=
  match l with
  | [] => Num []
  | x :: xs =>
      arith_bind (f x) (fun y => arith_bind (arith_mapM f xs) (fun ys => Num (y :: ys)))
  end.

Definition Qnat (n : nat) : Q := inject_Z (Z.of_nat n).
Definition Qlen {A : Type} (l : list A) : Q := Qnat (length l).

(** [sum(...)] over floats and over ints. *)
Definition Qsum (l : list Q) : Q := fold_left Qplus l 0.
Definition Zsum (l : list Z) : Z := fold_left Z.add l 0%Z.

(** [str(n)] for an int. *)
Definition str_of_Z (z : Z) : string := NilZero.string_of_int (Z.to_int z).
Definition str_of_nat (n : nat) : string := NilZero.string_of_uint (Nat.to_uint n).

Module Float.
(** A float that may be [float('inf')]. *)
Inductive t : Type :=
| fin (q : Q)
| inf.

Definition add (a b : t) : t :=
  match a, b with
  | fin x, fin y => fin (x + y)
  | _, _ => inf
  end.

Definition ltb (a b : t) : bool :=
  match a, b with
  | fin x, fin y => Qlt_bool x y
  | fin _, inf => true
  | inf, _ => false
  end.

Definition is_inf (a : t) : bool :=
  match a with
  | inf => true
  | fin _ => false
  end.

(** [min(a, b)] *)
Definition min (a b : t) : t := if ltb b a then b else a.

Definition lt (a b : t) : Prop := ltb a b = true.
Definition le (a b : t) : Prop := ltb b a = false.
End Float.

(** ** Python runtime: lists, dicts, sorting *)

Definition mem (s : string) (l : list string) : bool :=
  existsb (String.eqb s) l.

(** [l.index(x)]: the first position of [x], [ValueError] when absent. *)
Fixpoint index (x : string) (l : list string) : result nat :=
  match l with
  | [] => Raise ValueError
  | y :: ys => if String.eqb x y then Ok O else i <- index x ys ;; Ok (S i)
  end.

(** [l[i]] *)
Definition getitem {A : Type} (l : list A) (i : nat) : result A :=
  match nth_error l i with
  | Some a => Ok a
  | None => Raise IndexError
  end.

(** [m[i, j]] on a two-dimensional array *)
Definition getitem2 {A : Type} (m : list (list A)) (i j : nat) : result A :=
  row <- getitem m i ;; getitem row j.

(** [l[i] = v] for [i] in range *)
Fixpoint setitem {A : Type} (l : list A) (i : nat) (v : A) : list A :=
  match l, i with
  | [], _ => []
  | _ :: xs, O => v :: xs
  | x :: xs, S i' => x :: setitem xs i' v
  end.

Fixpoint enumerate_from {A : Type} (i : nat) (l : list A) : list (nat * A) :=
  match l with
  | [] => []
  | x :: xs => (i, x) :: enumerate_from (S i) xs
  end.

Definition enumerate {A : Type} (l : list A) : list (nat * A) := enumerate_from 0 l.

(** A [dict] keeps its keys in insertion order; assigning to a present key
    overwrites the value in place. *)
Definition dict (V : Type) : Type := list (string * V).

Fixpoint dict_get {V : Type} (d : dict V) (k : string) : option V :=
  match d with
  | [] => None
  | (k', v) :: d' => if String.eqb k k' then Some v else dict_get d' k
  end.

Definition dict_mem {V : Type} (d : dict V) (k : string) : bool :=
  match dict_get d k with
  | Some _ => true
  | None => false
  end.

Fixpoint dict_set {V : Type} (d : dict V) (k : string) (v : V) : dict V :=
  match d with
  | [] => [(k, v)]
  | (k', v') :: d' =>
      if String.eqb k k' then (k, v) :: d' else (k', v') :: dict_set d' k v
  end.

Definition dict_values {V : Type} (d : dict V) : list V := map snd d.

(** [list.sort] is stable.  [insert_sorted before x l] puts [x] in front
    of the first element it may precede, so [x] stays ahead of the
    elements of [l] it ties with; [stable_sort] inserts from the right,
    which keeps tied elements in their input order. *)
Fixpoint insert_sorted {A : Type} (before : A -> A -> bool) (x : A) (l : list A) : list A :=
  match l with
  | [] => [x]
  | y :: ys => if before x y then x :: y :: ys else y :: insert_sorted before x ys
  end.

Fixpoint stable_sort {A : Type} (before : A -> A -> bool) (l : list A) : list A :=
  match l with
  | [] => []
  | x :: xs => insert_sorted before x (stable_sort before xs)
  end.

(** [max(l, key=f)] and [min(l, key=f)] return the first extremal element. *)
Fixpoint max_by {A : Type} (key : A -> Q) (best : A) (l : list A) : A :=
  match l with
  | [] => best
  | x :: xs => max_by key (if Qlt_bool (key best) (key x) then x else best) xs
  end.

(** [itertools.permutations(l)]: every ordering of the positions of [l],
    in lexicographic order of the positions. *)
Fixpoint selections {A : Type} (l : list A) : list (A * list A) :=
  match l with
  | [] => []
  | x :: xs => (x, xs) :: map (fun p => (fst p, x :: snd p)) (selections xs)
  end.

Fixpoint permutations_n {A : Type} (n : nat) (l : list A) : list (list A) :=
  match n with
  | O => [[]]
  | S n' =>
      flat_map (fun p => map (cons (fst p)) (permutations_n n' (snd p)))
               (selections l)
  end.

Definition permutations {A : Type} (l : list A) : list (list A) :=
  permutations_n (length l) l.

(** ** Pydantic validation

    A model is built from its field values; every field constraint is
    checked and the failing field names are reported together. *)
Definition failing (checks : list (string * bool)) : list string :=
  map fst (filter (fun c => negb (snd c)) checks).

Definition validate {A : Type} (model : string) (checks : list (string * bool)) (value : A)
  : result A :=
  match failing checks with
  | [] => Ok value
  | fields => Raise (ValidationError model fields)
  end.

Definition Qbetween (lo x hi : Q) : bool := Qle_bool lo x && Qle_bool x hi.
Definition len_between (lo : nat) (s : string) (hi : nat) : bool :=
  Nat.leb lo (String.length s) && Nat.leb (String.length s) hi.

(** ** models/base.py *)

Module Coordinates.
Record t : Type := { latitude : Q; longitude : Q }.

Definition checks (c : t) : list (string * bool) :=
  [ ("latitude"%string, Qbetween (-90) (latitude c) 90);
    ("longitude"%string, Qbetween (-180) (longitude c) 180) ].

Definition valid (c : t) : bool := forallb snd (checks c).

Definition create (lat lon : Q) : result t :=
  let c := {| latitude := lat; longitude := lon |} in
  validate "Coordinates" (checks c) c.
End Coordinates.

Module GeoBounds.
Record t : Type := { north : Q; south : Q; east : Q; west : Q }.

(** [validate_north_south] and [validate_east_west] look for 'south' and
    'west' in [info.data]; both fields are declared after 'north' and
    'east', so they are not yet there when the validators run and only
    the range constraints are checked. *)
Definition checks (b : t) : list (string * bool) :=
  [ ("north"%string, Qbetween (-90) (north b) 90);
    ("south"%string, Qbetween (-90) (south b) 90);
    ("east"%string, Qbetween (-180) (east b) 180);
    ("west"%string, Qbetween (-180) (west b) 180) ].

Definition create (n s e w : Q) : result t :=
  let b := {| north := n; south := s; east := e; west := w |} in
  validate "GeoBounds" (checks b) b.
End GeoBounds.

(** ** models/route.py *)

Module BusStop.
Record t : Type := {
  id : string;
  name : string;
  coordinates : Coordinates.t;
  address : string;
  amenities : list string;
  daily_passenger_count : Z;
  is_accessible : bool
}.

Definition checks (s : t) : list (string * bool) :=
  [ ("name"%string, len_between 1 (name s) 200);
    ("address"%string, len_between 1 (address s) 500);
    ("daily_passenger_count"%string, (0 <=? daily_passenger_count s)%Z) ].

(** The constraints an instance satisfies, those of its coordinates included. *)
Definition valid (s : t) : bool :=
  forallb snd (checks s) && Coordinates.valid (coordinates s).

Definition create (id_ name_ : string) (coordinates_ : Coordinates.t) (address_ : string)
           (amenities_ : list string) (daily_passenger_count_ : Z) (is_accessible_ : bool)
  : result t :=
  let s := {| id := id_; name := name_; coordinates := coordinates_;
              address := address_; amenities := amenities_;
              daily_passenger_count := daily_passenger_count_;
              is_accessible := is_accessible_ |} in
  validate "BusStop" (checks s) s.
End BusStop.

Module Route.
Record t : Type := {
  id : string;
  name : string;
  description : string;
  stops : list BusStop.t;
  operator_id : string;
  is_active : bool;
  optimization_score : Q;
  estimated_travel_time : Z
}.

(** [Field] constraints and [validate_minimum_stops]. *)
Definition checks (r : t) : list (string * bool) :=
  [ ("name"%string, len_between 1 (name r) 200);
    ("description"%string, Nat.leb (String.length (description r)) 1000);
    ("stops"%string, Nat.leb 2 (length (stops r)));
    ("optimization_score"%string, Qbetween 0 (optimization_score r) 100);
    ("estimated_travel_time"%string,
      (1 <=? estimated_travel_time r)%Z && (estimated_travel_time r <=? 1440)%Z) ].

Definition valid (r : t) : bool :=
  forallb snd (checks r) && forallb BusStop.valid (stops r).

Definition create (id_ name_ description_ : string) (stops_ : list BusStop.t)
           (operator_id_ : string) (is_active_ : bool) (optimization_score_ : Q)
           (estimated_travel_time_ : Z) : result t :=
  let r := {| id := id_; name := name_; description := description_; stops := stops_;
              operator_id := operator_id_; is_active := is_active_;
              optimization_score := optimization_score_;
              estimated_travel_time := estimated_travel_time_ |} in
  validate "Route" (checks r) r.
End Route.

(** ** models/population.py *)

Module DemographicData.
Record t : Type := {
  age_groups : dict Q;
  economic_indicators : dict Q
}.
End DemographicData.

Module DensityPoint.
Record t : Type := {
  coordinates : Coordinates.t;
  population : Z;
  demographic_data : DemographicData.t
}.

Definition valid (p : t) : bool :=
  (0 <=? population p)%Z && Coordinates.valid (coordinates p).

Definition create (coordinates_ : Coordinates.t) (population_ : Z)
           (demographic_data_ : DemographicData.t) : result t :=
  let p := {| coordinates := coordinates_; population := population_;
              demographic_data := demographic_data_ |} in
  validate "DensityPoint" [("population"%string, (0 <=? population_)%Z)] p.
End DensityPoint.

Module PopulationDensityData.
Record t : Type := {
  id : string;
  region : string;
  coordinates : GeoBounds.t;
  density_points : list DensityPoint.t;
  data_source : string
}.

Definition checks (d : t) : list (string * bool) :=
  [ ("region"%string, len_between 1 (region d) 200);
    ("data_source"%string, len_between 1 (data_source d) 200) ].

Definition valid (d : t) : bool :=
  forallb snd (checks d) && forallb DensityPoint.valid (density_points d).

Definition create (id_ region_ : string) (coordinates_ : GeoBounds.t)
           (density_points_ : list DensityPoint.t) (data_source_ : string) : result t :=
  let d := {| id := id_; region := region_; coordinates := coordinates_;
              density_points := density_points_; data_source := data_source_ |} in
  validate "PopulationDensityData" (checks d) d.

Definition get_total_population (d : t) : Z :=
  Zsum (map DensityPoint.population (density_points d)).

Definition in_bounds (bounds : GeoBounds.t) (point : DensityPoint.t) : bool :=
  let coords := DensityPoint.coordinates point in
  (Qle_bool (GeoBounds.south bounds) (Coordinates.latitude coords)
   && Qle_bool (Coordinates.latitude coords) (GeoBounds.north bounds))
  && (Qle_bool (GeoBounds.west bounds) (Coordinates.longitude coords)
      && Qle_bool (Coordinates.longitude coords) (GeoBounds.east bounds)).

Definition get_population_in_bounds (d : t) (bounds : GeoBounds.t) : Z :=
  Zsum (map DensityPoint.population (filter (in_bounds bounds) (density_points d))).

Definition get_density_points_near_coordinates (d : t) (center : Coordinates.t)
           (radius_km : Q) : list DensityPoint.t :=
  let radius_degrees := radius_km / 111 in
  filter (fun point =>
            let lat_diff :=
              py_abs (Coordinates.latitude (DensityPoint.coordinates point)
                      - Coordinates.latitude center) in
            let lon_diff :=
              py_abs (Coordinates.longitude (DensityPoint.coordinates point)
                      - Coordinates.longitude center) in
            Qle_bool lat_diff radius_degrees && Qle_bool lon_diff radius_degrees)
         (density_points d).
End PopulationDensityData.

(** ** models/optimization.py *)

Module OptimizationMetrics.
Record t : Type := {
  time_improvement : Q;
  distance_reduction : Q;
  passenger_coverage_increase : Q;
  cost_savings : Q
}.

Definition checks (m : t) : list (string * bool) :=
  [ ("time_improvement"%string, Qle_bool 0 (time_improvement m));
    ("distance_reduction"%string, Qle_bool 0 (distance_reduction m));
    ("passenger_coverage_increase"%string, Qle_bool 0 (passenger_coverage_increase m));
    ("cost_savings"%string, Qle_bool 0 (cost_savings m)) ].

Definition create (time_improvement_ distance_reduction_ passenger_coverage_increase_
                   cost_savings_ : Q) : result t :=
  let m := {| time_improvement := time_improvement_;
              distance_reduction := distance_reduction_;
              passenger_coverage_increase := passenger_coverage_increase_;
              cost_savings := cost_savings_ |} in
  validate "OptimizationMetrics" (checks m) m.

Definition get_overall_score (m : t) : Q :=
  let score :=
    time_improvement m * 0.3 +
    distance_reduction m * 0.2 +
    passenger_coverage_increase m * 0.3 +
    py_min (cost_savings m) 100 * 0.2 in
  py_min score 100.
End OptimizationMetrics.

Module OptimizationResult.
Record t : Type := {
  id : string;
  original_route_id : string;
  optimized_route : Route.t;
  metrics : OptimizationMetrics.t;
  population_data : PopulationDensityData.t
}.

Definition is_improvement (r : t) (threshold : Q) : bool :=
  Qle_bool threshold (OptimizationMetrics.get_overall_score (metrics r)).
End OptimizationResult.

(** ** Distance primitives

    [_haversine_distance], [_manhattan_distance] and [_euclidean_distance]
    of [path_matrix.py] in kilometres ([_calculate_distance] of the other
    classes repeats the haversine formula).  They go through [sin], [cos],
    [arcsin] and [sqrt] and are taken as given. *)
Module GeoMetric.
Record t : Type := {
  haversine_distance : Coordinates.t -> Coordinates.t -> Q;
  manhattan_distance : Coordinates.t -> Coordinates.t -> Q;
  euclidean_distance : Coordinates.t -> Coordinates.t -> Q
}.
End GeoMetric.

(** ** algorithms/path_matrix.py *)

Inductive PathAlgorithm : Type :=
| HAVERSINE
| MANHATTAN
| EUCLIDEAN
| WEIGHTED.

Module PathMatrix.
Record t : Type := {
  stop_ids : list string;
  distance_matrix : list (list Float.t);
  time_matrix : list (list Q)
}.
End PathMatrix.

Module PathMatrixCalculator.
Import PathMatrix.
Local Open Scope Q_scope.

Section WithGeo.
Variable geo : GeoMetric.t.

Definition avg_passengers (stop1 stop2 : BusStop.t) : Q :=
  inject_Z (BusStop.daily_passenger_count stop1 + BusStop.daily_passenger_count stop2) / 2.

Definition _weighted_distance (stop1 stop2 : BusStop.t) : Q :=
  let base_distance :=
    GeoMetric.haversine_distance geo (BusStop.coordinates stop1) (BusStop.coordinates stop2) in
  let weight_factor := 1 in
  let weight_factor :=
    if BusStop.is_accessible stop1 && BusStop.is_accessible stop2 then weight_factor * 0.95
    else if negb (BusStop.is_accessible stop1) || negb (BusStop.is_accessible stop2)
         then weight_factor * 1.1
         else weight_factor in
  let weight_factor :=
    if Qlt_bool 5000 (avg_passengers stop1 stop2) then weight_factor * 0.9
    else if Qlt_bool (avg_passengers stop1 stop2) 1000 then weight_factor * 1.15
         else weight_factor in
  let total_amenities :=
    (length (BusStop.amenities stop1) + length (BusStop.amenities stop2))%nat in
  let weight_factor :=
    if Nat.ltb 4 total_amenities then weight_factor * 0.95 else weight_factor in
  base_distance * weight_factor.

Definition _calculate_distance (stop1 stop2 : BusStop.t) (algorithm : PathAlgorithm) : Q :=
  match algorithm with
  | HAVERSINE =>
      GeoMetric.haversine_distance geo (BusStop.coordinates stop1) (BusStop.coordinates stop2)
  | MANHATTAN =>
      GeoMetric.manhattan_distance geo (BusStop.coordinates stop1) (BusStop.coordinates stop2)
  | EUCLIDEAN =>
      GeoMetric.euclidean_distance geo (BusStop.coordinates stop1) (BusStop.coordinates stop2)
  | WEIGHTED => _weighted_distance stop1 stop2
  end.

Definition _estimate_travel_time (stop1 stop2 : BusStop.t) (distance_km : Q) : Q :=
  let base_speed := 25 in
  let speed :=
    if Qlt_bool 5000 (avg_passengers stop1 stop2) then base_speed * 0.8
    else if Qlt_bool (avg_passengers stop1 stop2) 1000 then base_speed * 1.1
         else base_speed in
  let time_hours := distance_km / speed in
  let time_minutes := time_hours * 60 in
  let stop_time := 2 in
  time_minutes + stop_time.

Definition _get_traffic_factor (stop1 stop2 : BusStop.t) : Q :=
  if Qlt_bool 8000 (avg_passengers stop1 stop2) then 1.3
  else if Qlt_bool 5000 (avg_passengers stop1 stop2) then 1.2
       else if Qlt_bool 2000 (avg_passengers stop1 stop2) then 1.1
            else 1.0.

Definition _calculate_difficulty_score (stop1 stop2 : BusStop.t) : Q :=
  let score := 0 in
  let distance :=
    GeoMetric.haversine_distance geo (BusStop.coordinates stop1) (BusStop.coordinates stop2) in
  let score :=
    if Qlt_bool 10 distance then score + 20
    else if Qlt_bool 5 distance then score + 10
         else score in
  let score :=
    if negb (BusStop.is_accessible stop1) || negb (BusStop.is_accessible stop2)
    then score + 15
    else score in
  let score :=
    if Qlt_bool 8000 (avg_passengers stop1 stop2) then score + 25
    else if Qlt_bool 5000 (avg_passengers stop1 stop2) then score + 15
         else if Qlt_bool (avg_passengers stop1 stop2) 500 then score + 10
              else score in
  let total_amenities :=
    (length (BusStop.amenities stop1) + length (BusStop.amenities stop2))%nat in
  let score :=
    if Nat.eqb total_amenities 0 then score + 20
    else if Nat.ltb total_amenities 3 then score + 10
         else score in
  py_min 100 score.

(** The two matrices start as [np.zeros((n, n))]; the cells with
    [i != j] are then filled row by row. *)
Definition matrix_of {A : Type} (zero : A) (cell : BusStop.t -> BusStop.t -> A)
           (stops : list BusStop.t) : list (list A) :=
  map (fun i_si =>
         map (fun j_sj =>
                if Nat.eqb (fst i_si) (fst j_sj) then zero
                else cell (snd i_si) (snd j_sj))
             (enumerate stops))
      (enumerate stops).

Definition calculate_path_matrix (stops : list BusStop.t) (algorithm : PathAlgorithm)
  : PathMatrix.t :=
  {| stop_ids := map BusStop.id stops;
     distance_matrix :=
       matrix_of (Float.fin 0)
                 (fun si sj => Float.fin (_calculate_distance si sj algorithm)) stops;
     time_matrix :=
       matrix_of 0
                 (fun si sj =>
                    let distance := _calculate_distance si sj algorithm in
                    let time := _estimate_travel_time si sj distance in
                    let traffic_factor := _get_traffic_factor si sj in
                    time * traffic_factor)
                 stops |}.
End WithGeo.

(** *** find_shortest_path *)

(** The three work lists of Dijkstra's algorithm; [parent[v] = -1] is [None]. *)
Record dijkstra_state : Type := {
  visited : list bool;
  dist : list Float.t;
  parent : list (option nat)
}.

(** "Find minimum distance vertex": [min_idx] stays [-1] ([None]) when
    every unvisited vertex is at infinite distance. *)
Fixpoint find_min (st : dijkstra_state) (vs : list nat) (min_dist : Float.t)
         (min_idx : option nat) : option nat :=
  match vs with
  | [] => min_idx
  | v :: vs' =>
      if negb (nth v (visited st) false) && Float.ltb (nth v (dist st) Float.inf) min_dist
      then find_min st vs' (nth v (dist st) Float.inf) (Some v)
      else find_min st vs' min_dist min_idx
  end.

(** "Update distances to neighbors"; the matrix is not read for a
    visited [v] ([and] short-circuits). *)
Fixpoint relax (distances : list (list Float.t)) (min_idx : nat) (vs : list nat)
         (st : dijkstra_state) : result dijkstra_state :=
  match vs with
  | [] => Ok st
  | v :: vs' =>
      if nth v (visited st) false then relax distances min_idx vs' st
      else
        d <- getitem2 distances min_idx v ;;
        let through := Float.add (nth min_idx (dist st) Float.inf) d in
        if Float.ltb (Float.fin 0) d && Float.ltb through (nth v (dist st) Float.inf)
        then relax distances min_idx vs'
                   {| visited := visited st;
                      dist := setitem (dist st) v through;
                      parent := setitem (parent st) v (Some min_idx) |}
        else relax distances min_idx vs' st
  end.

(** [for _ in range(n_stops)], with its [break]. *)
Fixpoint dijkstra_loop (distances : list (list Float.t)) (n_stops rounds : nat)
         (st : dijkstra_state) : result dijkstra_state :=
  match rounds with
  | O => Ok st
  | S rounds' =>
      match find_min st (seq 0 n_stops) Float.inf None with
      | None => Ok st
      | Some min_idx =>
          st' <- relax distances min_idx (seq 0 n_stops)
                       {| visited := setitem (visited st) min_idx true;
                          dist := dist st;
                          parent := parent st |} ;;
          dijkstra_loop distances n_stops rounds' st'
      end
  end.

Definition dijkstra (matrix : PathMatrix.t) (origin_idx : nat) : result dijkstra_state :=
  let n_stops := length (stop_ids matrix) in
  dijkstra_loop (distance_matrix matrix) n_stops n_stops
                {| visited := repeat false n_stops;
                   dist := setitem (repeat Float.inf n_stops) origin_idx (Float.fin 0);
                   parent := repeat None n_stops |}.

(** [while current != -1]: the walk up the parent links. *)
Fixpoint reconstruct (fuel : nat) (ids : list string) (parents : list (option nat))
         (current : option nat) (path : list string) : outcome (result (list string)) :=
  match current with
  | None => Returns (Ok path)
  | Some c =>
      match fuel with
      | O => OutOfFuel
      | S fuel' =>
          match getitem ids c with
          | Raise e => Returns (Raise e)
          | Ok stop_id =>
              reconstruct fuel' ids parents (nth c parents None) (path ++ [stop_id])
          end
      end
  end.

(** [None] is the "no path" value; every exception is turned into it. *)
Definition find_shortest_path (fuel : nat) (matrix : PathMatrix.t)
           (origin_id destination_id : string) : outcome (option (list string)) :=
  if negb (mem origin_id (stop_ids matrix)) || negb (mem destination_id (stop_ids matrix))
  then Returns None
  else
    match (origin_idx <- index origin_id (stop_ids matrix) ;;
           destination_idx <- index destination_id (stop_ids matrix) ;;
           st <- dijkstra matrix origin_idx ;;
           Ok (destination_idx, st)) with
    | Raise _ => Returns None
    | Ok (destination_idx, st) =>
        if Float.is_inf (nth destination_idx (dist st) Float.inf) then Returns None
        else
          match reconstruct fuel (stop_ids matrix) (parent st) (Some destination_idx) [] with
          | OutOfFuel => OutOfFuel
          | Returns (Raise _) => Returns None
          | Returns (Ok path) => Returns (Some (rev path))
          end
    end.

(** *** find_optimal_route_order *)

(** [[matrix.stop_ids.index(s) for s in stop_ids if s in matrix.stop_ids]] *)
Definition indices_of (matrix : PathMatrix.t) (ids : list string) : result (list nat) :=
  mapM (fun stop_id => index stop_id (stop_ids matrix))
       (filter (fun stop_id => mem stop_id (stop_ids matrix)) ids).

(** [total_distance] of one visiting order: the sum, from 0, of the
    matrix cells of its consecutive pairs. *)
Fixpoint total_distance_from (matrix : PathMatrix.t) (order : list nat) (acc : Float.t)
  : result Float.t :=
  match order with
  | i :: ((j :: _) as rest) =>
      d <- getitem2 (distance_matrix matrix) i j ;;
      total_distance_from matrix rest (Float.add acc d)
  | _ => Ok acc
  end.

Definition total_distance (matrix : PathMatrix.t) (order : list nat) : result Float.t :=
  total_distance_from matrix order (Float.fin 0).

(** The loop over [permutations(remaining_stops)]. *)
Fixpoint tsp_loop (matrix : PathMatrix.t) (first_stop : nat) (perms : list (list nat))
         (best_distance : Float.t) (best_order : list nat) : result (list nat) :=
  match perms with
  | [] => Ok best_order
  | perm :: perms' =>
      let order := first_stop :: perm in
      d <- total_distance matrix order ;;
      if Float.ltb d best_distance
      then tsp_loop matrix first_stop perms' d order
      else tsp_loop matrix first_stop perms' best_distance best_order
  end.

Definition _brute_force_tsp (matrix : PathMatrix.t) (ids : list string)
  : result (list string) :=
  match ids with
  | [] => Ok []
  | _ =>
      indices <- indices_of matrix ids ;;
      if negb (Nat.eqb (length indices) (length ids)) then Ok ids
      else
        match indices with
        | [] => Raise IndexError
        | first_stop :: remaining_stops =>
            best_order <- tsp_loop matrix first_stop (permutations remaining_stops)
                                   Float.inf indices ;;
            mapM (getitem (stop_ids matrix)) best_order
        end
  end.

(** [set(indices[1:])]; the iteration order of a set of ints, which only
    decides ties between equal distances, is taken to be ascending (the
    order of CPython while the positions are smaller than the hash table).
    The properties of the heuristic hold however ties are decided. *)
Fixpoint set_add (x : nat) (s : list nat) : list nat :=
  match s with
  | [] => [x]
  | y :: ys =>
      if Nat.ltb x y then x :: y :: ys
      else if Nat.eqb x y then y :: ys
           else y :: set_add x ys
  end.

Definition set_of_list (l : list nat) : list nat :=
  fold_left (fun s x => set_add x s) l [].

Fixpoint set_remove (x : nat) (s : list nat) : list nat :=
  match s with
  | [] => []
  | y :: ys => if Nat.eqb x y then ys else y :: set_remove x ys
  end.

(** [min(unvisited, key=lambda x: matrix.distance_matrix[current, x])] *)
Fixpoint nearest_of (matrix : PathMatrix.t) (current : nat) (candidates : list nat)
         (best : nat) (best_d : Float.t) : result nat :=
  match candidates with
  | [] => Ok best
  | x :: xs =>
      d <- getitem2 (distance_matrix matrix) current x ;;
      if Float.ltb d best_d then nearest_of matrix current xs x d
      else nearest_of matrix current xs best best_d
  end.

(** [while unvisited]: each round removes one element, so the number of
    rounds is the size of the set. *)
Fixpoint nn_loop (matrix : PathMatrix.t) (rounds : nat) (current : nat)
         (unvisited : list nat) (route : list nat) : result (list nat) :=
  match rounds, unvisited with
  | S rounds', x :: xs =>
      d <- getitem2 (distance_matrix matrix) current x ;;
      nearest <- nearest_of matrix current xs x d ;;
      nn_loop matrix rounds' nearest (set_remove nearest unvisited) (route ++ [nearest])
  | _, _ => Ok route
  end.

Definition _nearest_neighbor_tsp (matrix : PathMatrix.t) (ids : list string)
  : result (list string) :=
  match ids with
  | [] => Ok []
  | _ =>
      indices <- indices_of matrix ids ;;
      if negb (Nat.eqb (length indices) (length ids)) then Ok ids
      else
        match indices with
        | [] => Raise IndexError
        | current :: rest =>
            let unvisited := set_of_list rest in
            route <- nn_loop matrix (length unvisited) current unvisited [current] ;;
            mapM (getitem (stop_ids matrix)) route
        end
  end.

(** The [except] clause returns the original order. *)
Definition find_optimal_route_order (matrix : PathMatrix.t) (ids : list string)
  : list string :=
  match (if Nat.leb (length ids) 2 then Ok ids
         else if Nat.leb (length ids) 8 then _brute_force_tsp matrix ids
              else _nearest_neighbor_tsp matrix ids) with
  | Ok order => order
  | Raise _ => ids
  end.
End PathMatrixCalculator.

(** ** algorithms/route_analyzer.py *)

(** A bottleneck record: the dict built by [_identify_bottlenecks], with
    its 'type' and 'severity' tags and the stop positions it points at. *)
Module Bottleneck.
Record t : Type := {
  type : string;
  severity : string;
  stop_index : option nat;
  affected_stops : list nat
}.
End Bottleneck.

Module RouteAnalysisResult.
Local Open Scope Q_scope.

Record t : Type := {
  route_id : string;
  efficiency_score : Q;
  coverage_score : Q;
  accessibility_score : Q;
  travel_time_estimate : Z;
  passenger_demand_score : Q;
  bottlenecks : list Bottleneck.t;
  recommendations : list string
}.

Definition get_overall_score (r : t) : Q :=
  efficiency_score r * 0.25 +
  coverage_score r * 0.25 +
  accessibility_score r * 0.20 +
  passenger_demand_score r * 0.30.
End RouteAnalysisResult.

(** [max(l)] and [min(l)] of a non-empty list of floats. *)
Definition list_max (l : list Q) : Q :=
  match l with
  | [] => 0
  | x :: xs => fold_left py_max xs x
  end.

Definition list_min (l : list Q) : Q :=
  match l with
  | [] => 0
  | x :: xs => fold_left py_min xs x
  end.

(** The pairs [(l[i], l[i + 1])] for [i in range(len(l) - 1)]. *)
Definition consecutive {A : Type} (l : list A) : list (A * A) := combine l (tl l).

Module RouteAnalyzer.
Import RouteAnalysisResult.
Local Open Scope Q_scope.

Section WithModels.
Variable geo : GeoMetric.t.
(** [self.efficiency_model]: [None] when TensorFlow failed to
    initialise; otherwise the prediction, which may raise. *)
Variable efficiency_model : option (list Q -> result Q).

Definition _calculate_distance (coord1 coord2 : Coordinates.t) : Q :=
  GeoMetric.haversine_distance geo coord1 coord2.

Definition lats (route : Route.t) : list Q :=
  map (fun stop => Coordinates.latitude (BusStop.coordinates stop)) (Route.stops route).
Definition lons (route : Route.t) : list Q :=
  map (fun stop => Coordinates.longitude (BusStop.coordinates stop)) (Route.stops route).

Definition accessible_stops (route : Route.t) : nat :=
  length (filter BusStop.is_accessible (Route.stops route)).

Definition total_passengers (route : Route.t) : Z :=
  Zsum (map BusStop.daily_passenger_count (Route.stops route)).

(** The sum of the distances between consecutive stops. *)
Definition route_distance (route : Route.t) : Q :=
  Qsum (map (fun p => _calculate_distance (BusStop.coordinates (fst p))
                                          (BusStop.coordinates (snd p)))
            (consecutive (Route.stops route))).

Definition _extract_efficiency_features (route : Route.t) : list Q :=
  let stops := Route.stops route in
  let features := [Qlen stops] in
  let features :=
    features ++
    [if Nat.ltb 1 (length stops)
     then route_distance route / Qnat (length stops - 1)
     else 0] in
  let features :=
    features ++
    [if Nat.ltb 0 (length stops)
     then inject_Z (Route.estimated_travel_time route) / Qlen stops
     else 0] in
  let accessibility_ratio :=
    match stops with
    | [] => 0
    | _ => Qnat (accessible_stops route) / Qlen stops
    end in
  let features := features ++ [accessibility_ratio] in
  let avg_passengers :=
    match stops with
    | [] => 0
    | _ => inject_Z (total_passengers route) / Qlen stops
    end in
  let features := features ++ [avg_passengers / 1000] in
  let features := features ++ [if Route.is_active route then 1 else 0] in
  let features := features ++ [Route.optimization_score route / 100] in
  let features :=
    features ++
    (if Nat.ltb 1 (length stops)
     then [list_max (lats route) - list_min (lats route);
           list_max (lons route) - list_min (lons route)]
     else [0; 0]) in
  let features := features ++ repeat 0 (10 - length features) in
  firstn 10 features.

Definition _rule_based_efficiency_score (features : list Q) : Q :=
  let score := 50 in
  let stop_count := nth 0 features 0 in
  let score :=
    if Qle_bool 8 stop_count && Qle_bool stop_count 12 then score + 15
    else if Qle_bool 5 stop_count && Qle_bool stop_count 15 then score + 10
         else score - 10 in
  let avg_distance := nth 1 features 0 in
  let score :=
    if Qle_bool 0.5 avg_distance && Qle_bool avg_distance 2 then score + 10
    else if Qlt_bool 5 avg_distance then score - 15
         else score in
  let time_per_stop := nth 2 features 0 in
  let score :=
    if Qle_bool time_per_stop 5 then score + 10
    else if Qlt_bool 10 time_per_stop then score - 10
         else score in
  let accessibility_ratio := nth 3 features 0 in
  let score := score + accessibility_ratio * 15 in
  py_max 0 (py_min 100 score).

Definition _calculate_efficiency_score (route : Route.t) : Q :=
  let features := _extract_efficiency_features route in
  match efficiency_model with
  | Some predict =>
      match predict features with
      | Ok prediction => py_max 0 (py_min 100 (prediction * 100))
      | Raise _ => 50
      end
  | None => py_max 0 (py_min 100 (_rule_based_efficiency_score features))
  end.

Definition _basic_coverage_score (route : Route.t) : Q :=
  match Route.stops route with
  | [] => 0
  | _ =>
      let lat_range := list_max (lats route) - list_min (lats route) in
      let lon_range := list_max (lons route) - list_min (lons route) in
      let coverage := py_min 100 ((lat_range + lon_range) * 1000) in
      py_max 10 coverage
  end.

(** Is the point within [radius] of some stop ([break] at the first one)? *)
Definition near_a_stop (route : Route.t) (radius : Q) (point : DensityPoint.t) : bool :=
  existsb (fun stop => Qle_bool (_calculate_distance (BusStop.coordinates stop)
                                                     (DensityPoint.coordinates point))
                                radius)
          (Route.stops route).

Definition _calculate_coverage_score (route : Route.t)
           (population_data : option PopulationDensityData.t) : Q :=
  match population_data with
  | None => _basic_coverage_score route
  | Some data =>
      match PopulationDensityData.density_points data with
      | [] => _basic_coverage_score route
      | points =>
          let total_population := Zsum (map DensityPoint.population points) in
          if Z.eqb total_population 0 then 50
          else
            let coverage_radius := 0.01 in
            let covered_population :=
              Zsum (map DensityPoint.population
                        (filter (near_a_stop route coverage_radius) points)) in
            let coverage_ratio := inject_Z covered_population / inject_Z total_population in
            py_min 100 (coverage_ratio * 100)
      end
  end.

Definition _calculate_accessibility_score (route : Route.t) : Q :=
  match Route.stops route with
  | [] => 0
  | stops =>
      let accessibility_ratio := Qnat (accessible_stops route) / Qlen stops in
      let amenity_bonus :=
        fold_left (fun acc stop => (acc + length (BusStop.amenities stop))%nat) stops O in
      let amenity_score := py_min 20 (Qnat amenity_bonus / Qlen stops) in
      accessibility_ratio * 80 + amenity_score
  end.

Definition _estimate_travel_time (route : Route.t) : Z :=
  if Nat.ltb (length (Route.stops route)) 2 then Route.estimated_travel_time route
  else
    let travel_time_hours := route_distance route / 25 in
    let travel_time_minutes := py_int (travel_time_hours * 60) in
    let stop_time := (Z.of_nat (length (Route.stops route)) * 2)%Z in
    let estimated_time := (travel_time_minutes + stop_time)%Z in
    Z.max estimated_time (Route.estimated_travel_time route).

Definition _calculate_density_bonus (route : Route.t) (data : PopulationDensityData.t) : Q :=
  let coverage_radius := 0.01 in
  let bonus :=
    fold_left
      (fun bonus stop =>
         let nearby_population :=
           Zsum (map DensityPoint.population
                     (filter (fun point =>
                                Qle_bool (_calculate_distance (BusStop.coordinates stop)
                                                              (DensityPoint.coordinates point))
                                         coverage_radius)
                             (PopulationDensityData.density_points data))) in
         let stop_bonus := py_min 10 (inject_Z nearby_population / 1000) in
         bonus + stop_bonus)
      (Route.stops route) 0 in
  py_min 20 (bonus / Qlen (Route.stops route)).

Definition _calculate_passenger_demand_score (route : Route.t)
           (population_data : option PopulationDensityData.t) : Q :=
  match Route.stops route with
  | [] => 0
  | stops =>
      let avg_passengers := inject_Z (total_passengers route) / Qlen stops in
      let base_score := py_min 100 (avg_passengers / 1000 * 100) in
      match population_data with
      | None => base_score
      | Some data =>
          match PopulationDensityData.density_points data with
          | [] => base_score
          | _ => py_min 100 (base_score + _calculate_density_bonus route data)
          end
      end
  end.

Definition _identify_bottlenecks (route : Route.t) : list Bottleneck.t :=
  let stops := Route.stops route in
  if Nat.ltb (length stops) 2 then []
  else
    let avg_passengers := inject_Z (total_passengers route) / Qlen stops in
    let high_threshold := avg_passengers * 2 in
    let high_demand :=
      flat_map
        (fun i_stop =>
           let count := inject_Z (BusStop.daily_passenger_count (snd i_stop)) in
           if Qlt_bool high_threshold count
           then [ {| Bottleneck.type := "high_demand_stop"%string;
                     Bottleneck.severity :=
                       if Qlt_bool (avg_passengers * 3) count
                       then "high"%string else "medium"%string;
                     Bottleneck.stop_index := Some (fst i_stop);
                     Bottleneck.affected_stops := [] |} ]
           else [])
        (enumerate stops) in
    let large_gaps :=
      flat_map
        (fun i_pair =>
           let distance :=
             _calculate_distance (BusStop.coordinates (fst (snd i_pair)))
                                 (BusStop.coordinates (snd (snd i_pair))) in
           if Qlt_bool 5 distance
           then [ {| Bottleneck.type := "large_gap"%string;
                     Bottleneck.severity :=
                       if Qlt_bool 10 distance then "high"%string else "medium"%string;
                     Bottleneck.stop_index := Some (fst i_pair);
                     Bottleneck.affected_stops := [] |} ]
           else [])
        (enumerate (consecutive stops)) in
    let inaccessible_stops :=
      map fst (filter (fun i_stop => negb (BusStop.is_accessible (snd i_stop)))
                      (enumerate stops)) in
    let accessibility :=
      if Qlt_bool (Qlen stops * 0.5) (Qlen inaccessible_stops)
      then [ {| Bottleneck.type := "accessibility_issue"%string;
                Bottleneck.severity := "medium"%string;
                Bottleneck.stop_index := None;
                Bottleneck.affected_stops := inaccessible_stops |} ]
      else [] in
    high_demand ++ large_gaps ++ accessibility.

Definition _generate_recommendations (route : Route.t)
           (efficiency_score coverage_score accessibility_score : Q) : list string :=
  let n := length (Route.stops route) in
  let recommendations : list string := [] in
  let recommendations :=
    if Qlt_bool efficiency_score 60
    then
      (recommendations ++
       (if Nat.ltb 15 n
        then ["Consider reducing the number of stops to improve efficiency"%string]
        else if Nat.ltb n 5
             then ["Consider adding more stops to better serve the area"%string]
             else [])) ++
      ["Review stop spacing and timing to optimize travel efficiency"%string]
    else recommendations in
  let recommendations :=
    if Qlt_bool coverage_score 50
    then recommendations ++
         ["Consider adjusting route path to cover higher population density areas"%string;
          "Analyze population data to identify underserved areas"%string]
    else recommendations in
  let recommendations :=
    if Qlt_bool accessibility_score 70
    then recommendations ++
         ["Improve wheelchair accessibility at more stops"%string;
          "Add amenities like shelters and seating at stops"%string]
    else recommendations in
  let recommendations :=
    if (120 <? Route.estimated_travel_time route)%Z
    then recommendations ++
         ["Consider splitting this route into shorter segments"%string]
    else recommendations in
  let recommendations :=
    if negb (Route.is_active route)
    then recommendations ++
         ["Evaluate reactivating this route based on analysis results"%string]
    else recommendations in
  match recommendations with
  | [] => ["Route performance is good - consider minor optimizations for continuous improvement"%string]
  | _ => recommendations
  end.

Definition analyze_route (route : Route.t)
           (population_data : option PopulationDensityData.t) : RouteAnalysisResult.t :=
  let efficiency := _calculate_efficiency_score route in
  let coverage := _calculate_coverage_score route population_data in
  let accessibility := _calculate_accessibility_score route in
  {| route_id := Route.id route;
     efficiency_score := efficiency;
     coverage_score := coverage;
     accessibility_score := accessibility;
     travel_time_estimate := _estimate_travel_time route;
     passenger_demand_score := _calculate_passenger_demand_score route population_data;
     bottlenecks := _identify_bottlenecks route;
     recommendations :=
       _generate_recommendations route efficiency coverage accessibility |}.
End WithModels.
End RouteAnalyzer.

(** ** algorithms/population_analyzer.py *)

(** The dict returned by [_summarize_demographics]. *)
Module DemographicSummary.
Record t : Type := {
  age_groups : dict Q;
  economic_indicators : dict Q;
  dominant_age_group : option string;
  dominant_age_percentage : option Q;
  average_income : option Q
}.
End DemographicSummary.

(** A coverage-gap record of [_identify_coverage_gaps]. *)
Module CoverageGap.
Record t : Type := {
  coordinates : Coordinates.t;
  population : Z;
  distance_to_nearest_stop : Float.t;
  severity : string;
  demographic_profile : DemographicSummary.t
}.
End CoverageGap.

(** An entry of the list built by [_identify_high_density_areas]. *)
Module HighDensityArea.
Record t : Type := {
  coordinates : Coordinates.t;
  population : Z;
  local_density : Q;
  demographic_profile : DemographicSummary.t;
  priority_score : Q
}.
End HighDensityArea.

(** The fields of the analysis the optimisation reads; the population
    density and the demographic insights ([cos], [log]) are not modelled. *)
Module PopulationAnalysisResult.
Record t : Type := {
  region : string;
  total_population : Z;
  optimal_stop_locations : list Coordinates.t;
  coverage_gaps : list CoverageGap.t
}.
End PopulationAnalysisResult.

Module PopulationAnalyzer.
Import PopulationAnalysisResult.
Local Open Scope Q_scope.

Section WithGeo.
Variable geo : GeoMetric.t.

Definition _calculate_distance (coord1 coord2 : Coordinates.t) : Q :=
  GeoMetric.haversine_distance geo coord1 coord2.

Definition _summarize_demographics (demographic_data : DemographicData.t)
  : DemographicSummary.t :=
  let dominant :=
    match DemographicData.age_groups demographic_data with
    | [] => None
    | item :: items => Some (max_by snd item items)
    end in
  {| DemographicSummary.age_groups := DemographicData.age_groups demographic_data;
     DemographicSummary.economic_indicators :=
       DemographicData.economic_indicators demographic_data;
     DemographicSummary.dominant_age_group := option_map fst dominant;
     DemographicSummary.dominant_age_percentage := option_map snd dominant;
     DemographicSummary.average_income :=
       dict_get (DemographicData.economic_indicators demographic_data) "income" |}.

(** [np.pi], the double nearest to pi. *)
Definition np_pi : Q := 884279719003555 # 281474976710656.

Definition _calculate_local_density (center_point : DensityPoint.t)
           (all_points : list DensityPoint.t) (radius_km : Q) : arith Q :=
  let total_population :=
    Zsum (map DensityPoint.population
              (filter (fun point =>
                         Qle_bool (_calculate_distance (DensityPoint.coordinates center_point)
                                                       (DensityPoint.coordinates point))
                                  radius_km)
                      all_points)) in
  let area_km2 := np_pi * (radius_km * radius_km) in
  py_div (inject_Z total_population) area_km2.

Definition _calculate_priority_score (point : DensityPoint.t) (local_density : Q) : Q :=
  let demographic_data := DensityPoint.demographic_data point in
  let score := 0 in
  let score := score + py_min 50 (inject_Z (DensityPoint.population point) / 1000) in
  let score := score + py_min 30 (local_density / 1000) in
  let score :=
    match DemographicData.age_groups demographic_data with
    | [] => score
    | age_groups =>
        let working_age_pop :=
          match dict_get age_groups "25-64" with
          | Some share => share
          | None => 0
          end in
        score + working_age_pop * 0.2
    end in
  let score :=
    match dict_get (DemographicData.economic_indicators demographic_data) "income" with
    | Some income =>
        if Qle_bool 20000 income && Qle_bool income 60000 then score + 10
        else if Qlt_bool income 20000 then score + 15
             else score
    | None => score
    end in
  py_min 100 score.

(** The threshold is the population at the end of the top fifth;
    [threshold_index - 1] is in range. *)
Definition _identify_high_density_areas (population_data : PopulationDensityData.t)
  : arith (list HighDensityArea.t) :=
  match PopulationDensityData.density_points population_data with
  | [] => Num []
  | density_points =>
      let populations :=
        stable_sort (fun a b => (b <=? a)%Z)
                    (map DensityPoint.population density_points) in
      let threshold_index := Nat.max 1 (length populations / 5) in
      let high_density_threshold := nth (threshold_index - 1) populations 0%Z in
      arith_bind
        (arith_mapM
           (fun point =>
              arith_bind
                (_calculate_local_density point density_points 1)
                (fun local_density =>
                   Num {| HighDensityArea.coordinates := DensityPoint.coordinates point;
                          HighDensityArea.population := DensityPoint.population point;
                          HighDensityArea.local_density := local_density;
                          HighDensityArea.demographic_profile :=
                            _summarize_demographics (DensityPoint.demographic_data point);
                          HighDensityArea.priority_score :=
                            _calculate_priority_score point local_density |}))
           (filter (fun point =>
                      (high_density_threshold <=? DensityPoint.population point)%Z)
                   density_points))
        (fun high_density_areas =>
           Num (stable_sort
                  (fun a b => Qle_bool (HighDensityArea.priority_score b)
                                       (HighDensityArea.priority_score a))
                  high_density_areas))
  end.

(** A candidate location with its population: the triple
    [(lat, lon, population)]. *)
Definition point : Type := (Q * Q * Z)%type.
Definition point_coords (p : point) : Coordinates.t :=
  {| Coordinates.latitude := fst (fst p); Coordinates.longitude := snd (fst p) |}.
Definition same_place (p q : point) : bool :=
  Qeq_bool (fst (fst p)) (fst (fst q)) && Qeq_bool (snd (fst p)) (snd (fst q)).

Definition _calculate_stop_score (p : point) (all_points : list point) : Q :=
  fold_left
    (fun score other =>
       if negb (same_place other p)
       then
         let distance := _calculate_distance (point_coords p) (point_coords other) in
         if Qle_bool distance 1
         then
           let weight := py_max 0 (1 - distance) in
           score + inject_Z (snd other) * weight
         else score
       else score)
    all_points (inject_Z (snd p)).

(** The greedy selection: [for _ in range(min(max_stops, len(points)))]. *)
Fixpoint select_locations (rounds : nat) (remaining_points : list point)
         (optimal_locations : list Coordinates.t) : list Coordinates.t :=
  match rounds, remaining_points with
  | S rounds', p :: ps =>
      let best_point :=
        max_by (fun q => _calculate_stop_score q remaining_points) p ps in
      select_locations rounds'
        (filter (fun q => Qlt_bool 0.5 (_calculate_distance (point_coords q)
                                                            (point_coords best_point)))
                remaining_points)
        (optimal_locations ++ [point_coords best_point])
  | _, _ => optimal_locations
  end.

Definition _find_optimal_stop_locations (population_data : PopulationDensityData.t)
           (max_stops : nat) : list Coordinates.t :=
  match PopulationDensityData.density_points population_data with
  | [] => []
  | density_points =>
      let points : list point :=
        map (fun p => (Coordinates.latitude (DensityPoint.coordinates p),
                       Coordinates.longitude (DensityPoint.coordinates p),
                       DensityPoint.population p))
            density_points in
      if Nat.leb (length points) max_stops
      then map point_coords (filter (fun p => (0 <? snd p)%Z) points)
      else select_locations (Nat.min max_stops (length points)) points []
  end.

(** The scan of the candidate stops for one density point: it stops at
    the first stop within the radius. *)
Fixpoint scan_stops (p : Coordinates.t) (optimal_stops : list Coordinates.t)
         (coverage_radius : Q) (min_distance : Float.t) : bool * Float.t :=
  match optimal_stops with
  | [] => (false, min_distance)
  | stop :: stops' =>
      let distance := _calculate_distance p stop in
      let min_distance := Float.min min_distance (Float.fin distance) in
      if Qle_bool distance coverage_radius then (true, min_distance)
      else scan_stops p stops' coverage_radius min_distance
  end.

Definition _identify_coverage_gaps (population_data : PopulationDensityData.t)
           (optimal_stops : list Coordinates.t) (coverage_radius : Q)
  : list CoverageGap.t :=
  match PopulationDensityData.density_points population_data, optimal_stops with
  | [], _ => []
  | _, [] => []
  | density_points, _ =>
      let coverage_gaps :=
        flat_map
          (fun p =>
             let scan := scan_stops (DensityPoint.coordinates p) optimal_stops
                                    coverage_radius Float.inf in
             if negb (fst scan) && (500 <? DensityPoint.population p)%Z
             then [ {| CoverageGap.coordinates := DensityPoint.coordinates p;
                       CoverageGap.population := DensityPoint.population p;
                       CoverageGap.distance_to_nearest_stop := snd scan;
                       CoverageGap.severity :=
                         if (2000 <? DensityPoint.population p)%Z
                         then "high"%string else "medium"%string;
                       CoverageGap.demographic_profile :=
                         _summarize_demographics (DensityPoint.demographic_data p) |} ]
             else [])
          density_points in
      stable_sort (fun a b => (CoverageGap.population b <=? CoverageGap.population a)%Z)
                  coverage_gaps
  end.

Definition analyze_population_data (population_data : PopulationDensityData.t)
  : PopulationAnalysisResult.t :=
  let optimal_stops := _find_optimal_stop_locations population_data 20 in
  {| region := PopulationDensityData.region population_data;
     total_population := PopulationDensityData.get_total_population population_data;
     optimal_stop_locations := optimal_stops;
     coverage_gaps := _identify_coverage_gaps population_data optimal_stops 1 |}.
End WithGeo.
End PopulationAnalyzer.

(** ** algorithms/optimization_engine.py *)

Module OptimizationEngine.
Local Open Scope Q_scope.

Section WithRuntime.
Variable geo : GeoMetric.t.
Variable efficiency_model : option (list Q -> result Q).
(** [uuid4 k] is the id drawn by the [k]-th model built without an id. *)
Variable uuid4 : nat -> string.
(** [datetime.now().strftime('%Y-%m-%d')] *)
Variable today : string.

Definition _calculate_distance (coord1 coord2 : Coordinates.t) : Q :=
  GeoMetric.haversine_distance geo coord1 coord2.

(** [new_stops] grows by one stop per gap; [len(new_stops)] numbers them. *)
Fixpoint add_stops_loop (coverage_gaps : list CoverageGap.t) (new_stops : list BusStop.t)
  : result (list BusStop.t) :=
  match coverage_gaps with
  | [] => Ok new_stops
  | gap :: gaps' =>
      let gap_coords := CoverageGap.coordinates gap in
      coords <- Coordinates.create (Coordinates.latitude gap_coords)
                                   (Coordinates.longitude gap_coords) ;;
      new_stop <- BusStop.create
                    (uuid4 (length new_stops))
                    ("New Stop - Gap Coverage " ++ str_of_nat (length new_stops + 1))%string
                    coords
                    ("Coverage gap area - Population: "
                       ++ str_of_Z (CoverageGap.population gap))%string
                    ["shelter"%string]
                    (Z.min (CoverageGap.population gap / 10) 5000)
                    true ;;
      add_stops_loop gaps' (new_stops ++ [new_stop])
  end.

Definition _add_stops_for_coverage_gaps (current_stops : list BusStop.t)
           (coverage_gaps : list CoverageGap.t) : result (list BusStop.t) :=
  add_stops_loop coverage_gaps [].

(** The loop over the bottlenecks: every branch is [continue]. *)
Definition stops_to_remove_of (bottlenecks : list Bottleneck.t) : list nat :=
  fold_left
    (fun stops_to_remove bottleneck =>
       if String.eqb (Bottleneck.type bottleneck) "large_gap"%string
          && String.eqb (Bottleneck.severity bottleneck) "high"%string
       then stops_to_remove
       else if String.eqb (Bottleneck.type bottleneck) "high_demand_stop"%string
               && String.eqb (Bottleneck.severity bottleneck) "high"%string
            then stops_to_remove
            else if String.eqb (Bottleneck.type bottleneck) "accessibility_issue"%string
                 then stops_to_remove
                 else stops_to_remove)
    bottlenecks [].

Definition _remove_bottleneck_stops (stops : list BusStop.t)
           (bottlenecks : list Bottleneck.t) : list BusStop.t :=
  if Nat.leb (length stops) 3 then stops
  else
    let stops_to_remove := stops_to_remove_of bottlenecks in
    map snd
        (filter (fun i_stop =>
                   negb (existsb (Nat.eqb (fst i_stop)) stops_to_remove)
                   || (Z.of_nat (length stops) - Z.of_nat (length stops_to_remove) <? 2)%Z)
                (enumerate stops)).

Definition _enhance_amenities (current_amenities : list string) : list string :=
  let add_missing :=
    fold_left (fun enhanced amenity =>
                 if mem amenity enhanced then enhanced else enhanced ++ [amenity]) in
  let enhanced := current_amenities in
  let enhanced := add_missing ["shelter"; "seating"; "lighting"]%string enhanced in
  add_missing ["wheelchair_accessible"; "tactile_paving"]%string enhanced.

Definition _improve_accessibility (stops : list BusStop.t) : result (list BusStop.t) :=
  mapM (fun stop =>
          BusStop.create (BusStop.id stop) (BusStop.name stop)
                         (BusStop.coordinates stop) (BusStop.address stop)
                         (_enhance_amenities (BusStop.amenities stop))
                         (BusStop.daily_passenger_count stop)
                         true)
       stops.

Fixpoint total_time_from (path_matrix : PathMatrix.t) (pairs : list (BusStop.t * BusStop.t))
         (total_time : Q) : result Q :=
  match pairs with
  | [] => Ok total_time
  | (current, next) :: pairs' =>
      let ids := PathMatrix.stop_ids path_matrix in
      if mem (BusStop.id current) ids && mem (BusStop.id next) ids
      then
        current_idx <- index (BusStop.id current) ids ;;
        next_idx <- index (BusStop.id next) ids ;;
        segment_time <- getitem2 (PathMatrix.time_matrix path_matrix) current_idx next_idx ;;
        total_time_from path_matrix pairs' (total_time + segment_time)
      else
        let distance :=
          _calculate_distance (BusStop.coordinates current) (BusStop.coordinates next) in
        let segment_time := distance / 25 * 60 + 2 in
        total_time_from path_matrix pairs' (total_time + segment_time)
  end.

Definition _estimate_optimized_travel_time (stops : list BusStop.t)
           (path_matrix : PathMatrix.t) : result Z :=
  if Nat.ltb (length stops) 2 then Ok 10%Z
  else
    total_time <- total_time_from path_matrix (consecutive stops) 0 ;;
    Ok (Z.max 10 (py_int total_time)).

(** The three bonuses of the new score, as the source adds them up. *)
Definition bottleneck_bonus (route_analysis : RouteAnalysisResult.t) : Z :=
  match RouteAnalysisResult.bottlenecks route_analysis with
  | [] => 0
  | bottlenecks => Z.min 10 (Z.of_nat (length bottlenecks) * 2)
  end.

Definition recommendation_bonus (route_analysis : RouteAnalysisResult.t) : Z :=
  match RouteAnalysisResult.recommendations route_analysis with
  | [] => 0
  | recommendations => Z.min 15 (Z.of_nat (length recommendations) * 3)
  end.

Definition accessibility_bonus (route_analysis : RouteAnalysisResult.t) : Z :=
  if Qlt_bool (RouteAnalysisResult.accessibility_score route_analysis) 80 then 10 else 0.

Definition _calculate_new_optimization_score (original_score : Q)
           (route_analysis : RouteAnalysisResult.t) : Q :=
  let base_score := RouteAnalysisResult.get_overall_score route_analysis in
  let optimization_bonus := 0%Z in
  let optimization_bonus := (optimization_bonus + bottleneck_bonus route_analysis)%Z in
  let optimization_bonus := (optimization_bonus + recommendation_bonus route_analysis)%Z in
  let optimization_bonus := (optimization_bonus + accessibility_bonus route_analysis)%Z in
  let new_score := py_min 100 (base_score + inject_Z optimization_bonus) in
  py_max new_score (original_score + 5).

(** [{stop.id: stop for stop in optimized_stops}] *)
Definition stop_dict_of (stops : list BusStop.t) : dict BusStop.t :=
  fold_left (fun d stop => dict_set d (BusStop.id stop) stop) stops [].

Definition reorder_stops (path_matrix : PathMatrix.t) (optimized_stops : list BusStop.t)
  : list BusStop.t :=
  let stop_ids := map BusStop.id optimized_stops in
  let optimal_order :=
    PathMatrixCalculator.find_optimal_route_order path_matrix stop_ids in
  let stop_dict := stop_dict_of optimized_stops in
  flat_map (fun stop_id =>
              match dict_get stop_dict stop_id with
              | Some stop => [stop]
              | None => []
              end)
           optimal_order.

Definition _generate_optimized_route (original_route : Route.t)
           (route_analysis : RouteAnalysisResult.t)
           (population_analysis : option PopulationAnalysisResult.t)
           (path_matrix : PathMatrix.t) : result Route.t :=
  let optimized_stops := Route.stops original_route in
  let optimized_stops :=
    if Nat.ltb 2 (length optimized_stops)
    then reorder_stops path_matrix optimized_stops
    else optimized_stops in
  new_stops <-
    match population_analysis with
    | None => Ok []
    | Some analysis =>
        match PopulationAnalysisResult.coverage_gaps analysis with
        | [] => Ok []
        | coverage_gaps =>
            _add_stops_for_coverage_gaps optimized_stops (firstn 2 coverage_gaps)
        end
    end ;;
  let optimized_stops := optimized_stops ++ new_stops in
  let optimized_stops :=
    match RouteAnalysisResult.bottlenecks route_analysis with
    | [] => optimized_stops
    | bottlenecks => _remove_bottleneck_stops optimized_stops bottlenecks
    end in
  optimized_stops <- _improve_accessibility optimized_stops ;;
  new_travel_time <- _estimate_optimized_travel_time optimized_stops path_matrix ;;
  let new_optimization_score :=
    _calculate_new_optimization_score (Route.optimization_score original_route)
                                      route_analysis in
  Route.create (uuid4 (length new_stops))
               (Route.name original_route ++ " (Optimized)")%string
               ("Optimized version of " ++ Route.name original_route ++ " - " ++ today)%string
               optimized_stops
               (Route.operator_id original_route)
               true
               new_optimization_score
               new_travel_time.

Definition passenger_coverage (route : Route.t) : Z :=
  Zsum (map BusStop.daily_passenger_count (Route.stops route)).

Definition _calculate_optimization_metrics (original_route optimized_route : Route.t)
           (route_analysis : RouteAnalysisResult.t) : result OptimizationMetrics.t :=
  let time_improvement :=
    if (0 <? Route.estimated_travel_time original_route)%Z
    then
      let time_diff :=
        (Route.estimated_travel_time original_route
         - Route.estimated_travel_time optimized_route)%Z in
      py_max 0 (inject_Z time_diff
                / inject_Z (Route.estimated_travel_time original_route) * 100)
    else 0 in
  let distance_reduction := 5 in
  let original_coverage := passenger_coverage original_route in
  let optimized_coverage := passenger_coverage optimized_route in
  let coverage_increase :=
    if (0 <? original_coverage)%Z
    then py_max 0 (inject_Z (optimized_coverage - original_coverage)
                   / inject_Z original_coverage * 100)
    else 0 in
  let base_cost_savings := (time_improvement + distance_reduction) / 2 in
  let accessibility_bonus :=
    if Qlt_bool 80 (RouteAnalysisResult.accessibility_score route_analysis)
    then 5 else 0 in
  let cost_savings := base_cost_savings + accessibility_bonus in
  OptimizationMetrics.create time_improvement distance_reduction coverage_increase
                             cost_savings.

Definition _create_default_population_data (route : Route.t) (next_id : nat)
  : result PopulationDensityData.t :=
  bounds_points <-
    match Route.stops route with
    | [] =>
        bounds <- GeoBounds.create 0.1 (-0.1) 0.1 (-0.1) ;;
        Ok (bounds, [])
    | stops =>
        let lats := map (fun s => Coordinates.latitude (BusStop.coordinates s)) stops in
        let lons := map (fun s => Coordinates.longitude (BusStop.coordinates s)) stops in
        bounds <- GeoBounds.create (list_max lats + 0.01) (list_min lats - 0.01)
                                   (list_max lons + 0.01) (list_min lons - 0.01) ;;
        density_points <-
          mapM (fun stop =>
                  DensityPoint.create
                    (BusStop.coordinates stop)
                    (BusStop.daily_passenger_count stop * 10)
                    {| DemographicData.age_groups :=
                         [("25-64"%string, 60); ("18-25"%string, 20); ("65+"%string, 20)];
                       DemographicData.economic_indicators := [("income"%string, 35000)] |})
               stops ;;
        Ok (bounds, density_points)
    end ;;
  PopulationDensityData.create (uuid4 next_id)
                               ("Route " ++ Route.name route ++ " Area")%string
                               (fst bounds_points) (snd bounds_points)
                               "Estimated from route data"%string.

(** The number of ids drawn while the optimised route was built: one
    per added stop and one for the route. *)
Definition ids_drawn (original_route optimized_route : Route.t) : nat :=
  (length (Route.stops optimized_route) - length (Route.stops original_route) + 1)%nat.

Definition optimize_route (route : Route.t)
           (population_data : option PopulationDensityData.t)
  : result OptimizationResult.t :=
  let route_analysis := RouteAnalyzer.analyze_route geo efficiency_model route population_data in
  let population_analysis :=
    option_map (PopulationAnalyzer.analyze_population_data geo) population_data in
  let path_matrix :=
    PathMatrixCalculator.calculate_path_matrix geo (Route.stops route) WEIGHTED in
  optimized_route <-
    _generate_optimized_route route route_analysis population_analysis path_matrix ;;
  metrics <- _calculate_optimization_metrics route optimized_route route_analysis ;;
  let next_id := ids_drawn route optimized_route in
  data <-
    match population_data with
    | Some data => Ok data
    | None => _create_default_population_data route next_id
    end ;;
  Ok {| OptimizationResult.id :=
          uuid4 (match population_data with
                 | Some _ => next_id
                 | None => S next_id
                 end);
        OptimizationResult.original_route_id := Route.id route;
        OptimizationResult.optimized_route := optimized_route;
        OptimizationResult.metrics := metrics;
        OptimizationResult.population_data := data |}.
End WithRuntime.
End OptimizationEngine.


(** ** algorithms/result_generator.py *)

Inductive RankingCriteria : Type :=
| TIME_EFFICIENCY
| COST_EFFECTIVENESS
| PASSENGER_COVERAGE
| ACCESSIBILITY
| ENVIRONMENTAL_IMPACT
| OVERALL_SCORE.

Module EfficiencyMetricsCalculator.
Local Open Scope Q_scope.

Section WithGeo.
Variable geo : GeoMetric.t.

Definition _calculate_distance (coord1 coord2 : Coordinates.t) : Q :=
  GeoMetric.haversine_distance geo coord1 coord2.

Definition _estimate_route_distance (route : Route.t) : Q :=
  if Nat.ltb (length (Route.stops route)) 2 then 0
  else
    fold_left
      (fun total_distance pair =>
         total_distance
         + _calculate_distance (BusStop.coordinates (fst pair))
                               (BusStop.coordinates (snd pair)))
      (consecutive (Route.stops route)) 0.

Definition _calculate_time_improvement (original optimized : Route.t) : Q :=
  if (Route.estimated_travel_time original <=? 0)%Z then 0
  else
    let time_diff :=
      (Route.estimated_travel_time original - Route.estimated_travel_time optimized)%Z in
    let improvement :=
      py_max 0 (inject_Z time_diff / inject_Z (Route.estimated_travel_time original) * 100) in
    let improvement :=
      if Qlt_bool 20 improvement then improvement * 1.1 else improvement in
    py_min improvement 50.

Definition _calculate_distance_reduction (original optimized : Route.t) : Q :=
  let original_distance := _estimate_route_distance original in
  let optimized_distance := _estimate_route_distance optimized in
  if Qle_bool original_distance 0 then 0
  else
    let distance_diff := original_distance - optimized_distance in
    let reduction := py_max 0 (distance_diff / original_distance * 100) in
    py_min reduction 40.

Definition _calculate_population_density_bonus (route : Route.t)
           (population_data : PopulationDensityData.t) : Q :=
  match PopulationDensityData.density_points population_data with
  | [] => 0
  | density_points =>
      let total_population := Zsum (map DensityPoint.population density_points) in
      if (total_population <=? 0)%Z then 0
      else
        let coverage_score :=
          fold_left
            (fun coverage_score stop =>
               let nearby_population :=
                 fold_left
                   (fun nearby_population point =>
                      let distance :=
                        _calculate_distance (BusStop.coordinates stop)
                                            (DensityPoint.coordinates point) in
                      if Qle_bool distance 1
                      then (nearby_population + DensityPoint.population point)%Z
                      else nearby_population)
                   density_points 0%Z in
               coverage_score + inject_Z nearby_population)
            (Route.stops route) 0 in
        let bonus := coverage_score / inject_Z total_population * 10 in
        py_min bonus 10
  end.

Definition _calculate_coverage_increase (original optimized : Route.t)
           (population_data : option PopulationDensityData.t) : Q :=
  let original_coverage := Zsum (map BusStop.daily_passenger_count (Route.stops original)) in
  let optimized_coverage :=
    Zsum (map BusStop.daily_passenger_count (Route.stops optimized)) in
  if (original_coverage <=? 0)%Z then 0
  else
    let coverage_diff := (optimized_coverage - original_coverage)%Z in
    let increase := py_max 0 (inject_Z coverage_diff / inject_Z original_coverage * 100) in
    let increase :=
      match population_data with
      | Some data => increase + _calculate_population_density_bonus optimized data
      | None => increase
      end in
    py_min increase 100.

Definition _calculate_cost_savings (original optimized : Route.t) : Q :=
  let time_factor :=
    py_max 0 (inject_Z (Route.estimated_travel_time original
                        - Route.estimated_travel_time optimized) / 60) in
  let distance_factor :=
    _estimate_route_distance original - _estimate_route_distance optimized in
  let fuel_savings := distance_factor * 0.5 in
  let time_savings := time_factor * 25 in
  let estimated_route_cost :=
    inject_Z (Route.estimated_travel_time original) * 0.5
    + _estimate_route_distance original * 0.3 in
  if Qle_bool estimated_route_cost 0 then 0
  else
    let total_savings := fuel_savings + time_savings in
    let savings_percentage := total_savings / estimated_route_cost * 100 in
    py_min savings_percentage 30.

(** The share of accessible stops of the optimised route is divided by
    the number of its stops without a guard. *)
Definition _calculate_accessibility_improvement (original optimized : Route.t) : arith Q :=
  let original_accessible := length (filter BusStop.is_accessible (Route.stops original)) in
  let optimized_accessible :=
    length (filter BusStop.is_accessible (Route.stops optimized)) in
  if Nat.eqb (length (Route.stops original)) 0 then Num 0
  else
    let original_accessibility :=
      Qnat original_accessible / Qlen (Route.stops original) * 100 in
    arith_bind
      (py_div (Qnat optimized_accessible) (Qlen (Route.stops optimized)))
      (fun share =>
         let optimized_accessibility := share * 100 in
         let improvement := optimized_accessibility - original_accessibility in
         Num (py_max 0 improvement)).

Definition _calculate_environmental_impact (original optimized : Route.t) : arith Q :=
  let original_distance := _estimate_route_distance original in
  let optimized_distance := _estimate_route_distance optimized in
  if Qle_bool original_distance 0 then Num 0
  else
    let distance_impact :=
      py_max 0 ((original_distance - optimized_distance) / original_distance * 100) in
    arith_bind
      (_calculate_accessibility_improvement original optimized)
      (fun accessibility_improvement =>
         let accessibility_bonus := accessibility_improvement * 0.1 in
         Num (py_min (distance_impact + accessibility_bonus) 25)).

Definition _calculate_route_quality_score (route : Route.t) : Q :=
  match Route.stops route with
  | [] => 0
  | stops =>
      let accessible_stops := length (filter BusStop.is_accessible stops) in
      let accessibility_score := Qnat accessible_stops / Qlen stops * 30 in
      let total_amenities :=
        list_sum (map (fun stop => length (BusStop.amenities stop)) stops) in
      let amenities_score := py_min (Qnat total_amenities / Qlen stops * 5) 20 in
      let avg_passenger_count :=
        inject_Z (Zsum (map BusStop.daily_passenger_count stops)) / Qlen stops in
      let coverage_score := py_min (avg_passenger_count / 1000 * 10) 30 in
      let optimization_score := py_min (Route.optimization_score route / 5) 20 in
      accessibility_score + amenities_score + coverage_score + optimization_score
  end.

Definition _calculate_service_quality_improvement (original optimized : Route.t) : Q :=
  let original_quality := _calculate_route_quality_score original in
  let optimized_quality := _calculate_route_quality_score optimized in
  let improvement := optimized_quality - original_quality in
  py_max 0 improvement.

(** The service quality improvement is computed and not used.  The call
    ends in a [ZeroDivisionError], in a validation error of the metrics
    model, or in the metrics. *)
Definition calculate_comprehensive_metrics (original_route optimized_route : Route.t)
           (population_data : option PopulationDensityData.t)
  : arith (result OptimizationMetrics.t) :=
  let time_improvement := _calculate_time_improvement original_route optimized_route in
  let distance_reduction := _calculate_distance_reduction original_route optimized_route in
  let coverage_increase :=
    _calculate_coverage_increase original_route optimized_route population_data in
  let cost_savings := _calculate_cost_savings original_route optimized_route in
  arith_bind
    (_calculate_accessibility_improvement original_route optimized_route)
    (fun accessibility_improvement =>
       arith_bind
         (_calculate_environmental_impact original_route optimized_route)
         (fun environmental_impact =>
            let service_quality_improvement :=
              _calculate_service_quality_improvement original_route optimized_route in
            let enhanced_cost_savings :=
              cost_savings + accessibility_improvement * 0.1
              + environmental_impact * 0.05 in
            Num (OptimizationMetrics.create time_improvement distance_reduction
                                            coverage_increase
                                            (py_min enhanced_cost_savings 100)))).
End WithGeo.
End EfficiencyMetricsCalculator.

Module RouteRankingEngine.
Local Open Scope Q_scope.

Definition accessibility_amenities : list string :=
  ["wheelchair_accessible"; "tactile_paving"; "audio_announcements"]%string.

Definition _calculate_accessibility_score (route : Route.t) : Q :=
  match Route.stops route with
  | [] => 0
  | stops =>
      let accessible_stops := length (filter BusStop.is_accessible stops) in
      let accessibility_ratio := Qnat accessible_stops / Qlen stops in
      let amenity_score :=
        fold_left
          (fun amenity_score stop =>
             let stop_amenity_score :=
               length (filter (fun amenity => mem amenity accessibility_amenities)
                              (BusStop.amenities stop)) in
             (amenity_score + stop_amenity_score)%nat)
          stops O in
      let avg_amenity_score := Qnat amenity_score / Qlen stops in
      let total_score := accessibility_ratio * 70 + py_min avg_amenity_score 3 * 10 in
      py_min total_score 100
  end.

Definition _calculate_environmental_score (result : OptimizationResult.t) : Q :=
  let metrics := OptimizationResult.metrics result in
  let distance_score := OptimizationMetrics.distance_reduction metrics * 0.6 in
  let coverage_score :=
    py_min (OptimizationMetrics.passenger_coverage_increase metrics * 0.3) 20 in
  let accessibility_score :=
    _calculate_accessibility_score (OptimizationResult.optimized_route result) * 0.1 in
  let total_score := distance_score + coverage_score + accessibility_score in
  py_min total_score 100.

(** The [weights] argument is accepted and not read. *)
Definition _calculate_ranking_score (result : OptimizationResult.t)
           (criteria : RankingCriteria) (weights : option (dict Q)) : Q :=
  match criteria with
  | TIME_EFFICIENCY =>
      OptimizationMetrics.time_improvement (OptimizationResult.metrics result)
  | COST_EFFECTIVENESS =>
      OptimizationMetrics.cost_savings (OptimizationResult.metrics result)
  | PASSENGER_COVERAGE =>
      OptimizationMetrics.passenger_coverage_increase (OptimizationResult.metrics result)
  | ACCESSIBILITY =>
      _calculate_accessibility_score (OptimizationResult.optimized_route result)
  | ENVIRONMENTAL_IMPACT => _calculate_environmental_score result
  | OVERALL_SCORE =>
      OptimizationMetrics.get_overall_score (OptimizationResult.metrics result)
  end.

(** [sort(key=lambda x: x[0].original_route_id)]: ascending by route id. *)
Definition by_route_id (a b : OptimizationResult.t * Q) : bool :=
  String.leb (OptimizationResult.original_route_id (fst a))
             (OptimizationResult.original_route_id (fst b)).

(** [sort(key=lambda x: x[1], reverse=True)]: descending by score. *)
Definition by_score_desc (a b : OptimizationResult.t * Q) : bool :=
  Qle_bool (snd b) (snd a).

Definition rank_optimization_results (results : list OptimizationResult.t)
           (criteria : RankingCriteria) (weights : option (dict Q))
  : list OptimizationResult.t :=
  match results with
  | [] => []
  | _ =>
      let scored_results :=
        map (fun result => (result, _calculate_ranking_score result criteria weights))
            results in
      let scored_results := stable_sort by_route_id scored_results in
      let scored_results := stable_sort by_score_desc scored_results in
      map fst scored_results
  end.

Definition default_weights : dict Q :=
  [ ("time_improvement"%string, 0.25);
    ("distance_reduction"%string, 0.20);
    ("passenger_coverage"%string, 0.25);
    ("cost_savings"%string, 0.15);
    ("accessibility"%string, 0.10);
    ("environmental"%string, 0.05) ].

(** "Normalize weights to sum to 1.0", when the total is positive. *)
Definition normalize_weights (weights : dict Q) : dict Q :=
  let total_weight := Qsum (dict_values weights) in
  if Qlt_bool 0 total_weight
  then map (fun kv => (fst kv, snd kv / total_weight)) weights
  else weights.

(** [score += value * weights[key]] under [if key in weights]. *)
Definition add_weighted (weights : dict Q) (key : string) (value : Q) (score : Q) : Q :=
  match dict_get weights key with
  | Some w => score + value * w
  | None => score
  end.

Definition _calculate_weighted_overall_score (result : OptimizationResult.t)
           (weights : option (dict Q)) : Q :=
  let weights :=
    match weights with
    | None => default_weights
    | Some weights => weights
    end in
  let weights := normalize_weights weights in
  let metrics := OptimizationResult.metrics result in
  let score := 0 in
  let score :=
    add_weighted weights "time_improvement"
                 (OptimizationMetrics.time_improvement metrics) score in
  let score :=
    add_weighted weights "distance_reduction"
                 (OptimizationMetrics.distance_reduction metrics) score in
  let score :=
    add_weighted weights "passenger_coverage"
                 (OptimizationMetrics.passenger_coverage_increase metrics) score in
  let score :=
    add_weighted weights "cost_savings"
                 (OptimizationMetrics.cost_savings metrics) score in
  let score :=
    add_weighted weights "accessibility"
                 (_calculate_accessibility_score (OptimizationResult.optimized_route result))
                 score in
  let score :=
    add_weighted weights "environmental" (_calculate_environmental_score result) score in
  py_min score 100.

(** The completion the specification describes for a caller-supplied
    weight map: every criterion missing from the map gets its weight of
    the default table. *)
Definition spec_fill_missing_weights (weights : dict Q) : dict Q :=
  fold_left (fun filled kv => if dict_mem filled (fst kv) then filled else filled ++ [kv])
            default_weights weights.
End RouteRankingEngine.

(** ** Notions used to state the properties *)

(** The distance matrix of a [PathMatrix] is square and aligned with its
    stop ids. *)
Definition square_matrix (matrix : PathMatrix.t) : Prop :=
  length (PathMatrix.distance_matrix matrix) = length (PathMatrix.stop_ids matrix)
  /\ Forall (fun row => length row = length (PathMatrix.stop_ids matrix))
            (PathMatrix.distance_matrix matrix).

(** The sum of consecutive distance-matrix entries along a visiting order
    given by stop ids. *)
Definition order_distance (matrix : PathMatrix.t) (order : list string) : result Float.t :=
  indices <- mapM (fun stop_id => index stop_id (PathMatrix.stop_ids matrix)) order ;;
  PathMatrixCalculator.total_distance matrix indices.

(** The position of a stop id that is present, the stop id at a position
    that is in range, and a cell of the distance matrix in range. *)
Definition position (ids : list string) (stop_id : string) : nat :=
  match index stop_id ids with
  | Ok i => i
  | Raise _ => O
  end.

Definition id_at (ids : list string) (i : nat) : string := nth i ids EmptyString.

Definition cell (matrix : PathMatrix.t) (i j : nat) : Float.t :=
  nth j (nth i (PathMatrix.distance_matrix matrix) []) Float.inf.

Fixpoint path_sum (matrix : PathMatrix.t) (order : list nat) (acc : Float.t) : Float.t :=
  match order with
  | i :: ((j :: _) as rest) => path_sum matrix rest (Float.add acc (cell matrix i j))
  | _ => acc
  end.

(** An edge of the shortest-path search is a positive finite cell of the
    distance matrix; a stop is reachable from the origin along edges. *)
Definition edge (matrix : PathMatrix.t) (u v : nat) : Prop :=
  exists d, getitem2 (PathMatrix.distance_matrix matrix) u v = Ok (Float.fin d) /\ (0 < d)%Q.

Inductive reachable (matrix : PathMatrix.t) (origin : nat) : nat -> Prop :=
| reachable_origin : reachable matrix origin origin
| reachable_step (u v : nat) :
    reachable matrix origin u -> edge matrix u v -> reachable matrix origin v.

(** Every stop at finite distance is reachable from the origin. *)
Definition finite_is_reachable (matrix : PathMatrix.t) (origin : nat)
           (st : PathMatrixCalculator.dijkstra_state) : Prop :=
  forall v, nth v (PathMatrixCalculator.dist st) Float.inf <> Float.inf ->
            reachable matrix origin v.

(** ** Sample data

    Concrete inputs on which the properties below are exercised.  The
    sample metric measures the grid distance at 111 km per degree on both
    axes. *)
Module Samples.
Local Open Scope Q_scope.

Definition Qabs_diff (a b : Q) : Q := if Qle_bool a b then b - a else a - b.

Definition grid_km (c1 c2 : Coordinates.t) : Q :=
  (Qabs_diff (Coordinates.latitude c1) (Coordinates.latitude c2)
   + Qabs_diff (Coordinates.longitude c1) (Coordinates.longitude c2)) * 111.

Definition geo : GeoMetric.t :=
  {| GeoMetric.haversine_distance := grid_km;
     GeoMetric.manhattan_distance := grid_km;
     GeoMetric.euclidean_distance := grid_km |}.

Definition uuid4 (k : nat) : string := ("uuid-" ++ str_of_nat k)%string.

Definition today : string := "2024-01-01".

Definition stop (id_ : string) (lat lon : Q) (passengers : Z) (accessible : bool)
  : BusStop.t :=
  {| BusStop.id := id_;
     BusStop.name := ("Stop " ++ id_)%string;
     BusStop.coordinates := {| Coordinates.latitude := lat; Coordinates.longitude := lon |};
     BusStop.address := "Main Road";
     BusStop.amenities := ["shelter"%string];
     BusStop.daily_passenger_count := passengers;
     BusStop.is_accessible := accessible |}.

(** An inactive three-stop line. *)
Definition line : Route.t :=
  {| Route.id := "route-1";
     Route.name := "Line 1";
     Route.description := "";
     Route.stops := [stop "a" 19.00 72.80 1000 true;
                     stop "b" 19.05 72.80 800 false;
                     stop "c" 19.02 72.80 1200 true];
     Route.operator_id := "operator-1";
     Route.is_active := false;
     Route.optimization_score := 60;
     Route.estimated_travel_time := 30 |}.

(** The same line with a perfect optimisation score. *)
Definition top_line : Route.t :=
  {| Route.id := "route-2";
     Route.name := "Line 2";
     Route.description := "";
     Route.stops := Route.stops line;
     Route.operator_id := "operator-1";
     Route.is_active := true;
     Route.optimization_score := 100;
     Route.estimated_travel_time := 30 |}.

(** Three stops on a line, 'c' between 'a' and 'b'. *)
Definition triangle : PathMatrix.t :=
  {| PathMatrix.stop_ids := ["a"; "b"; "c"]%string;
     PathMatrix.distance_matrix :=
       [[Float.fin 0; Float.fin 5; Float.fin 2];
        [Float.fin 5; Float.fin 0; Float.fin 3];
        [Float.fin 2; Float.fin 3; Float.fin 0]];
     PathMatrix.time_matrix := [[0; 14; 7]; [14; 0; 9]; [7; 9; 0]] |}.

(** Two connected stops and a third one no positive cell leads to. *)
Definition island : PathMatrix.t :=
  {| PathMatrix.stop_ids := ["a"; "b"; "c"]%string;
     PathMatrix.distance_matrix :=
       [[Float.fin 0; Float.fin 5; Float.fin 0];
        [Float.fin 5; Float.fin 0; Float.fin 0];
        [Float.fin 2; Float.fin 3; Float.fin 0]];
     PathMatrix.time_matrix := [[0; 14; 0]; [14; 0; 0]; [7; 9; 0]] |}.
(** A dataset with a single density point of 10,000 people, and a
    candidate stop some 56 km away from it. *)
Definition hamlet_point : DensityPoint.t :=
  {| DensityPoint.coordinates :=
       {| Coordinates.latitude := 19.5; Coordinates.longitude := 72.9 |};
     DensityPoint.population := 10000;
     DensityPoint.demographic_data :=
       {| DemographicData.age_groups := [("25-64"%string, 60); ("65+"%string, 40)];
          DemographicData.economic_indicators := [("income"%string, 40000)] |} |}.

Definition hamlet : PopulationDensityData.t :=
  {| PopulationDensityData.id := "data-1";
     PopulationDensityData.region := "Hamlet";
     PopulationDensityData.coordinates :=
       {| GeoBounds.north := 20; GeoBounds.south := 19;
          GeoBounds.east := 73; GeoBounds.west := 72 |};
     PopulationDensityData.density_points := [hamlet_point];
     PopulationDensityData.data_source := "census" |}.

Definition far_stop : Coordinates.t :=
  {| Coordinates.latitude := 19.0; Coordinates.longitude := 72.9 |}.
(** Optimisation results for ranking: two runs on the same original route
    that agree on the time improvement and differ in cost savings, and a
    run on another route. *)
Definition result_of (route_id : string) (time_improvement cost_savings : Q)
  : OptimizationResult.t :=
  {| OptimizationResult.id := "result";
     OptimizationResult.original_route_id := route_id;
     OptimizationResult.optimized_route := line;
     OptimizationResult.metrics :=
       {| OptimizationMetrics.time_improvement := time_improvement;
          OptimizationMetrics.distance_reduction := 5;
          OptimizationMetrics.passenger_coverage_increase := 0;
          OptimizationMetrics.cost_savings := cost_savings |};
     OptimizationResult.population_data := hamlet |}.

Definition first_run : OptimizationResult.t := result_of "route-1" 10 5.
Definition second_run : OptimizationResult.t := result_of "route-1" 10 6.
Definition other_run : OptimizationResult.t := result_of "route-2" 20 5.
End Samples.

(** The ranking order on results: a higher criterion score comes first
    and, on equal scores, the smaller original route id comes first.  Two
    results tie when they agree on both. *)
Definition ranks_before (criteria : RankingCriteria) (weights : option (dict Q))
           (a b : OptimizationResult.t) : Prop :=
  let score r := RouteRankingEngine._calculate_ranking_score r criteria weights in
  (score b < score a)%Q
  \/ ((score a == score b)%Q
      /\ String.leb (OptimizationResult.original_route_id a)
                    (OptimizationResult.original_route_id b) = true).

Definition ties (criteria : RankingCriteria) (weights : option (dict Q))
           (a b : OptimizationResult.t) : Prop :=
  let score r := RouteRankingEngine._calculate_ranking_score r criteria weights in
  (score a == score b)%Q
  /\ OptimizationResult.original_route_id a = OptimizationResult.original_route_id b.

(** The results that tie with [a], as a test. *)
Definition tiesb (criteria : RankingCriteria) (weights : option (dict Q))
           (a b : OptimizationResult.t) : bool :=
  let score r := RouteRankingEngine._calculate_ranking_score r criteria weights in
  Qeq_bool (score b) (score a)
  && String.eqb (OptimizationResult.original_route_id b)
                (OptimizationResult.original_route_id a).

(** A primary boolean order refined by a secondary one on ties, and the
    equivalence of an order. *)
Definition lex_order {A : Type} (before : A -> A -> bool) (secondary : A -> A -> Prop)
           (a b : A) : Prop :=
  before a b = true /\ (before b a = true -> secondary a b).

Definition both_ways {A : Type} (R : A -> A -> Prop) (a b : A) : Prop := R a b /\ R b a.

(** ** Notions used to state the properties of the shortest-path search *)

(** A list whose consecutive elements are related; a walk is a list of
    positions linked by edges. *)
Fixpoint linked {A : Type} (R : A -> A -> Prop) (l : list A) : Prop :=
  match l with
  | x :: ((y :: _) as rest) => R x y /\ linked R rest
  | _ => True
  end.

(** The sums the search forms stay within the range of a float: the
    finite cells are so small that as many of them as the matrix has stops
    add up to at most 2^1023. *)
Definition sums_stay_finite (matrix : PathMatrix.t) : Prop :=
  Forall (Forall (fun c => match c with
                           | Float.fin d =>
                               (d * Qlen (PathMatrix.stop_ids matrix)
                                <= inject_Z (2 ^ 1023))%Q
                           | Float.inf => True
                           end))
         (PathMatrix.distance_matrix matrix).

(** The three work lists have one entry per stop. *)
Definition wf_state (n : nat) (st : PathMatrixCalculator.dijkstra_state) : Prop :=
  length (PathMatrixCalculator.visited st) = n
  /\ length (PathMatrixCalculator.dist st) = n
  /\ length (PathMatrixCalculator.parent st) = n.

(** A parent link [parent[v] = u] records an edge from a visited [u]
    whose weight accounts for the distance of [v]. *)
Definition parent_links (matrix : PathMatrix.t) (st : PathMatrixCalculator.dijkstra_state)
  : Prop :=
  forall v u, nth v (PathMatrixCalculator.parent st) None = Some u ->
    nth u (PathMatrixCalculator.visited st) false = true
    /\ exists du d,
         nth u (PathMatrixCalculator.dist st) Float.inf = Float.fin du
         /\ getitem2 (PathMatrix.distance_matrix matrix) u v = Ok (Float.fin d)
         /\ (0 < d)%Q
         /\ nth v (PathMatrixCalculator.dist st) Float.inf = Float.fin (du + d).

(** The parent links form a tree rooted at the origin: the origin is at
    distance 0 and has no parent, every other stop at finite distance has
    one, and visited stops are at finite distance. *)
Definition search_tree (matrix : PathMatrix.t) (origin : nat)
           (st : PathMatrixCalculator.dijkstra_state) : Prop :=
  wf_state (length (PathMatrix.stop_ids matrix)) st
  /\ nth origin (PathMatrixCalculator.dist st) Float.inf = Float.fin 0
  /\ nth origin (PathMatrixCalculator.parent st) None = None
  /\ (forall v, nth v (PathMatrixCalculator.dist st) Float.inf <> Float.inf ->
                v = origin \/ nth origin (PathMatrixCalculator.visited st) false = true)
  /\ parent_links matrix st
  /\ (forall v, nth v (PathMatrixCalculator.dist st) Float.inf <> Float.inf -> v <> origin ->
                nth v (PathMatrixCalculator.parent st) None <> None)
  /\ (forall u, nth u (PathMatrixCalculator.visited st) false = true ->
                nth u (PathMatrixCalculator.dist st) Float.inf <> Float.inf).

(** [closer st v w]: stop [w] is strictly closer to the origin than [v];
    the rank of a stop counts the stops closer than it. *)
Definition closer (st : PathMatrixCalculator.dijkstra_state) (v w : nat) : bool :=
  Float.ltb (nth w (PathMatrixCalculator.dist st) Float.inf)
            (nth v (PathMatrixCalculator.dist st) Float.inf).

Definition rank (st : PathMatrixCalculator.dijkstra_state) (n v : nat) : nat :=
  length (filter (closer st v) (seq 0 n)).

(** Every edge out of a visited stop has been relaxed, and no visited stop
    is farther than an unvisited one. *)
Definition settled (matrix : PathMatrix.t) (st : PathMatrixCalculator.dijkstra_state) : Prop :=
  (forall x v d,
      nth x (PathMatrixCalculator.visited st) false = true ->
      getitem2 (PathMatrix.distance_matrix matrix) x v = Ok (Float.fin d) -> (0 < d)%Q ->
      Float.le (nth v (PathMatrixCalculator.dist st) Float.inf)
               (Float.add (nth x (PathMatrixCalculator.dist st) Float.inf) (Float.fin d)))
  /\ (forall x y,
         nth x (PathMatrixCalculator.visited st) false = true ->
         nth y (PathMatrixCalculator.visited st) false = false ->
         Float.le (nth x (PathMatrixCalculator.dist st) Float.inf)
                  (nth y (PathMatrixCalculator.dist st) Float.inf)).

Definition unvisited_count (n : nat) (st : PathMatrixCalculator.dijkstra_state) : nat :=
  length (filter (fun v => negb (nth v (PathMatrixCalculator.visited st) false)) (seq 0 n)).

(** ** More sample data *)
Module Cases.
Local Open Scope Q_scope.

(** Nine stops along a meridian, one hundredth of a degree apart, and
    their path matrix. *)
Definition avenue_stops : list BusStop.t :=
  map (fun k => Samples.stop (str_of_nat k) (19 + Qnat k / 100) 72.8 1000 true) (seq 0 9).

Definition avenue_ids : list string :=
  ["0"; "1"; "2"; "3"; "4"; "5"; "6"; "7"; "8"]%string.

Definition avenue : PathMatrix.t :=
  PathMatrixCalculator.calculate_path_matrix Samples.geo avenue_stops HAVERSINE.
End Cases.

(** A visiting order in which every stop is followed by a nearest one of
    the stops still to come. *)
Fixpoint nearest_first (matrix : PathMatrix.t) (current : nat) (tail : list nat) : Prop :=
  match tail with
  | [] => True
  | next :: rest =>
      (forall c, In c tail -> Float.le (cell matrix current next) (cell matrix current c))
      /\ nearest_first matrix next rest
  end.

(** The bottleneck records of one kind. *)
Definition is_high_demand (b : Bottleneck.t) : bool :=
  String.eqb (Bottleneck.type b) "high_demand_stop".

(** The triple [(lat, lon, population)] of a density point. *)
Definition point_of (p : DensityPoint.t) : PopulationAnalyzer.point :=
  (Coordinates.latitude (DensityPoint.coordinates p),
   Coordinates.longitude (DensityPoint.coordinates p),
   DensityPoint.population p).

(** ** Notions used to state the properties of the optimised route *)

(** A string of ASCII characters: its length in bytes is its length in
    characters. *)
Definition ascii_only (s : string) : bool :=
  forallb (fun c => Nat.ltb (nat_of_ascii c) 128) (list_ascii_of_string s).

(** The amenities every stop of an optimised route offers. *)
Definition standard_amenities : list string :=
  ["shelter"; "seating"; "lighting"; "wheelchair_accessible"; "tactile_paving"]%string.

(** A stop as [_improve_accessibility] rebuilds it: the same stop, made
    accessible, with the enhanced amenities. *)
Definition improved_stop (stop : BusStop.t) : BusStop.t :=
  {| BusStop.id := BusStop.id stop;
     BusStop.name := BusStop.name stop;
     BusStop.coordinates := BusStop.coordinates stop;
     BusStop.address := BusStop.address stop;
     BusStop.amenities := OptimizationEngine._enhance_amenities (BusStop.amenities stop);
     BusStop.daily_passenger_count := BusStop.daily_passenger_count stop;
     BusStop.is_accessible := true |}.

Module Routes.
(** A valid line whose name has 199 characters. *)
Definition long_name_line : Route.t :=
  {| Route.id := "route-3";
     Route.name := String.concat " " (repeat "Express"%string 25);
     Route.description := "";
     Route.stops := Route.stops Samples.line;
     Route.operator_id := "operator-1";
     Route.is_active := true;
     Route.optimization_score := 60;
     Route.estimated_travel_time := 30 |}.

(** The stops of the sample line in the order a, c, b: a shorter way
    through the same stops. *)
Definition direct_line : Route.t :=
  {| Route.id := "route-4";
     Route.name := "Line 4";
     Route.description := "";
     Route.stops := [Samples.stop "a" 19.00 72.80 1000 true;
                     Samples.stop "c" 19.02 72.80 1200 true;
                     Samples.stop "b" 19.05 72.80 800 false];
     Route.operator_id := "operator-1";
     Route.is_active := true;
     Route.optimization_score := 60;
     Route.estimated_travel_time := 30 |}.
End Routes.

(** * Properties *)

Unset Implicit Arguments.

(** ** The result monad *)

Lemma bind_Ok_inv {A B : Type} (c : result A) (k : A -> result B) (b : B) :
  bind c k = Ok b -> exists a, c = Ok a /\ k a = Ok b.
Proof.
  destruct c as [a | e]; simpl; intros H.
  - exists a; split; [reflexivity | exact H].
  - discriminate H.
Qed.

Lemma bind_Raise_inv {A B : Type} (c : result A) (k : A -> result B) (e : exn) :
  bind c k = Raise e -> c = Raise e \/ exists a, c = Ok a /\ k a = Raise e.
Proof.
  destruct c as [a | e']; simpl; intros H.
  - right; exists a; split; [reflexivity | exact H].
  - left; injection H as ->; reflexivity.
Qed.

Lemma mapM_Ok_length {A B : Type} (f : A -> result B) (l : list A) (r : list B) :
  mapM f l = Ok r -> length r = length l.
Proof.
  revert r; induction l as [| x xs IH]; simpl; intros r H.
  - injection H as <-; reflexivity.
  - apply bind_Ok_inv in H as [y [_ H]].
    apply bind_Ok_inv in H as [ys [Hys H]].
    injection H as <-; simpl; f_equal; apply IH; exact Hys.
Qed.

Lemma mapM_Ok_Forall2 {A B : Type} (f : A -> result B) (l : list A) (r : list B) :
  mapM f l = Ok r -> Forall2 (fun x y => f x = Ok y) l r.
Proof.
  revert r; induction l as [| x xs IH]; simpl; intros r H.
  - injection H as <-; constructor.
  - apply bind_Ok_inv in H as [y [Hy H]].
    apply bind_Ok_inv in H as [ys [Hys H]].
    injection H as <-; constructor; [exact Hy | apply IH; exact Hys].
Qed.

Lemma mapM_Raise_inv {A B : Type} (f : A -> result B) (l : list A) (e : exn) :
  mapM f l = Raise e -> exists x, In x l /\ f x = Raise e.
Proof.
  induction l as [| x xs IH]; simpl; intros H.
  - discriminate H.
  - apply bind_Raise_inv in H as [H | [y [_ H]]].
    + exists x; split; [left; reflexivity | exact H].
    + apply bind_Raise_inv in H as [H | [ys [_ H]]]; [| discriminate H].
      destruct (IH H) as [x' [Hin Hx']]; exists x'; split; [right; exact Hin | exact Hx'].
Qed.

Lemma mapM_all_Ok {A B : Type} (f : A -> result B) (g : A -> B) (l : list A) :
  (forall x, In x l -> f x = Ok (g x)) -> mapM f l = Ok (map g l).
Proof.
  induction l as [| x xs IH]; simpl; intros H; [reflexivity |].
  rewrite (H x (or_introl eq_refl)); simpl.
  rewrite IH by (intros y Hy; apply H; right; exact Hy); reflexivity.
Qed.

Lemma validate_Ok_inv {A : Type} (model : string) (checks : list (string * bool))
      (value r : A) :
  validate model checks value = Ok r -> r = value /\ failing checks = [].
Proof.
  unfold validate; destruct (failing checks); intros H.
  - injection H as <-; split; reflexivity.
  - discriminate H.
Qed.

Lemma validate_Raise_inv {A : Type} (model : string) (checks : list (string * bool))
      (value : A) (e : exn) :
  validate model checks value = Raise e -> e = ValidationError model (failing checks).
Proof.
  unfold validate; destruct (failing checks); intros H.
  - discriminate H.
  - injection H as <-; reflexivity.
Qed.

(** ** Comparisons on [Q] *)

Lemma Qlt_bool_true (x y : Q) : Qlt_bool x y = true <-> x < y.
Proof.
  unfold Qlt_bool; rewrite negb_true_iff; split; intros H.
  - apply Qnot_le_lt; intros Hle; apply Qle_bool_iff in Hle; congruence.
  - destruct (Qle_bool y x) eqn:E; [| reflexivity].
    apply Qle_bool_iff in E; exfalso; apply (Qlt_not_le _ _ H); exact E.
Qed.

Lemma Qlt_bool_false (x y : Q) : Qlt_bool x y = false <-> y <= x.
Proof.
  unfold Qlt_bool; rewrite negb_false_iff; apply Qle_bool_iff.
Qed.

Lemma Qle_bool_false (x y : Q) : Qle_bool x y = false <-> y < x.
Proof.
  rewrite <- Qlt_bool_true; unfold Qlt_bool; rewrite negb_true_iff; reflexivity.
Qed.

Lemma py_min_spec (a b : Q) :
  (b < a /\ py_min a b = b) \/ (a <= b /\ py_min a b = a).
Proof.
  unfold py_min; destruct (Qlt_bool b a) eqn:E.
  - left; split; [apply Qlt_bool_true; exact E | reflexivity].
  - right; split; [apply Qlt_bool_false; exact E | reflexivity].
Qed.

Lemma py_max_spec (a b : Q) :
  (a < b /\ py_max a b = b) \/ (b <= a /\ py_max a b = a).
Proof.
  unfold py_max; destruct (Qlt_bool a b) eqn:E.
  - left; split; [apply Qlt_bool_true; exact E | reflexivity].
  - right; split; [apply Qlt_bool_false; exact E | reflexivity].
Qed.



Lemma py_min_le_l (a b : Q) : py_min a b <= a.
Proof. destruct (py_min_spec a b) as [[H ->] | [H ->]]; lra. Qed.

Lemma py_min_le_r (a b : Q) : py_min a b <= b.
Proof. destruct (py_min_spec a b) as [[H ->] | [H ->]]; lra. Qed.

Lemma py_min_glb (a b c : Q) : c <= a -> c <= b -> c <= py_min a b.
Proof. intros; destruct (py_min_spec a b) as [[H' ->] | [H' ->]]; lra. Qed.

Lemma py_max_ge_l (a b : Q) : a <= py_max a b.
Proof. destruct (py_max_spec a b) as [[H ->] | [H ->]]; lra. Qed.


Lemma py_max_lub (a b c : Q) : a <= c -> b <= c -> py_max a b <= c.
Proof. intros; destruct (py_max_spec a b) as [[H' ->] | [H' ->]]; lra. Qed.

(** ** Lists *)

Lemma map_snd_enumerate_from {A : Type} (l : list A) (i : nat) :
  map snd (enumerate_from i l) = l.
Proof.
  revert i; induction l as [| x xs IH]; simpl; intros i; [reflexivity |].
  f_equal; apply IH.
Qed.

Lemma filter_all {A : Type} (f : A -> bool) (l : list A) :
  (forall x, In x l -> f x = true) -> filter f l = l.
Proof.
  induction l as [| x xs IH]; simpl; intros H; [reflexivity |].
  rewrite (H x (or_introl eq_refl)); f_equal; apply IH.
  intros y Hy; apply H; right; exact Hy.
Qed.

(** ** The bottleneck-removal step *)

Lemma stops_to_remove_of_nil (bottlenecks : list Bottleneck.t) :
  OptimizationEngine.stops_to_remove_of bottlenecks = [].
Proof.
  unfold OptimizationEngine.stops_to_remove_of.
  generalize (@nil nat) as acc.
  induction bottlenecks as [| b bs IH]; simpl; intros acc; [reflexivity |].
  match goal with
  | |- fold_left _ bs ?x = acc => replace x with acc; [apply IH |]
  end.
  destruct (String.eqb (Bottleneck.type b) "large_gap" && _); [reflexivity |].
  destruct (String.eqb (Bottleneck.type b) "high_demand_stop" && _); [reflexivity |].
  destruct (String.eqb (Bottleneck.type b) "accessibility_issue"); reflexivity.
Qed.

Lemma remove_bottleneck_stops_id (stops : list BusStop.t) (bottlenecks : list Bottleneck.t) :
  OptimizationEngine._remove_bottleneck_stops stops bottlenecks = stops.
Proof.
  unfold OptimizationEngine._remove_bottleneck_stops.
  destruct (Nat.leb (length stops) 3); [reflexivity |].
  rewrite stops_to_remove_of_nil; simpl.
  rewrite filter_all by (intros; reflexivity).
  apply map_snd_enumerate_from.
Qed.

(** C8.  For every stop list and every list of bottleneck records,
    [_remove_bottleneck_stops] returns its input stop list unchanged,
    element for element: no bottleneck category puts a stop on the
    removal list, so the step is the identity. *)
Theorem bottleneck_removal_is_identity :
  forall (stops : list BusStop.t) (bottlenecks : list Bottleneck.t),
    OptimizationEngine._remove_bottleneck_stops stops bottlenecks = stops
    /\ OptimizationEngine.stops_to_remove_of bottlenecks = [].
Proof.
  intros stops bottlenecks; split.
  - apply remove_bottleneck_stops_id.
  - apply stops_to_remove_of_nil.
Qed.

(** ** The route built by the orchestrator *)

Lemma Route_create_Ok_inv (id_ name_ description_ : string) (stops_ : list BusStop.t)
      (operator_id_ : string) (is_active_ : bool) (score_ : Q) (time_ : Z) (r : Route.t) :
  Route.create id_ name_ description_ stops_ operator_id_ is_active_ score_ time_ = Ok r ->
  Route.stops r = stops_ /\ Route.is_active r = is_active_
  /\ Route.optimization_score r = score_ /\ Route.estimated_travel_time r = time_
  /\ failing (Route.checks r) = [].
Proof.
  unfold Route.create; intros H.
  apply validate_Ok_inv in H as [-> H]; simpl.
  repeat split; exact H.
Qed.

Lemma generate_optimized_route_Ok (geo : GeoMetric.t) (uuid4 : nat -> string)
      (today : string) (route : Route.t) (analysis : RouteAnalysisResult.t)
      (population_analysis : option PopulationAnalysisResult.t) (matrix : PathMatrix.t)
      (r : Route.t) :
  OptimizationEngine._generate_optimized_route geo uuid4 today route analysis
    population_analysis matrix = Ok r ->
  Route.is_active r = true
  /\ Route.optimization_score r =
     OptimizationEngine._calculate_new_optimization_score
       (Route.optimization_score route) analysis
  /\ failing (Route.checks r) = [].
Proof.
  unfold OptimizationEngine._generate_optimized_route; intros H.
  apply bind_Ok_inv in H as [new_stops [_ H]].
  apply bind_Ok_inv in H as [stops' [_ H]].
  apply bind_Ok_inv in H as [time' [_ H]].
  apply Route_create_Ok_inv in H as [_ [Hactive [Hscore [_ Hchecks]]]].
  repeat split; assumption.
Qed.

Lemma optimize_route_Ok_inv (geo : GeoMetric.t)
      (efficiency_model : option (list Q -> result Q)) (uuid4 : nat -> string)
      (today : string) (route : Route.t) (population_data : option PopulationDensityData.t)
      (res : OptimizationResult.t) :
  OptimizationEngine.optimize_route geo efficiency_model uuid4 today route population_data
  = Ok res ->
  OptimizationEngine._generate_optimized_route geo uuid4 today route
    (RouteAnalyzer.analyze_route geo efficiency_model route population_data)
    (option_map (PopulationAnalyzer.analyze_population_data geo) population_data)
    (PathMatrixCalculator.calculate_path_matrix geo (Route.stops route) WEIGHTED)
  = Ok (OptimizationResult.optimized_route res)
  /\ OptimizationResult.original_route_id res = Route.id route.
Proof.
  unfold OptimizationEngine.optimize_route; intros H.
  apply bind_Ok_inv in H as [r [Hr H]].
  apply bind_Ok_inv in H as [metrics [_ H]].
  apply bind_Ok_inv in H as [data [_ H]].
  injection H as <-; simpl; split; [exact Hr | reflexivity].
Qed.

(** C10.  Whatever the [is_active] flag of the input route, every result
    [optimize_route] returns carries an optimised route whose [is_active]
    is [True]: the flag of the original is not carried over. *)
Theorem optimized_route_is_active :
  forall (geo : GeoMetric.t) (efficiency_model : option (list Q -> result Q))
         (uuid4 : nat -> string) (today : string) (route : Route.t)
         (population_data : option PopulationDensityData.t) (res : OptimizationResult.t),
    OptimizationEngine.optimize_route geo efficiency_model uuid4 today route population_data
    = Ok res ->
    Route.is_active (OptimizationResult.optimized_route res) = true.
Proof.
  intros geo efficiency_model uuid4 today route population_data res H.
  apply optimize_route_Ok_inv in H as [H _].
  apply generate_optimized_route_Ok in H as [H _]; exact H.
Qed.

(** ** The new optimisation score *)





(** ** [itertools.permutations] *)

Lemma selections_Permutation {A : Type} (l : list A) (x : A) (rest : list A) :
  In (x, rest) (selections l) -> Permutation (x :: rest) l.
Proof.
  revert x rest; induction l as [| a l' IH]; simpl; intros x rest H; [contradiction |].
  destruct H as [H | H].
  - injection H as <- <-; apply Permutation_refl.
  - apply in_map_iff in H as [[y ys] [E Hin]]; simpl in E; injection E as <- <-.
    apply perm_trans with (a :: y :: ys); [apply perm_swap |].
    apply perm_skip; apply IH; exact Hin.
Qed.

Lemma selections_complete {A : Type} (l : list A) (x : A) :
  In x l -> exists rest, In (x, rest) (selections l).
Proof.
  induction l as [| a l' IH]; simpl; intros H; [contradiction |].
  destruct H as [-> | H].
  - exists l'; left; reflexivity.
  - destruct (IH H) as [rest Hrest]; exists (a :: rest); right.
    apply in_map_iff; exists (x, rest); split; [reflexivity | exact Hrest].
Qed.

Lemma permutations_n_sound {A : Type} (n : nat) (l p : list A) :
  length l = n -> In p (permutations_n n l) -> Permutation p l.
Proof.
  revert l p; induction n as [| n IH]; simpl; intros l p Hlen H.
  - destruct l; [| discriminate Hlen].
    destruct H as [<- | []]; apply Permutation_refl.
  - apply in_flat_map in H as [[x rest] [Hsel H]]; simpl in H.
    apply in_map_iff in H as [q [<- Hq]].
    apply selections_Permutation in Hsel.
    apply perm_trans with (x :: rest); [| exact Hsel].
    apply perm_skip; apply IH; [| exact Hq].
    apply Permutation_length in Hsel; simpl in Hsel; lia.
Qed.

Lemma permutations_n_complete {A : Type} (n : nat) (l p : list A) :
  length l = n -> Permutation p l -> In p (permutations_n n l).
Proof.
  revert l p; induction n as [| n IH]; simpl; intros l p Hlen H.
  - destruct l; [| discriminate Hlen].
    apply Permutation_sym, Permutation_nil in H; left; symmetry; exact H.
  - destruct p as [| x q].
    + apply Permutation_length in H; simpl in H; lia.
    + assert (Hx : In x l) by (apply (Permutation_in x H); left; reflexivity).
      destruct (selections_complete l x Hx) as [rest Hsel].
      apply in_flat_map; exists (x, rest); split; [exact Hsel |]; simpl.
      apply in_map; apply IH.
      * apply selections_Permutation, Permutation_length in Hsel; simpl in Hsel; lia.
      * apply Permutation_cons_inv with x.
        apply perm_trans with l; [exact H |].
        apply Permutation_sym, selections_Permutation; exact Hsel.
Qed.

Lemma permutations_sound {A : Type} (l p : list A) :
  In p (permutations l) -> Permutation p l.
Proof. apply permutations_n_sound; reflexivity. Qed.

Lemma permutations_complete {A : Type} (l p : list A) :
  Permutation p l -> In p (permutations l).
Proof. apply permutations_n_complete; reflexivity. Qed.

(** ** The order on [Float.t] *)

Lemma Float_ltb_irrefl (a : Float.t) : Float.ltb a a = false.
Proof.
  destruct a as [x |]; simpl; [| reflexivity].
  apply Qlt_bool_false; lra.
Qed.

Lemma Float_lt_trans (a b c : Float.t) :
  Float.ltb a b = true -> Float.ltb b c = true -> Float.ltb a c = true.
Proof.
  destruct a as [x |], b as [y |], c as [z |]; simpl; try congruence.
  rewrite !Qlt_bool_true; lra.
Qed.

Lemma Float_lt_le_trans (a b c : Float.t) :
  Float.ltb a b = true -> Float.ltb c b = false -> Float.ltb a c = true.
Proof.
  destruct a as [x |], b as [y |], c as [z |]; simpl; try congruence.
  rewrite !Qlt_bool_true, Qlt_bool_false; lra.
Qed.

Lemma Float_lt_le (a b : Float.t) : Float.ltb a b = true -> Float.ltb b a = false.
Proof.
  destruct a as [x |], b as [y |]; simpl; try congruence.
  rewrite Qlt_bool_true, Qlt_bool_false; lra.
Qed.

Lemma Float_le_trans (a b c : Float.t) :
  Float.ltb b a = false -> Float.ltb c b = false -> Float.ltb c a = false.
Proof.
  destruct a as [x |], b as [y |], c as [z |]; simpl; try congruence.
  rewrite !Qlt_bool_false; lra.
Qed.

Lemma Float_le_inf_l (d : Float.t) : Float.ltb d Float.inf = false -> d = Float.inf.
Proof. destruct d; simpl; congruence. Qed.

(** ** Stop ids and their positions *)

Lemma mem_In (s : string) (l : list string) : mem s l = true <-> In s l.
Proof.
  unfold mem; rewrite existsb_exists; split.
  - intros [x [Hin E]]; apply String.eqb_eq in E; subst x; exact Hin.
  - intros Hin; exists s; split; [exact Hin | apply String.eqb_refl].
Qed.

Lemma index_Ok_inv (s : string) (l : list string) (i : nat) :
  index s l = Ok i -> nth_error l i = Some s /\ (i < length l)%nat.
Proof.
  revert i; induction l as [| y ys IH]; simpl; intros i H; [discriminate H |].
  destruct (String.eqb s y) eqn:E.
  - injection H as <-; apply String.eqb_eq in E; subst y; simpl; split; [reflexivity | lia].
  - apply bind_Ok_inv in H as [j [Hj H]]; injection H as <-.
    destruct (IH j Hj) as [Hnth Hlt]; simpl; split; [exact Hnth | lia].
Qed.

Lemma index_present (s : string) (l : list string) :
  In s l -> index s l = Ok (position l s).
Proof.
  unfold position; induction l as [| y ys IH]; simpl; intros H; [contradiction |].
  destruct (String.eqb s y) eqn:E; [reflexivity |].
  destruct H as [-> | H]; [rewrite String.eqb_refl in E; discriminate E |].
  specialize (IH H); destruct (index s ys); [reflexivity | discriminate IH].
Qed.

Lemma position_spec (s : string) (l : list string) :
  In s l -> id_at l (position l s) = s /\ (position l s < length l)%nat.
Proof.
  intros H; destruct (index_Ok_inv _ _ _ (index_present s l H)) as [Hnth Hlt].
  split; [| exact Hlt].
  unfold id_at; apply nth_error_nth; exact Hnth.
Qed.

Lemma getitem_in_range {A : Type} (l : list A) (i : nat) (d : A) :
  (i < length l)%nat -> getitem l i = Ok (nth i l d).
Proof.
  intros H; unfold getitem.
  destruct (nth_error l i) eqn:E.
  - rewrite (nth_error_nth _ _ d E); reflexivity.
  - apply nth_error_None in E; lia.
Qed.

Lemma indices_of_eq (matrix : PathMatrix.t) (ids : list string) :
  PathMatrixCalculator.indices_of matrix ids
  = Ok (map (position (PathMatrix.stop_ids matrix))
            (filter (fun s => mem s (PathMatrix.stop_ids matrix)) ids)).
Proof.
  unfold PathMatrixCalculator.indices_of; apply mapM_all_Ok.
  intros s Hs; apply filter_In in Hs as [_ Hs].
  apply index_present, mem_In; exact Hs.
Qed.

Lemma filter_length_lt {A : Type} (f : A -> bool) (l : list A) (x : A) :
  In x l -> f x = false -> (length (filter f l) < length l)%nat.
Proof.
  induction l as [| y ys IH]; simpl; intros Hin Hx; [contradiction |].
  destruct Hin as [-> | Hin].
  - rewrite Hx; pose proof (filter_length_le f ys); lia.
  - specialize (IH Hin Hx); destruct (f y); simpl; lia.
Qed.

Lemma filter_full_length {A : Type} (f : A -> bool) (l : list A) :
  length (filter f l) = length l -> filter f l = l.
Proof.
  induction l as [| x xs IH]; simpl; intros H; [reflexivity |].
  destruct (f x); simpl in H.
  - f_equal; apply IH; lia.
  - pose proof (filter_length_le f xs); lia.
Qed.

(** ** Reading a square matrix *)

Lemma getitem2_in_range (matrix : PathMatrix.t) (i j : nat) :
  square_matrix matrix ->
  (i < length (PathMatrix.stop_ids matrix))%nat ->
  (j < length (PathMatrix.stop_ids matrix))%nat ->
  getitem2 (PathMatrix.distance_matrix matrix) i j = Ok (cell matrix i j).
Proof.
  intros [Hrows Hcols] Hi Hj; unfold getitem2, cell.
  rewrite (getitem_in_range _ i []) by lia; simpl.
  apply getitem_in_range.
  rewrite Forall_forall in Hcols; rewrite Hcols; [exact Hj |].
  apply nth_In; lia.
Qed.

Lemma total_distance_from_in_range (matrix : PathMatrix.t) (order : list nat)
      (acc : Float.t) :
  square_matrix matrix ->
  Forall (fun i => (i < length (PathMatrix.stop_ids matrix))%nat) order ->
  PathMatrixCalculator.total_distance_from matrix order acc
  = Ok (path_sum matrix order acc).
Proof.
  intros Hsq; revert acc; induction order as [| i rest IH]; intros acc H; [reflexivity |].
  destruct rest as [| j rest']; [reflexivity |].
  inversion H as [| ? ? Hi Hrest]; subst.
  inversion Hrest as [| ? ? Hj _]; subst.
  cbn [PathMatrixCalculator.total_distance_from path_sum].
  rewrite (getitem2_in_range _ _ _ Hsq Hi Hj); simpl.
  apply IH; exact Hrest.
Qed.

(** ** The exhaustive search *)

Lemma tsp_loop_spec (matrix : PathMatrix.t) (first_stop : nat) (perms : list (list nat))
      (best_distance : Float.t) (best_order : list nat) :
  square_matrix matrix ->
  (forall p, In p perms ->
             Forall (fun i => (i < length (PathMatrix.stop_ids matrix))%nat)
                    (first_stop :: p)) ->
  exists order,
    PathMatrixCalculator.tsp_loop matrix first_stop perms best_distance best_order = Ok order
    /\ ((order = best_order
         /\ forall p, In p perms ->
              Float.ltb (path_sum matrix (first_stop :: p) (Float.fin 0)) best_distance = false)
        \/ (exists p, In p perms /\ order = first_stop :: p
              /\ Float.ltb (path_sum matrix order (Float.fin 0)) best_distance = true
              /\ forall p', In p' perms ->
                   Float.ltb (path_sum matrix (first_stop :: p') (Float.fin 0))
                             (path_sum matrix order (Float.fin 0)) = false)).
Proof.
  intros Hsq; revert best_distance best_order.
  induction perms as [| perm perms' IH]; intros bd bo Hrange.
  - exists bo; split; [reflexivity |]; left; split; [reflexivity |]; intros p [].
  - cbn [PathMatrixCalculator.tsp_loop]; unfold PathMatrixCalculator.total_distance.
    rewrite (total_distance_from_in_range _ _ _ Hsq (Hrange perm (or_introl eq_refl))).
    cbn [bind].
    set (d := path_sum matrix (first_stop :: perm) (Float.fin 0)).
    assert (Hrange' : forall p, In p perms' ->
              Forall (fun i => (i < length (PathMatrix.stop_ids matrix))%nat)
                     (first_stop :: p))
      by (intros p Hp; apply Hrange; right; exact Hp).
    destruct (Float.ltb d bd) eqn:Hd.
    + destruct (IH d (first_stop :: perm) Hrange') as [order [Hloop Hcases]].
      exists order; split; [exact Hloop |]; right.
      destruct Hcases as [[-> Hrest] | [p [Hp [-> [Hlt Hrest]]]]].
      * exists perm; split; [left; reflexivity |]; split; [reflexivity |].
        split; [exact Hd |].
        intros p' [<- | Hp']; [apply Float_ltb_irrefl | apply Hrest; exact Hp'].
      * exists p; split; [right; exact Hp |]; split; [reflexivity |].
        split; [apply Float_lt_trans with d; assumption |].
        intros p' [<- | Hp']; [apply Float_lt_le; exact Hlt | apply Hrest; exact Hp'].
    + destruct (IH bd bo Hrange') as [order [Hloop Hcases]].
      exists order; split; [exact Hloop |].
      destruct Hcases as [[-> Hrest] | [p [Hp [-> [Hlt Hrest]]]]].
      * left; split; [reflexivity |].
        intros p' [<- | Hp']; [exact Hd | apply Hrest; exact Hp'].
      * right; exists p; split; [right; exact Hp |]; split; [reflexivity |].
        split; [exact Hlt |].
        intros p' [<- | Hp']; [| apply Hrest; exact Hp'].
        apply Float_lt_le; apply Float_lt_le_trans with bd; assumption.
Qed.

Lemma tsp_loop_shape (matrix : PathMatrix.t) (first_stop : nat) (perms : list (list nat))
      (best_distance : Float.t) (best_order order : list nat) :
  PathMatrixCalculator.tsp_loop matrix first_stop perms best_distance best_order = Ok order ->
  order = best_order \/ exists p, In p perms /\ order = first_stop :: p.
Proof.
  revert best_distance best_order; induction perms as [| perm perms' IH];
    intros bd bo H; cbn [PathMatrixCalculator.tsp_loop] in H.
  - injection H as <-; left; reflexivity.
  - apply bind_Ok_inv in H as [d [_ H]].
    destruct (Float.ltb d bd); apply IH in H as [-> | [p [Hp ->]]].
    + right; exists perm; split; [left; reflexivity | reflexivity].
    + right; exists p; split; [right; exact Hp | reflexivity].
    + left; reflexivity.
    + right; exists p; split; [right; exact Hp | reflexivity].
Qed.

Lemma map_id_at_position (ids l : list string) :
  incl l ids -> map (id_at ids) (map (position ids) l) = l.
Proof.
  intros H; rewrite map_map; rewrite <- (map_id l) at 2.
  apply map_ext_in; intros s Hs; apply position_spec, H, Hs.
Qed.

Lemma Forall_position_in_range (ids l : list string) :
  incl l ids -> Forall (fun i => (i < length ids)%nat) (map (position ids) l).
Proof.
  intros H; apply Forall_forall; intros i Hi.
  apply in_map_iff in Hi as [s [<- Hs]]; apply position_spec, H, Hs.
Qed.

Lemma mapM_getitem_in_range (ids : list string) (order : list nat) :
  Forall (fun i => (i < length ids)%nat) order ->
  mapM (getitem ids) order = Ok (map (id_at ids) order).
Proof.
  intros H; apply mapM_all_Ok; intros i Hi.
  apply getitem_in_range; rewrite Forall_forall in H; apply H, Hi.
Qed.

Lemma mapM_index_id_at (ids l : list string) :
  incl l ids ->
  mapM (fun s => index s ids) (map (id_at ids) (map (position ids) l))
  = Ok (map (position ids) l).
Proof.
  intros H; rewrite (map_id_at_position ids l H).
  apply mapM_all_Ok; intros s Hs; apply index_present, H, Hs.
Qed.

Lemma all_present_filter (matrix : PathMatrix.t) (ids : list string) :
  incl ids (PathMatrix.stop_ids matrix) ->
  filter (fun s => mem s (PathMatrix.stop_ids matrix)) ids = ids.
Proof.
  intros H; apply filter_all; intros s Hs; apply mem_In, H, Hs.
Qed.

(** The exhaustive search either falls back to the input order (an id is
    missing) or returns the ids of a permutation of the positions. *)
Lemma brute_force_tsp_shape (matrix : PathMatrix.t) (ids r : list string) :
  PathMatrixCalculator._brute_force_tsp matrix ids = Ok r -> Permutation r ids.
Proof.
  unfold PathMatrixCalculator._brute_force_tsp.
  destruct ids as [| first rest]; [intros H; injection H as <-; constructor |].
  rewrite indices_of_eq; cbn [bind].
  set (ids := first :: rest) in *.
  set (present := filter _ ids).
  destruct (Nat.eqb (length (map (position (PathMatrix.stop_ids matrix)) present))
                    (length ids)) eqn:Hlen; cbn [negb];
    [| intros H; injection H as <-; apply Permutation_refl].
  assert (Hall : present = ids).
  { apply Nat.eqb_eq in Hlen; rewrite length_map in Hlen.
    apply filter_full_length; exact Hlen. }
  rewrite Hall; clear Hlen.
  assert (Hincl : incl ids (PathMatrix.stop_ids matrix)).
  { intros s Hs; apply mem_In.
    rewrite <- Hall in Hs; apply filter_In in Hs as [_ Hs]; exact Hs. }
  unfold ids at 1; cbn [map].
  intros H; apply bind_Ok_inv in H as [order [Hloop Hget]].
  assert (Hperm : Permutation order (map (position (PathMatrix.stop_ids matrix)) ids)).
  { apply tsp_loop_shape in Hloop as [-> | [p [Hp ->]]]; [apply Permutation_refl |].
    unfold ids; cbn [map]; apply perm_skip, permutations_sound, Hp. }
  rewrite mapM_getitem_in_range in Hget.
  - injection Hget as <-.
    apply perm_trans
      with (map (id_at (PathMatrix.stop_ids matrix))
                (map (position (PathMatrix.stop_ids matrix)) ids)).
    + apply Permutation_map, Hperm.
    + rewrite (map_id_at_position _ ids Hincl); apply Permutation_refl.
  - apply Forall_forall; intros i Hi.
    apply (Permutation_in _ Hperm) in Hi.
    pose proof (Forall_position_in_range _ ids Hincl) as Hr.
    rewrite Forall_forall in Hr; apply Hr, Hi.
Qed.

(** When an id is missing, both searches return the input order. *)
Lemma indices_of_missing (matrix : PathMatrix.t) (ids : list string) (s : string) :
  In s ids -> ~ In s (PathMatrix.stop_ids matrix) ->
  exists indices,
    PathMatrixCalculator.indices_of matrix ids = Ok indices
    /\ Nat.eqb (length indices) (length ids) = false.
Proof.
  intros Hs Hmiss; rewrite indices_of_eq; eexists; split; [reflexivity |].
  apply Nat.eqb_neq; rewrite length_map.
  assert (Hm : mem s (PathMatrix.stop_ids matrix) = false).
  { destruct (mem s (PathMatrix.stop_ids matrix)) eqn:E; [| reflexivity].
    apply mem_In in E; contradiction. }
  pose proof (filter_length_lt (fun x => mem x (PathMatrix.stop_ids matrix)) ids s Hs Hm).
  lia.
Qed.

Lemma find_optimal_route_order_missing (matrix : PathMatrix.t) (ids : list string)
      (s : string) :
  In s ids -> ~ In s (PathMatrix.stop_ids matrix) ->
  PathMatrixCalculator.find_optimal_route_order matrix ids = ids.
Proof.
  intros Hs Hmiss; unfold PathMatrixCalculator.find_optimal_route_order.
  destruct (Nat.leb (length ids) 2); [reflexivity |].
  destruct (indices_of_missing matrix ids s Hs Hmiss) as [indices [Hind Hlen]].
  destruct ids as [| a l]; [contradiction |].
  destruct (Nat.leb (length (a :: l)) 8).
  - unfold PathMatrixCalculator._brute_force_tsp; rewrite Hind; cbn [bind].
    rewrite Hlen; reflexivity.
  - unfold PathMatrixCalculator._nearest_neighbor_tsp; rewrite Hind; cbn [bind].
    rewrite Hlen; reflexivity.
Qed.

(** ** The nearest-neighbour heuristic *)

Lemma set_add_incl (x : nat) (s : list nat) : incl (PathMatrixCalculator.set_add x s) (x :: s).
Proof.
  induction s as [| y ys IH]; simpl; [apply incl_refl |].
  destruct (Nat.ltb x y); [apply incl_refl |].
  destruct (Nat.eqb x y); [apply incl_tl, incl_refl |].
  intros z [<- | Hz]; [right; left; reflexivity |].
  destruct (IH z Hz) as [<- | Hin]; [left; reflexivity | right; right; exact Hin].
Qed.

Lemma set_add_nonempty (x : nat) (s : list nat) : PathMatrixCalculator.set_add x s <> [].
Proof.
  destruct s as [| y ys]; simpl; [discriminate |].
  destruct (Nat.ltb x y); [discriminate |].
  destruct (Nat.eqb x y); discriminate.
Qed.

Lemma set_of_list_incl (l : list nat) : incl (PathMatrixCalculator.set_of_list l) l.
Proof.
  unfold PathMatrixCalculator.set_of_list.
  assert (H : forall s, incl (fold_left (fun s x => PathMatrixCalculator.set_add x s) l s)
                             (s ++ l)).
  { induction l as [| x xs IH]; intros s; simpl.
    - rewrite app_nil_r; apply incl_refl.
    - intros z Hz; apply IH in Hz; apply in_app_or in Hz as [Hz | Hz].
      + apply set_add_incl in Hz as [<- | Hz];
          [apply in_or_app; right; left; reflexivity | apply in_or_app; left; exact Hz].
      + apply in_or_app; right; right; exact Hz. }
  exact (H []).
Qed.

Lemma set_of_list_nonempty (x : nat) (l : list nat) :
  PathMatrixCalculator.set_of_list (x :: l) <> [].
Proof.
  unfold PathMatrixCalculator.set_of_list; simpl.
  assert (H : forall s, s <> [] ->
                        fold_left (fun s x => PathMatrixCalculator.set_add x s) l s <> []).
  { induction l as [| y ys IH]; intros s Hs; simpl; [exact Hs |].
    apply IH, set_add_nonempty. }
  apply H; discriminate.
Qed.

Lemma set_remove_incl (x : nat) (s : list nat) : incl (PathMatrixCalculator.set_remove x s) s.
Proof.
  induction s as [| y ys IH]; simpl; [apply incl_refl |].
  destruct (Nat.eqb x y); [apply incl_tl, incl_refl |].
  intros z [<- | Hz]; [left; reflexivity | right; apply IH, Hz].
Qed.

Lemma nearest_of_In (matrix : PathMatrix.t) (current : nat) (candidates : list nat)
      (best : nat) (best_d : Float.t) (nearest : nat) :
  PathMatrixCalculator.nearest_of matrix current candidates best best_d = Ok nearest ->
  In nearest (best :: candidates).
Proof.
  revert best best_d; induction candidates as [| x xs IH]; intros best best_d H;
    cbn [PathMatrixCalculator.nearest_of] in H.
  - injection H as <-; left; reflexivity.
  - apply bind_Ok_inv in H as [d [_ H]].
    destruct (Float.ltb d best_d); apply IH in H as [<- | H].
    + right; left; reflexivity.
    + right; right; exact H.
    + left; reflexivity.
    + right; right; exact H.
Qed.

Lemma nn_loop_shape (matrix : PathMatrix.t) (rounds current : nat)
      (unvisited route route' : list nat) :
  PathMatrixCalculator.nn_loop matrix rounds current unvisited route = Ok route' ->
  incl route' (route ++ unvisited)
  /\ (length route <= length route')%nat
  /\ (rounds <> O -> unvisited <> [] -> (length route < length route')%nat).
Proof.
  revert current unvisited route; induction rounds as [| rounds IH];
    intros current unvisited route H.
  - destruct unvisited; simpl in H; injection H as <-;
      (split; [apply incl_appl, incl_refl | split; [lia | intros Hr; contradiction]]).
  - destruct unvisited as [| x xs].
    + simpl in H; injection H as <-.
      split; [apply incl_appl, incl_refl | split; [lia | intros _ Hu; contradiction]].
    + cbn [PathMatrixCalculator.nn_loop] in H.
      apply bind_Ok_inv in H as [d [_ H]].
      apply bind_Ok_inv in H as [nearest [Hnear H]].
      apply nearest_of_In in Hnear.
      apply IH in H as [Hincl [Hlen _]].
      rewrite length_app in Hlen; simpl in Hlen.
      split; [| split; [lia | intros _ _; lia]].
      intros z Hz; apply Hincl in Hz.
      apply in_app_or in Hz as [Hz | Hz].
      * apply in_app_or in Hz as [Hz | [<- | []]];
          apply in_or_app; [left; exact Hz | right; exact Hnear].
      * apply in_or_app; right; apply (set_remove_incl nearest); exact Hz.
Qed.

Lemma set_remove_length (x : nat) (s : list nat) :
  In x s -> S (length (PathMatrixCalculator.set_remove x s)) = length s.
Proof.
  induction s as [| y ys IH]; simpl; intros H; [contradiction |].
  destruct (Nat.eqb x y) eqn:E; [reflexivity |].
  destruct H as [<- | H]; [rewrite Nat.eqb_refl in E; discriminate E |].
  simpl; rewrite (IH H); reflexivity.
Qed.

(** The rounds given to [nn_loop] are the rounds of the [while] loop: a run
    that does not raise visits every unvisited stop. *)
Lemma nn_loop_visits_all (matrix : PathMatrix.t) (current : nat)
      (unvisited route route' : list nat) :
  PathMatrixCalculator.nn_loop matrix (length unvisited) current unvisited route = Ok route' ->
  length route' = (length route + length unvisited)%nat.
Proof.
  remember (length unvisited) as rounds eqn:Hrounds.
  revert current unvisited route Hrounds; induction rounds as [| rounds IH];
    intros current unvisited route Hrounds H.
  - destruct unvisited; [| discriminate Hrounds].
    simpl in H; injection H as <-; lia.
  - destruct unvisited as [| x xs]; [discriminate Hrounds |].
    cbn [PathMatrixCalculator.nn_loop] in H.
    apply bind_Ok_inv in H as [d [_ H]].
    apply bind_Ok_inv in H as [nearest [Hnear H]].
    apply nearest_of_In in Hnear.
    pose proof (set_remove_length nearest (x :: xs) Hnear) as Hlen.
    apply IH in H; [| rewrite <- Hrounds in Hlen; lia].
    rewrite H, length_app; simpl; lia.
Qed.

Lemma mapM_getitem_Ok_inv (ids : list string) (order : list nat) (r : list string) :
  mapM (getitem ids) order = Ok r -> r = map (id_at ids) order.
Proof.
  revert r; induction order as [| i rest IH]; simpl; intros r H.
  - injection H as <-; reflexivity.
  - apply bind_Ok_inv in H as [s [Hs H]].
    apply bind_Ok_inv in H as [ss [Hss H]].
    injection H as <-; f_equal; [| apply IH; exact Hss].
    unfold getitem in Hs; destruct (nth_error ids i) eqn:E; [| discriminate Hs].
    injection Hs as <-; unfold id_at; symmetry; apply nth_error_nth; exact E.
Qed.

Lemma nearest_neighbor_tsp_shape (matrix : PathMatrix.t) (ids r : list string) :
  PathMatrixCalculator._nearest_neighbor_tsp matrix ids = Ok r ->
  incl r ids /\ ((2 <= length ids)%nat -> (2 <= length r)%nat).
Proof.
  unfold PathMatrixCalculator._nearest_neighbor_tsp.
  destruct ids as [| first rest];
    [intros H; injection H as <-; split; [apply incl_refl | intros H; exact H] |].
  rewrite indices_of_eq; cbn [bind].
  set (ids := first :: rest) in *.
  set (present := filter _ ids).
  destruct (Nat.eqb (length (map (position (PathMatrix.stop_ids matrix)) present))
                    (length ids)) eqn:Hlen; cbn [negb];
    [| intros H; injection H as <-; split; [apply incl_refl | intros H; exact H]].
  assert (Hall : present = ids).
  { apply Nat.eqb_eq in Hlen; rewrite length_map in Hlen.
    apply filter_full_length; exact Hlen. }
  rewrite Hall; clear Hlen.
  assert (Hincl : incl ids (PathMatrix.stop_ids matrix)).
  { intros s Hs; apply mem_In.
    rewrite <- Hall in Hs; apply filter_In in Hs as [_ Hs]; exact Hs. }
  unfold ids at 1; cbn [map].
  intros H; apply bind_Ok_inv in H as [route [Hloop Hget]].
  apply mapM_getitem_Ok_inv in Hget; subst r.
  apply nn_loop_shape in Hloop as [Hin [_ Hlen]].
  split.
  - intros s Hs; apply in_map_iff in Hs as [i [<- Hi]].
    apply Hin in Hi; simpl in Hi.
    assert (Hi' : In i (map (position (PathMatrix.stop_ids matrix)) ids)).
    { destruct Hi as [<- | Hi]; [left; reflexivity |].
      right; apply set_of_list_incl; exact Hi. }
    apply in_map_iff in Hi' as [s [<- Hs]].
    destruct (position_spec s _ (Hincl s Hs)) as [-> _]; exact Hs.
  - intros Hge; rewrite length_map.
    destruct rest as [| second rest']; [simpl in Hge; lia |].
    cbn [map] in Hlen.
    assert (Hne := set_of_list_nonempty
                     (position (PathMatrix.stop_ids matrix) second)
                     (map (position (PathMatrix.stop_ids matrix)) rest')).
    simpl in Hlen |- *.
    assert (length (PathMatrixCalculator.set_of_list
                      (position (PathMatrix.stop_ids matrix) second
                       :: map (position (PathMatrix.stop_ids matrix)) rest')) <> O).
    { destruct (PathMatrixCalculator.set_of_list _); [contradiction | discriminate]. }
    specialize (Hlen H Hne); lia.
Qed.

(** The returned order only holds requested ids, and holds at least two of
    them as soon as two were requested. *)
Lemma find_optimal_route_order_shape (matrix : PathMatrix.t) (ids : list string) :
  incl (PathMatrixCalculator.find_optimal_route_order matrix ids) ids
  /\ ((2 <= length ids)%nat ->
      (2 <= length (PathMatrixCalculator.find_optimal_route_order matrix ids))%nat).
Proof.
  unfold PathMatrixCalculator.find_optimal_route_order.
  destruct (Nat.leb (length ids) 2); [split; [apply incl_refl | intros H; exact H] |].
  destruct (Nat.leb (length ids) 8).
  - destruct (PathMatrixCalculator._brute_force_tsp matrix ids) as [r |] eqn:E;
      [| split; [apply incl_refl | intros H; exact H]].
    apply (brute_force_tsp_shape matrix) in E.
    split; [intros s Hs; apply (Permutation_in _ E), Hs |].
    rewrite (Permutation_length E); intros H; exact H.
  - destruct (PathMatrixCalculator._nearest_neighbor_tsp matrix ids) as [r |] eqn:E;
      [| split; [apply incl_refl | intros H; exact H]].
    apply (nearest_neighbor_tsp_shape matrix); exact E.
Qed.
Lemma brute_force_tsp_exact (matrix : PathMatrix.t) (first : string) (rest : list string) :
  let ids := PathMatrix.stop_ids matrix in
  square_matrix matrix ->
  incl (first :: rest) ids ->
  exists p,
    Permutation p (map (position ids) rest)
    /\ PathMatrixCalculator._brute_force_tsp matrix (first :: rest)
       = Ok (map (id_at ids) (position ids first :: p))
    /\ forall q, Permutation q (map (position ids) rest) ->
         Float.ltb (path_sum matrix (position ids first :: q) (Float.fin 0))
                   (path_sum matrix (position ids first :: p) (Float.fin 0)) = false.
Proof.
  intros ids Hsq Hincl.
  unfold PathMatrixCalculator._brute_force_tsp.
  rewrite indices_of_eq, (all_present_filter matrix _ Hincl); cbn [bind].
  rewrite length_map, Nat.eqb_refl; cbn [negb map].
  fold ids.
  assert (Hrange : forall p, In p (permutations (map (position ids) rest)) ->
            Forall (fun i => (i < length ids)%nat) (position ids first :: p)).
  { intros p Hp; apply permutations_sound in Hp.
    pose proof (Forall_position_in_range ids (first :: rest) Hincl) as Hr.
    cbn [map] in Hr; inversion Hr as [| ? ? Hfirst Hrest]; subst.
    constructor; [exact Hfirst |].
    rewrite Forall_forall in Hrest |- *; intros i Hi.
    apply Hrest, (Permutation_in _ Hp), Hi. }
  destruct (tsp_loop_spec matrix (position ids first)
              (permutations (map (position ids) rest)) Float.inf
              (position ids first :: map (position ids) rest) Hsq Hrange)
    as [order [Hloop Hcases]].
  rewrite Hloop; cbn [bind].
  destruct Hcases as [[-> Hall] | [p [Hp [-> [_ Hbest]]]]].
  - exists (map (position ids) rest); split; [apply Permutation_refl |].
    split.
    + apply mapM_getitem_in_range, Hrange, permutations_complete, Permutation_refl.
    + intros q Hq.
      rewrite (Float_le_inf_l _ (Hall q (permutations_complete _ _ Hq))).
      reflexivity.
  - exists p; split; [apply permutations_sound, Hp |].
    split.
    + apply mapM_getitem_in_range, Hrange, Hp.
    + intros q Hq; apply Hbest, permutations_complete, Hq.
Qed.

Lemma order_distance_of_positions (matrix : PathMatrix.t) (l : list string) :
  square_matrix matrix ->
  incl l (PathMatrix.stop_ids matrix) ->
  order_distance matrix l
  = Ok (path_sum matrix (map (position (PathMatrix.stop_ids matrix)) l) (Float.fin 0)).
Proof.
  intros Hsq Hincl; unfold order_distance.
  rewrite (mapM_all_Ok _ (position (PathMatrix.stop_ids matrix)))
    by (intros s Hs; apply index_present, Hincl, Hs).
  cbn [bind]; unfold PathMatrixCalculator.total_distance.
  apply total_distance_from_in_range; [exact Hsq |].
  apply Forall_position_in_range, Hincl.
Qed.

(** C1.  For a square path matrix and a list of 3 to 8 stop ids that are
    all in the matrix, [find_optimal_route_order] returns a reordering of
    the list that starts with the first input stop, and the sum of the
    consecutive distance-matrix entries along it is less than or equal to
    that sum along every permutation of the remaining stops put after the
    first stop.  The sums are [path_sum], read off the cells of the
    distance matrix, not the search's own total. *)
Theorem find_optimal_route_order_exact :
  forall (matrix : PathMatrix.t) (first : string) (rest : list string),
    square_matrix matrix ->
    (3 <= length (first :: rest) <= 8)%nat ->
    (forall s, In s (first :: rest) -> In s (PathMatrix.stop_ids matrix)) ->
    let ids := PathMatrix.stop_ids matrix in
    let order := PathMatrixCalculator.find_optimal_route_order matrix (first :: rest) in
    let route_length (l : list string) :=
      path_sum matrix (map (position ids) l) (Float.fin 0) in
    hd_error order = Some first
    /\ Permutation order (first :: rest)
    /\ forall q, Permutation q rest ->
         Float.le (route_length order) (route_length (first :: q)).
Proof.
  intros matrix first rest Hsq [Hlo Hhi] Hin ids order route_length.
  assert (Hincl : incl (first :: rest) ids) by exact Hin.
  destruct (brute_force_tsp_exact matrix first rest Hsq Hincl) as [p [Hp [Hbf Hbest]]].
  fold ids in Hp, Hbf, Hbest.
  assert (Horder : order = map (id_at ids) (position ids first :: p)).
  { unfold order, PathMatrixCalculator.find_optimal_route_order.
    replace (Nat.leb (length (first :: rest)) 2) with false
      by (symmetry; apply Nat.leb_gt; lia).
    replace (Nat.leb (length (first :: rest)) 8) with true
      by (symmetry; apply Nat.leb_le; lia).
    rewrite Hbf; reflexivity. }
  assert (Hfirst : id_at ids (position ids first) = first)
    by (apply position_spec, Hincl; left; reflexivity).
  assert (Hrest : incl rest ids) by (intros s Hs; apply Hincl; right; exact Hs).
  assert (Hback : exists l, Permutation l rest /\ p = map (position ids) l).
  { apply Permutation_map_inv in Hp as [l [-> Hl]].
    exists l; split; [apply Permutation_sym, Hl | reflexivity]. }
  destruct Hback as [l [Hl ->]].
  assert (Hlincl : incl l ids)
    by (intros s Hs; apply Hrest, (Permutation_in _ Hl), Hs).
  assert (Horder' : order = first :: l).
  { rewrite Horder; cbn [map]; rewrite Hfirst, (map_id_at_position ids l Hlincl).
    reflexivity. }
  rewrite Horder'; split; [reflexivity |].
  split; [apply perm_skip, Hl |].
  intros q Hq; unfold route_length, Float.le; cbn [map].
  apply Hbest, Permutation_map, Hq.
Qed.

(** ** Dijkstra's search *)

Lemma nth_setitem_cases {A : Type} (l : list A) (u v : nat) (x d : A) :
  nth u (setitem l v x) d = nth u l d \/ (u = v /\ nth u (setitem l v x) d = x).
Proof.
  revert u v; induction l as [| a l IH]; intros u v; [left; destruct v; reflexivity |].
  destruct v as [| v]; destruct u as [| u]; simpl.
  - right; split; reflexivity.
  - left; reflexivity.
  - left; reflexivity.
  - destruct (IH u v) as [H | [-> H]]; [left; exact H | right; split; [reflexivity | exact H]].
Qed.

Lemma relax_reachable (matrix : PathMatrix.t) (origin min_idx : nat) (vs : list nat)
      (st st' : PathMatrixCalculator.dijkstra_state) :
  finite_is_reachable matrix origin st ->
  PathMatrixCalculator.relax (PathMatrix.distance_matrix matrix) min_idx vs st = Ok st' ->
  finite_is_reachable matrix origin st'.
Proof.
  revert st; induction vs as [| v vs IH]; intros st Hinv H;
    cbn [PathMatrixCalculator.relax] in H.
  - injection H as <-; exact Hinv.
  - destruct (nth v (PathMatrixCalculator.visited st) false); [apply (IH st Hinv H) |].
    apply bind_Ok_inv in H as [d [Hd H]].
    destruct (Float.ltb (Float.fin 0) d
              && Float.ltb (Float.add (nth min_idx (PathMatrixCalculator.dist st) Float.inf) d)
                           (nth v (PathMatrixCalculator.dist st) Float.inf)) eqn:E;
      [| apply (IH st Hinv H)].
    apply andb_prop in E as [Hpos Hless].
    refine (IH _ _ H); intros u Hu; cbn [PathMatrixCalculator.dist] in Hu.
    destruct (nth_setitem_cases (PathMatrixCalculator.dist st) u v
                (Float.add (nth min_idx (PathMatrixCalculator.dist st) Float.inf) d)
                Float.inf) as [Hsame | [-> Hnew]].
    + apply Hinv; rewrite <- Hsame; exact Hu.
    + destruct (nth min_idx (PathMatrixCalculator.dist st) Float.inf) as [dm |] eqn:Hmin;
        [| discriminate Hless].
      destruct d as [q |]; [| discriminate Hless].
      apply reachable_step with min_idx.
      * apply Hinv; rewrite Hmin; discriminate.
      * exists q; split; [exact Hd |].
        simpl in Hpos; apply Qlt_bool_true in Hpos; exact Hpos.
Qed.

Lemma dijkstra_loop_reachable (matrix : PathMatrix.t) (origin n_stops rounds : nat)
      (st st' : PathMatrixCalculator.dijkstra_state) :
  finite_is_reachable matrix origin st ->
  PathMatrixCalculator.dijkstra_loop (PathMatrix.distance_matrix matrix) n_stops rounds st
  = Ok st' ->
  finite_is_reachable matrix origin st'.
Proof.
  revert st; induction rounds as [| rounds IH]; intros st Hinv H;
    cbn [PathMatrixCalculator.dijkstra_loop] in H.
  - injection H as <-; exact Hinv.
  - destruct (PathMatrixCalculator.find_min st (seq 0 n_stops) Float.inf None) as [min_idx |].
    + apply bind_Ok_inv in H as [st1 [Hrelax H]].
      apply (IH st1); [| exact H].
      eapply relax_reachable; [| exact Hrelax].
      exact Hinv.
    + injection H as <-; exact Hinv.
Qed.

Lemma nth_repeat_default {A : Type} (x : A) (n v : nat) : nth v (repeat x n) x = x.
Proof.
  revert v; induction n as [| n IH]; intros [| v]; simpl; try reflexivity; apply IH.
Qed.

Lemma dijkstra_reachable (matrix : PathMatrix.t) (origin : nat)
      (st : PathMatrixCalculator.dijkstra_state) :
  PathMatrixCalculator.dijkstra matrix origin = Ok st ->
  finite_is_reachable matrix origin st.
Proof.
  unfold PathMatrixCalculator.dijkstra; intros H.
  apply (dijkstra_loop_reachable matrix origin) in H; [exact H |].
  intros v Hv; cbn [PathMatrixCalculator.dist] in Hv.
  destruct (nth_setitem_cases (repeat Float.inf (length (PathMatrix.stop_ids matrix)))
              v origin (Float.fin 0) Float.inf) as [Hsame | [-> _]].
  - rewrite Hsame, nth_repeat_default in Hv; contradiction.
  - apply reachable_origin.
Qed.

Lemma find_shortest_path_inv (fuel : nat) (matrix : PathMatrix.t) (origin dest : string) :
  let ids := PathMatrix.stop_ids matrix in
  In origin ids -> In dest ids ->
  (forall st, PathMatrixCalculator.dijkstra matrix (position ids origin) = Ok st ->
              nth (position ids dest) (PathMatrixCalculator.dist st) Float.inf = Float.inf) ->
  PathMatrixCalculator.find_shortest_path fuel matrix origin dest = Returns None.
Proof.
  intros ids Ho Hd Hinf; unfold PathMatrixCalculator.find_shortest_path; fold ids.
  rewrite (proj2 (mem_In origin ids) Ho), (proj2 (mem_In dest ids) Hd); cbn [negb orb].
  rewrite (index_present origin ids Ho), (index_present dest ids Hd); cbn [bind].
  destruct (PathMatrixCalculator.dijkstra matrix (position ids origin)) as [st |] eqn:E;
    cbn [bind]; [| reflexivity].
  rewrite (Hinf st eq_refl); reflexivity.
Qed.

(** C7.  Lookup misses are answered by the documented fallbacks and never
    by an exception: when a requested stop id is not in the matrix,
    [find_optimal_route_order] returns the input order unchanged; when the
    origin or the destination is not in the matrix, when the distance of
    the destination is still infinite after the search, and in particular
    when the destination cannot be reached from the origin along positive
    finite cells, [find_shortest_path] returns [None]. *)
Theorem lookup_miss_fallbacks :
  forall (matrix : PathMatrix.t) (requested : list string) (origin dest : string)
         (fuel : nat),
    let ids := PathMatrix.stop_ids matrix in
    ((exists s, In s requested /\ ~ In s ids) ->
     PathMatrixCalculator.find_optimal_route_order matrix requested = requested)
    /\ (~ In origin ids \/ ~ In dest ids ->
        PathMatrixCalculator.find_shortest_path fuel matrix origin dest = Returns None)
    /\ (In origin ids -> In dest ids ->
        (forall st, PathMatrixCalculator.dijkstra matrix (position ids origin) = Ok st ->
                    nth (position ids dest) (PathMatrixCalculator.dist st) Float.inf
                    = Float.inf) ->
        PathMatrixCalculator.find_shortest_path fuel matrix origin dest = Returns None)
    /\ (In origin ids -> In dest ids ->
        ~ reachable matrix (position ids origin) (position ids dest) ->
        PathMatrixCalculator.find_shortest_path fuel matrix origin dest = Returns None).
Proof.
  intros matrix requested origin dest fuel ids.
  split; [| split; [| split]].
  - intros [s [Hs Hmiss]]; apply (find_optimal_route_order_missing matrix requested s Hs Hmiss).
  - intros Hmiss; unfold PathMatrixCalculator.find_shortest_path; fold ids.
    destruct (mem origin ids) eqn:Eo; [| reflexivity].
    destruct (mem dest ids) eqn:Ed; [| reflexivity].
    apply mem_In in Eo, Ed; tauto.
  - apply find_shortest_path_inv.
  - intros Ho Hd Hunreach; apply find_shortest_path_inv; [exact Ho | exact Hd |].
    intros st Hst; apply dijkstra_reachable in Hst.
    subst ids.
    destruct (nth (position (PathMatrix.stop_ids matrix) dest)
                  (PathMatrixCalculator.dist st) Float.inf) eqn:E;
      [| reflexivity].
    exfalso; apply Hunreach, Hst; rewrite E; discriminate.
Qed.

(** ** The properties on sample data *)

Lemma find_optimal_route_order_exact_witness :
  let order :=
    PathMatrixCalculator.find_optimal_route_order Samples.triangle ["a"; "b"; "c"]%string in
  let route_length (l : list string) :=
    path_sum Samples.triangle (map (position (PathMatrix.stop_ids Samples.triangle)) l)
             (Float.fin 0) in
  hd_error order = Some "a"%string
  /\ Permutation order ["a"; "b"; "c"]%string
  /\ forall q, Permutation q ["b"; "c"]%string ->
       Float.le (route_length order) (route_length ("a"%string :: q)).
Proof.
  apply (find_optimal_route_order_exact Samples.triangle "a" ["b"; "c"]%string).
  - split; [reflexivity | repeat constructor].
  - simpl; lia.
  - intros s Hs; exact Hs.
Defined.

Lemma island_unreachable : ~ reachable Samples.island 0 2.
Proof.
  assert (H : forall v, reachable Samples.island 0 v -> v = 0%nat \/ v = 1%nat).
  { intros v Hv; induction Hv as [| u v _ IH [d [Hd Hpos]]]; [left; reflexivity |].
    destruct IH as [-> | ->];
      (destruct v as [| [| [| v]]];
       [left; reflexivity | right; reflexivity | | ]);
      vm_compute in Hd; try discriminate Hd;
      try (destruct v; discriminate Hd);
      injection Hd as <-; vm_compute in Hpos; discriminate Hpos. }
  intros Hr; destruct (H 2%nat Hr) as [E | E]; discriminate E.
Qed.

Lemma lookup_miss_fallbacks_witness :
  PathMatrixCalculator.find_optimal_route_order Samples.triangle ["a"; "zz"; "c"]%string
  = ["a"; "zz"; "c"]%string
  /\ PathMatrixCalculator.find_shortest_path 3 Samples.triangle "zz" "a" = Returns None
  /\ PathMatrixCalculator.find_shortest_path 3 Samples.island "a" "c" = Returns None.
Proof.
  split; [| split].
  - apply (proj1 (lookup_miss_fallbacks Samples.triangle ["a"; "zz"; "c"]%string
                    "a" "b" 3)).
    exists "zz"%string; split; [right; left; reflexivity |].
    simpl; intros [H | [H | [H | []]]]; discriminate H.
  - apply (proj1 (proj2 (lookup_miss_fallbacks Samples.triangle [] "zz" "a" 3))).
    left; simpl; intros [H | [H | [H | []]]]; discriminate H.
  - apply (proj2 (proj2 (proj2 (lookup_miss_fallbacks Samples.island [] "a" "c" 3)))).
    + left; reflexivity.
    + right; right; left; reflexivity.
    + exact island_unreachable.
Defined.

Lemma optimized_route_is_active_witness :
  Route.is_active Samples.line = false
  /\ exists res,
       OptimizationEngine.optimize_route Samples.geo None Samples.uuid4 Samples.today
                                         Samples.line None = Ok res
       /\ Route.is_active (OptimizationResult.optimized_route res) = true.
Proof.
  split; [reflexivity |].
  assert (H : exists res,
             OptimizationEngine.optimize_route Samples.geo None Samples.uuid4 Samples.today
                                               Samples.line None = Ok res)
    by (vm_compute; eexists; reflexivity).
  destruct H as [res H]; exists res; split; [exact H |].
  exact (optimized_route_is_active Samples.geo None Samples.uuid4 Samples.today
                                   Samples.line None res H).
Defined.

(** ** The stop list of the optimised route *)

Lemma dict_get_set {V : Type} (d : dict V) (k k' : string) (v : V) :
  dict_get (dict_set d k v) k' = if String.eqb k' k then Some v else dict_get d k'.
Proof.
  induction d as [| [k0 v0] d IH]; simpl.
  - destruct (String.eqb k' k); reflexivity.
  - destruct (String.eqb k k0) eqn:E; simpl.
    + apply String.eqb_eq in E; subst k0.
      destruct (String.eqb k' k); reflexivity.
    + destruct (String.eqb k' k0) eqn:E0.
      * apply String.eqb_eq in E0; subst k0.
        rewrite String.eqb_sym in E; rewrite E; reflexivity.
      * exact IH.
Qed.

Lemma stop_dict_of_present (stops : list BusStop.t) (k : string) :
  In k (map BusStop.id stops) ->
  exists stop, dict_get (OptimizationEngine.stop_dict_of stops) k = Some stop.
Proof.
  unfold OptimizationEngine.stop_dict_of.
  assert (H : forall d,
             (In k (map BusStop.id stops) \/ exists stop, dict_get d k = Some stop) ->
             exists stop,
               dict_get (fold_left (fun d stop => dict_set d (BusStop.id stop) stop) stops d) k
               = Some stop).
  { induction stops as [| s stops IH]; intros d [Hin | Hd]; simpl.
    - contradiction.
    - exact Hd.
    - apply IH; destruct Hin as [<- | Hin]; [right | left; exact Hin].
      exists s; rewrite dict_get_set, String.eqb_refl; reflexivity.
    - apply IH; right; rewrite dict_get_set.
      destruct (String.eqb k (BusStop.id s)); [exists s; reflexivity | exact Hd]. }
  intros Hin; apply H; left; exact Hin.
Qed.

Lemma flat_map_found_length (stops : list BusStop.t) (order : list string) :
  incl order (map BusStop.id stops) ->
  length (flat_map
            (fun stop_id =>
               match dict_get (OptimizationEngine.stop_dict_of stops) stop_id with
               | Some stop => [stop]
               | None => []
               end) order) = length order.
Proof.
  induction order as [| k order IH]; intros Hincl; [reflexivity |].
  cbn [flat_map]; rewrite length_app, IH.
  - destruct (stop_dict_of_present stops k (Hincl k (or_introl eq_refl))) as [s ->].
    reflexivity.
  - intros x Hx; apply Hincl; right; exact Hx.
Qed.

Lemma reorder_stops_length (matrix : PathMatrix.t) (stops : list BusStop.t) :
  (2 <= length stops)%nat ->
  (2 <= length (OptimizationEngine.reorder_stops matrix stops))%nat.
Proof.
  intros Hlen; unfold OptimizationEngine.reorder_stops.
  destruct (find_optimal_route_order_shape matrix (map BusStop.id stops)) as [Hincl Hge].
  rewrite length_map in Hge; specialize (Hge Hlen).
  rewrite (flat_map_found_length stops _ Hincl); exact Hge.
Qed.

(** No step between the route analysis and the [Route] constructor raises
    a validation error of the [Route] model. *)
Lemma index_Raise_inv (s : string) (l : list string) (e : exn) :
  index s l = Raise e -> e = ValueError.
Proof.
  induction l as [| y ys IH]; simpl; intros H; [injection H as <-; reflexivity |].
  destruct (String.eqb s y); [discriminate H |].
  apply bind_Raise_inv in H as [H | [i [_ H]]]; [apply IH, H | discriminate H].
Qed.

Lemma getitem_Raise_inv {A : Type} (l : list A) (i : nat) (e : exn) :
  getitem l i = Raise e -> e = IndexError.
Proof.
  unfold getitem; destruct (nth_error l i); intros H; [discriminate H |].
  injection H as <-; reflexivity.
Qed.

Lemma getitem2_Raise_inv {A : Type} (m : list (list A)) (i j : nat) (e : exn) :
  getitem2 m i j = Raise e -> e = IndexError.
Proof.
  unfold getitem2; intros H.
  apply bind_Raise_inv in H as [H | [row [_ H]]]; apply getitem_Raise_inv in H; exact H.
Qed.

Lemma total_time_from_Raise_inv (geo : GeoMetric.t) (matrix : PathMatrix.t)
      (pairs : list (BusStop.t * BusStop.t)) (total : Q) (e : exn) :
  OptimizationEngine.total_time_from geo matrix pairs total = Raise e ->
  e = IndexError \/ e = ValueError.
Proof.
  revert total; induction pairs as [| [current next] pairs IH]; intros total H;
    cbn [OptimizationEngine.total_time_from] in H; [discriminate H |].
  destruct (mem (BusStop.id current) (PathMatrix.stop_ids matrix)
            && mem (BusStop.id next) (PathMatrix.stop_ids matrix)).
  - apply bind_Raise_inv in H as [H | [i [_ H]]];
      [right; apply index_Raise_inv in H; exact H |].
    apply bind_Raise_inv in H as [H | [j [_ H]]];
      [right; apply index_Raise_inv in H; exact H |].
    apply bind_Raise_inv in H as [H | [t [_ H]]];
      [left; apply getitem2_Raise_inv in H; exact H |].
    apply IH in H; exact H.
  - apply IH in H; exact H.
Qed.

Lemma add_stops_loop_Raise_inv (uuid4 : nat -> string) (gaps : list CoverageGap.t)
      (new_stops : list BusStop.t) (model : string) (fields : list string) :
  OptimizationEngine.add_stops_loop uuid4 gaps new_stops
  = Raise (ValidationError model fields) ->
  model = "Coordinates"%string \/ model = "BusStop"%string.
Proof.
  revert new_stops; induction gaps as [| gap gaps IH]; intros new_stops H;
    cbn [OptimizationEngine.add_stops_loop] in H; [discriminate H |].
  apply bind_Raise_inv in H as [H | [coords [_ H]]].
  - apply validate_Raise_inv in H; injection H as -> _; left; reflexivity.
  - apply bind_Raise_inv in H as [H | [new_stop [_ H]]].
    + apply validate_Raise_inv in H; injection H as -> _; right; reflexivity.
    + apply IH in H; exact H.
Qed.

Lemma Route_stops_check_passes (r : Route.t) :
  (2 <= length (Route.stops r))%nat -> ~ In "stops"%string (failing (Route.checks r)).
Proof.
  intros Hlen; unfold failing, Route.checks.
  cbn [filter map fst snd].
  replace (Nat.leb 2 (length (Route.stops r))) with true
    by (symmetry; apply Nat.leb_le; exact Hlen).
  destruct (len_between 1 (Route.name r) 200);
    destruct (Nat.leb (String.length (Route.description r)) 1000);
    destruct (Qbetween 0 (Route.optimization_score r) 100);
    destruct ((1 <=? Route.estimated_travel_time r)%Z
              && (Route.estimated_travel_time r <=? 1440)%Z);
    cbn [negb filter map fst snd In];
    intuition discriminate.
Qed.

Lemma generate_optimized_route_stops (geo : GeoMetric.t) (uuid4 : nat -> string)
      (today : string) (route : Route.t) (analysis : RouteAnalysisResult.t)
      (population_analysis : option PopulationAnalysisResult.t) (matrix : PathMatrix.t) :
  (2 <= length (Route.stops route))%nat ->
  (forall r,
      OptimizationEngine._generate_optimized_route geo uuid4 today route analysis
        population_analysis matrix = Ok r ->
      (2 <= length (Route.stops r))%nat)
  /\ (forall fields,
         OptimizationEngine._generate_optimized_route geo uuid4 today route analysis
           population_analysis matrix = Raise (ValidationError "Route" fields) ->
         ~ In "stops"%string fields).
Proof.
  intros Hlen; unfold OptimizationEngine._generate_optimized_route.
  set (reordered := if Nat.ltb 2 (length (Route.stops route)) then _ else _).
  assert (Hreordered : (2 <= length reordered)%nat).
  { unfold reordered; destruct (Nat.ltb 2 (length (Route.stops route)));
      [apply reorder_stops_length |]; exact Hlen. }
  clearbody reordered.
  set (added := match population_analysis with None => _ | Some _ => _ end).
  assert (Hadded : forall fields, added <> Raise (ValidationError "Route" fields)).
  { intros fields H; unfold added in H.
    destruct population_analysis as [pa |]; [| discriminate H].
    destruct (PopulationAnalysisResult.coverage_gaps pa); [discriminate H |].
    apply add_stops_loop_Raise_inv in H as [H | H]; discriminate H. }
  clearbody added.
  assert (Hkept : forall new_stops,
             (2 <= length (match RouteAnalysisResult.bottlenecks analysis with
                           | [] => reordered ++ new_stops
                           | _ :: _ =>
                               OptimizationEngine._remove_bottleneck_stops
                                 (reordered ++ new_stops)
                                 (RouteAnalysisResult.bottlenecks analysis)
                           end))%nat).
  { intros new_stops.
    destruct (RouteAnalysisResult.bottlenecks analysis) eqn:E;
      [| rewrite remove_bottleneck_stops_id]; rewrite length_app; lia. }
  split.
  - intros r H.
    apply bind_Ok_inv in H as [new_stops [_ H]].
    apply bind_Ok_inv in H as [improved [Himproved H]].
    apply bind_Ok_inv in H as [time [_ H]].
    apply Route_create_Ok_inv in H as [-> _].
    apply mapM_Ok_length in Himproved; rewrite Himproved.
    destruct (RouteAnalysisResult.bottlenecks analysis) eqn:E; apply Hkept.
  - intros fields H.
    apply bind_Raise_inv in H as [H | [new_stops [_ H]]];
      [exfalso; apply (Hadded fields H) |].
    apply bind_Raise_inv in H as [H | [improved [Himproved H]]].
    { apply mapM_Raise_inv in H as [stop [_ H]].
      apply validate_Raise_inv in H; discriminate H. }
    apply bind_Raise_inv in H as [H | [time [_ H]]].
    { unfold OptimizationEngine._estimate_optimized_travel_time in H.
      destruct (Nat.ltb (length improved) 2); [discriminate H |].
      apply bind_Raise_inv in H as [H | [t [_ H]]]; [| discriminate H].
      apply total_time_from_Raise_inv in H as [H | H]; discriminate H. }
    apply validate_Raise_inv in H; injection H as ->.
    apply Route_stops_check_passes; cbn [Route.stops].
    apply mapM_Ok_length in Himproved; rewrite Himproved.
    destruct (RouteAnalysisResult.bottlenecks analysis) eqn:E; apply Hkept.
Qed.

Lemma Route_valid_two_stops (route : Route.t) :
  Route.valid route = true -> (2 <= length (Route.stops route))%nat.
Proof.
  unfold Route.valid; intros H; apply andb_prop in H as [H _].
  unfold Route.checks in H; cbn [forallb snd] in H.
  apply andb_prop in H as [_ H]; apply andb_prop in H as [_ H].
  apply andb_prop in H as [H _]; apply Nat.leb_le; exact H.
Qed.

(** C2.  For every valid input route, the stop list the orchestrator
    builds (reordering, coverage-gap additions, bottleneck removal,
    accessibility normalisation) has at least 2 stops: every result
    [optimize_route] returns has an optimised route with at least 2 stops,
    and when the call raises a validation error of the [Route] model
    instead, the minimum-stops check is not among the failed fields. *)
Theorem optimize_route_keeps_two_stops :
  forall (geo : GeoMetric.t) (efficiency_model : option (list Q -> result Q))
         (uuid4 : nat -> string) (today : string) (route : Route.t)
         (population_data : option PopulationDensityData.t),
    Route.valid route = true ->
    (forall res,
        OptimizationEngine.optimize_route geo efficiency_model uuid4 today route
                                          population_data = Ok res ->
        (2 <= length (Route.stops (OptimizationResult.optimized_route res)))%nat)
    /\ (forall fields,
           OptimizationEngine.optimize_route geo efficiency_model uuid4 today route
                                             population_data
           = Raise (ValidationError "Route" fields) ->
           ~ In "stops"%string fields).
Proof.
  intros geo efficiency_model uuid4 today route population_data Hvalid.
  apply Route_valid_two_stops in Hvalid.
  split.
  - intros res H; apply optimize_route_Ok_inv in H as [H _].
    revert H; apply generate_optimized_route_stops; exact Hvalid.
  - intros fields H; unfold OptimizationEngine.optimize_route in H.
    apply bind_Raise_inv in H as [H | [r [_ H]]].
    { revert H; apply generate_optimized_route_stops; exact Hvalid. }
    apply bind_Raise_inv in H as [H | [metrics [_ H]]].
    { apply validate_Raise_inv in H; discriminate H. }
    apply bind_Raise_inv in H as [H | [data [_ H]]]; [| discriminate H].
    destruct population_data as [data |]; [discriminate H |].
    unfold OptimizationEngine._create_default_population_data in H.
    apply bind_Raise_inv in H as [H | [bp [_ H]]];
      [| apply validate_Raise_inv in H; discriminate H].
    destruct (Route.stops route) as [| s stops].
    + apply bind_Raise_inv in H as [H | [b [_ H]]]; [| discriminate H].
      apply validate_Raise_inv in H; discriminate H.
    + apply bind_Raise_inv in H as [H | [b [_ H]]];
        [apply validate_Raise_inv in H; discriminate H |].
      apply bind_Raise_inv in H as [H | [points [_ H]]]; [| discriminate H].
      apply mapM_Raise_inv in H as [stop [_ H]].
      apply validate_Raise_inv in H; discriminate H.
Qed.

Lemma optimize_route_keeps_two_stops_witness :
  Route.valid Samples.line = true
  /\ exists res,
       OptimizationEngine.optimize_route Samples.geo None Samples.uuid4 Samples.today
                                         Samples.line None = Ok res
       /\ (2 <= length (Route.stops (OptimizationResult.optimized_route res)))%nat.
Proof.
  split; [reflexivity |].
  assert (H : exists res,
             OptimizationEngine.optimize_route Samples.geo None Samples.uuid4 Samples.today
                                               Samples.line None = Ok res)
    by (vm_compute; eexists; reflexivity).
  destruct H as [res H]; exists res; split; [exact H |].
  exact (proj1 (optimize_route_keeps_two_stops Samples.geo None Samples.uuid4 Samples.today
                  Samples.line None eq_refl) res H).
Defined.


(** ** Score bounds of the route analysis *)

Section ScoreBounds.
Local Open Scope Q_scope.

Lemma Qdiv_nonneg (a b : Q) : 0 <= a -> 0 < b -> 0 <= a / b.
Proof. intros Ha Hb; apply Qle_shift_div_l; [exact Hb | lra]. Qed.

Lemma Qdiv_le_1 (a b : Q) : a <= b -> 0 < b -> a / b <= 1.
Proof. intros Ha Hb; apply Qle_shift_div_r; [exact Hb | lra]. Qed.

Lemma Qnat_nonneg (n : nat) : 0 <= Qnat n.
Proof. unfold Qnat; rewrite <- (Zle_Qle 0); lia. Qed.

Lemma Qnat_le (n m : nat) : (n <= m)%nat -> Qnat n <= Qnat m.
Proof. intros H; unfold Qnat; rewrite <- Zle_Qle; lia. Qed.

Lemma Qnat_pos (n : nat) : (0 < n)%nat -> 0 < Qnat n.
Proof. intros H; unfold Qnat; rewrite <- (Zlt_Qlt 0); lia. Qed.

Lemma clamp_in_range (x : Q) : 0 <= py_max 0 (py_min 100 x) <= 100.
Proof.
  split; [apply py_max_ge_l |].
  apply py_max_lub; [lra | apply py_min_le_l].
Qed.

Lemma Zsum_shift (l : list Z) (a : Z) : fold_left Z.add l a = (a + Zsum l)%Z.
Proof.
  unfold Zsum; revert a; induction l as [| x xs IH]; intros a; simpl; [lia |].
  rewrite (IH (a + x)%Z), (IH x); lia.
Qed.

Lemma Zsum_cons (x : Z) (l : list Z) : Zsum (x :: l) = (x + Zsum l)%Z.
Proof. unfold Zsum at 1; simpl; apply Zsum_shift. Qed.

Lemma Zsum_nonneg (l : list Z) : Forall (fun x => (0 <= x)%Z) l -> (0 <= Zsum l)%Z.
Proof.
  induction 1 as [| x xs Hx _ IH]; [unfold Zsum; simpl; lia |].
  rewrite Zsum_cons; lia.
Qed.

Lemma Zsum_filter_le {A : Type} (f : A -> Z) (keep : A -> bool) (l : list A) :
  Forall (fun x => (0 <= f x)%Z) l ->
  (0 <= Zsum (map f (filter keep l)) <= Zsum (map f l))%Z.
Proof.
  induction 1 as [| x xs Hx _ IH]; [unfold Zsum; simpl; lia |].
  cbn [filter map]; destruct (keep x); cbn [map]; rewrite !Zsum_cons; lia.
Qed.

Lemma fold_left_Qplus_nonneg {A : Type} (f : A -> Q) (l : list A) (a : Q) :
  (forall x, In x l -> 0 <= f x) -> 0 <= a ->
  0 <= fold_left (fun acc x => acc + f x) l a.
Proof.
  revert a; induction l as [| x xs IH]; intros a Hf Ha; simpl; [exact Ha |].
  apply IH; [intros y Hy; apply Hf; right; exact Hy |].
  specialize (Hf x (or_introl eq_refl)); lra.
Qed.

Lemma stops_passengers_nonneg (route : Route.t) :
  Route.valid route = true ->
  Forall (fun x => (0 <= x)%Z) (map BusStop.daily_passenger_count (Route.stops route)).
Proof.
  unfold Route.valid; intros H; apply andb_prop in H as [_ H].
  rewrite forallb_forall in H; apply Forall_forall; intros x Hx.
  apply in_map_iff in Hx as [s [<- Hs]]; specialize (H s Hs).
  unfold BusStop.valid, BusStop.checks in H; cbn [forallb snd] in H.
  apply andb_prop in H as [H _]; apply andb_prop in H as [_ H].
  apply andb_prop in H as [_ H]; apply andb_prop in H as [H _].
  apply Z.leb_le; exact H.
Qed.

Lemma points_population_nonneg (data : PopulationDensityData.t) :
  PopulationDensityData.valid data = true ->
  Forall (fun p => (0 <= DensityPoint.population p)%Z)
         (PopulationDensityData.density_points data).
Proof.
  unfold PopulationDensityData.valid; intros H; apply andb_prop in H as [_ H].
  rewrite forallb_forall in H; apply Forall_forall; intros p Hp; specialize (H p Hp).
  unfold DensityPoint.valid in H; apply andb_prop in H as [H _].
  apply Z.leb_le; exact H.
Qed.

Lemma efficiency_score_in_range (geo : GeoMetric.t)
      (efficiency_model : option (list Q -> result Q)) (route : Route.t) :
  0 <= RouteAnalyzer._calculate_efficiency_score geo efficiency_model route <= 100.
Proof.
  unfold RouteAnalyzer._calculate_efficiency_score.
  destruct efficiency_model as [predict |]; [| apply clamp_in_range].
  destruct (predict _); [apply clamp_in_range | lra].
Qed.

Lemma basic_coverage_score_in_range (route : Route.t) :
  Route.stops route <> [] ->
  0 <= RouteAnalyzer._basic_coverage_score route <= 100.
Proof.
  intros Hne; unfold RouteAnalyzer._basic_coverage_score.
  destruct (Route.stops route); [contradiction |].
  split.
  - apply Qle_trans with 10; [lra | apply py_max_ge_l].
  - apply py_max_lub; [lra | apply py_min_le_l].
Qed.

Lemma coverage_score_in_range (geo : GeoMetric.t) (route : Route.t)
      (population_data : option PopulationDensityData.t) :
  Route.stops route <> [] ->
  (forall data, population_data = Some data -> PopulationDensityData.valid data = true) ->
  0 <= RouteAnalyzer._calculate_coverage_score geo route population_data <= 100.
Proof.
  intros Hne Hvalid; unfold RouteAnalyzer._calculate_coverage_score.
  destruct population_data as [data |]; [| apply basic_coverage_score_in_range, Hne].
  specialize (Hvalid data eq_refl); apply points_population_nonneg in Hvalid.
  destruct (PopulationDensityData.density_points data) as [| p ps] eqn:E;
    [apply basic_coverage_score_in_range, Hne |].
  set (points := p :: ps) in *.
  destruct (Z.eqb (Zsum (map DensityPoint.population points)) 0) eqn:Hzero; [lra |].
  apply Z.eqb_neq in Hzero.
  assert (Htotal : (0 <= Zsum (map DensityPoint.population points))%Z).
  { apply Zsum_nonneg, Forall_forall; intros x Hx.
    apply in_map_iff in Hx as [q [<- Hq]].
    rewrite Forall_forall in Hvalid; apply Hvalid, Hq. }
  pose proof (Zsum_filter_le DensityPoint.population
                (RouteAnalyzer.near_a_stop geo route 0.01) points Hvalid) as [Hlo Hhi].
  set (covered := Zsum (map DensityPoint.population
                            (filter (RouteAnalyzer.near_a_stop geo route 0.01) points))) in *.
  set (total := Zsum (map DensityPoint.population points)) in *.
  assert (Hpos : 0 < inject_Z total) by (rewrite <- (Zlt_Qlt 0); lia).
  assert (Hc : 0 <= inject_Z covered) by (rewrite <- (Zle_Qle 0); exact Hlo).
  assert (Hle : inject_Z covered <= inject_Z total) by (rewrite <- Zle_Qle; exact Hhi).
  pose proof (Qdiv_nonneg _ _ Hc Hpos).
  pose proof (Qdiv_le_1 _ _ Hle Hpos).
  split; [apply py_min_glb; lra | apply py_min_le_l].
Qed.

Lemma accessibility_score_in_range (route : Route.t) :
  0 <= RouteAnalyzer._calculate_accessibility_score route <= 100.
Proof.
  unfold RouteAnalyzer._calculate_accessibility_score, RouteAnalyzer.accessible_stops.
  destruct (Route.stops route) as [| s stops] eqn:E; [lra |].
  set (l := s :: stops) in *.
  assert (Hlen : 0 < Qlen l) by (apply Qnat_pos; simpl; lia).
  pose proof (Qdiv_nonneg _ _ (Qnat_nonneg (length (filter BusStop.is_accessible l))) Hlen).
  pose proof (Qdiv_le_1 _ _ (Qnat_le _ _ (filter_length_le BusStop.is_accessible l)) Hlen).
  set (bonus := fold_left _ l O).
  pose proof (Qdiv_nonneg _ _ (Qnat_nonneg bonus) Hlen).
  pose proof (py_min_le_l 20 (Qnat bonus / Qlen l)).
  pose proof (py_min_glb 20 (Qnat bonus / Qlen l) 0).
  unfold Qlen in *; lra.
Qed.

Lemma density_bonus_nonneg (geo : GeoMetric.t) (route : Route.t)
      (data : PopulationDensityData.t) :
  Route.stops route <> [] ->
  PopulationDensityData.valid data = true ->
  0 <= RouteAnalyzer._calculate_density_bonus geo route data.
Proof.
  intros Hne Hvalid; unfold RouteAnalyzer._calculate_density_bonus.
  apply points_population_nonneg in Hvalid.
  apply py_min_glb; [lra |].
  apply Qdiv_nonneg.
  - apply (fold_left_Qplus_nonneg
             (fun stop =>
                py_min 10
                  (inject_Z
                     (Zsum (map DensityPoint.population
                                (filter (fun point =>
                                           Qle_bool
                                             (RouteAnalyzer._calculate_distance geo
                                                (BusStop.coordinates stop)
                                                (DensityPoint.coordinates point))
                                             0.01)
                                        (PopulationDensityData.density_points data))))
                   / 1000))); [| lra].
    intros stop _; apply py_min_glb; [lra |].
    apply Qdiv_nonneg; [| lra].
    rewrite <- (Zle_Qle 0); apply Zsum_filter_le; exact Hvalid.
  - apply Qnat_pos; destruct (Route.stops route); [contradiction | simpl; lia].
Qed.

Lemma passenger_demand_score_in_range (geo : GeoMetric.t) (route : Route.t)
      (population_data : option PopulationDensityData.t) :
  Route.valid route = true ->
  (forall data, population_data = Some data -> PopulationDensityData.valid data = true) ->
  0 <= RouteAnalyzer._calculate_passenger_demand_score geo route population_data <= 100.
Proof.
  intros Hroute Hvalid; unfold RouteAnalyzer._calculate_passenger_demand_score.
  pose proof (density_bonus_nonneg geo route) as Hbonus.
  pose proof (Zsum_nonneg _ (stops_passengers_nonneg route Hroute)) as Htotal.
  unfold RouteAnalyzer.total_passengers.
  destruct (Route.stops route) as [| s stops] eqn:E; [lra |].
  set (l := s :: stops) in *.
  assert (Hlen : 0 < Qlen l) by (apply Qnat_pos; simpl; lia).
  assert (Hsum : 0 <= inject_Z (Zsum (map BusStop.daily_passenger_count l)))
    by (rewrite <- (Zle_Qle 0); exact Htotal).
  pose proof (Qdiv_nonneg _ _ Hsum Hlen) as Havg.
  set (avg := inject_Z (Zsum (map BusStop.daily_passenger_count l)) / Qlen l) in *.
  assert (Hbase : 0 <= py_min 100 (avg / 1000 * 100) <= 100).
  { split; [apply py_min_glb; [lra |] | apply py_min_le_l].
    pose proof (Qdiv_nonneg avg 1000 Havg); lra. }
  destruct population_data as [data |]; [| exact Hbase].
  destruct (PopulationDensityData.density_points data); [exact Hbase |].
  specialize (Hbonus data ltac:(discriminate) (Hvalid data eq_refl)).
  split; [apply py_min_glb; lra | apply py_min_le_l].
Qed.

(** C6.  For every valid route, without population data or with a valid
    population dataset, the efficiency, coverage, accessibility and demand
    scores returned by [analyze_route] lie in [0, 100], and so does the
    overall score, their combination with the weights 0.25, 0.25, 0.20
    and 0.30. *)
Theorem analyze_route_scores_in_range :
  forall (geo : GeoMetric.t) (efficiency_model : option (list Q -> result Q))
         (route : Route.t) (population_data : option PopulationDensityData.t),
    Route.valid route = true ->
    (forall data, population_data = Some data -> PopulationDensityData.valid data = true) ->
    let analysis := RouteAnalyzer.analyze_route geo efficiency_model route population_data in
    0 <= RouteAnalysisResult.efficiency_score analysis <= 100
    /\ 0 <= RouteAnalysisResult.coverage_score analysis <= 100
    /\ 0 <= RouteAnalysisResult.accessibility_score analysis <= 100
    /\ 0 <= RouteAnalysisResult.passenger_demand_score analysis <= 100
    /\ 0 <= RouteAnalysisResult.get_overall_score analysis <= 100
    /\ RouteAnalysisResult.get_overall_score analysis
       == 0.25 * RouteAnalysisResult.efficiency_score analysis
          + 0.25 * RouteAnalysisResult.coverage_score analysis
          + 0.20 * RouteAnalysisResult.accessibility_score analysis
          + 0.30 * RouteAnalysisResult.passenger_demand_score analysis.
Proof.
  intros geo efficiency_model route population_data Hroute Hdata analysis.
  assert (Hne : Route.stops route <> []).
  { apply Route_valid_two_stops in Hroute.
    destruct (Route.stops route); [simpl in Hroute; lia | discriminate]. }
  pose proof (efficiency_score_in_range geo efficiency_model route) as He.
  pose proof (coverage_score_in_range geo route population_data Hne Hdata) as Hc.
  pose proof (accessibility_score_in_range route) as Ha.
  pose proof (passenger_demand_score_in_range geo route population_data Hroute Hdata) as Hd.
  unfold analysis, RouteAnalyzer.analyze_route, RouteAnalysisResult.get_overall_score.
  cbn [RouteAnalysisResult.efficiency_score RouteAnalysisResult.coverage_score
       RouteAnalysisResult.accessibility_score RouteAnalysisResult.passenger_demand_score].
  repeat split; try tauto; lra.
Qed.

Lemma analyze_route_scores_in_range_witness :
  (let analysis := RouteAnalyzer.analyze_route Samples.geo None Samples.line None in
   0 <= RouteAnalysisResult.efficiency_score analysis <= 100
   /\ 0 <= RouteAnalysisResult.coverage_score analysis <= 100
   /\ 0 <= RouteAnalysisResult.accessibility_score analysis <= 100
   /\ 0 <= RouteAnalysisResult.passenger_demand_score analysis <= 100
   /\ 0 <= RouteAnalysisResult.get_overall_score analysis <= 100
   /\ RouteAnalysisResult.get_overall_score analysis
      == 0.25 * RouteAnalysisResult.efficiency_score analysis
         + 0.25 * RouteAnalysisResult.coverage_score analysis
         + 0.20 * RouteAnalysisResult.accessibility_score analysis
         + 0.30 * RouteAnalysisResult.passenger_demand_score analysis)
  /\ 0 <= RouteAnalysisResult.get_overall_score
            (RouteAnalyzer.analyze_route Samples.geo None Samples.line
                                         (Some Samples.hamlet)) <= 100.
Proof.
  split.
  - apply (analyze_route_scores_in_range Samples.geo None Samples.line None).
    + reflexivity.
    + intros data H; discriminate H.
  - apply (analyze_route_scores_in_range Samples.geo None Samples.line
             (Some Samples.hamlet)).
    + reflexivity.
    + intros data H; injection H as <-; reflexivity.
Defined.
End ScoreBounds.
(** ** Coverage gaps of a single-point dataset *)

Section CoverageGaps.
Local Open Scope Q_scope.

Lemma scan_stops_far (geo : GeoMetric.t) (p : Coordinates.t) (stops : list Coordinates.t)
      (radius : Q) (min_distance : Float.t) :
  (forall stop, In stop stops -> radius < GeoMetric.haversine_distance geo p stop) ->
  fst (PopulationAnalyzer.scan_stops geo p stops radius min_distance) = false.
Proof.
  revert min_distance; induction stops as [| stop stops IH]; intros min_distance Hfar;
    [reflexivity |].
  cbn [PopulationAnalyzer.scan_stops]; unfold PopulationAnalyzer._calculate_distance.
  replace (Qle_bool (GeoMetric.haversine_distance geo p stop) radius) with false
    by (symmetry; apply Qle_bool_false, Hfar; left; reflexivity).
  apply IH; intros s Hs; apply Hfar; right; exact Hs.
Qed.

Lemma single_point_candidates (geo : GeoMetric.t) (data : PopulationDensityData.t)
      (p : DensityPoint.t) :
  PopulationDensityData.density_points data = [p] ->
  (0 < DensityPoint.population p)%Z ->
  PopulationAnalyzer._find_optimal_stop_locations geo data 20
  = [DensityPoint.coordinates p].
Proof.
  intros Hpoints Hpop; unfold PopulationAnalyzer._find_optimal_stop_locations.
  rewrite Hpoints; cbn [map length Nat.leb filter snd].
  replace (0 <? DensityPoint.population p)%Z with true
    by (symmetry; apply Z.ltb_lt; exact Hpop).
  cbn [map]; unfold PopulationAnalyzer.point_coords; cbn [fst snd].
  destruct (DensityPoint.coordinates p); reflexivity.
Qed.

(** C5, as amended.  For every dataset with exactly one density point, of
    population 10,000: the population analysis makes that point its only
    candidate stop and, the point being within the radius of itself,
    reports no coverage gap; and [_identify_coverage_gaps] run on the
    dataset with a non-empty list of candidate stops that are all farther
    than the 1 km radius from the point returns exactly one gap entry, for
    that point, with severity "high". *)
Theorem single_point_coverage_gaps :
  forall (geo : GeoMetric.t) (data : PopulationDensityData.t) (p : DensityPoint.t),
    PopulationDensityData.density_points data = [p] ->
    DensityPoint.population p = 10000%Z ->
    (GeoMetric.haversine_distance geo (DensityPoint.coordinates p)
                                  (DensityPoint.coordinates p) <= 1 ->
     PopulationAnalysisResult.optimal_stop_locations
       (PopulationAnalyzer.analyze_population_data geo data)
     = [DensityPoint.coordinates p]
     /\ PopulationAnalysisResult.coverage_gaps
          (PopulationAnalyzer.analyze_population_data geo data) = [])
    /\ (forall stops,
           stops <> [] ->
           (forall stop, In stop stops ->
              1 < GeoMetric.haversine_distance geo (DensityPoint.coordinates p) stop) ->
           exists gap,
             PopulationAnalyzer._identify_coverage_gaps geo data stops 1 = [gap]
             /\ CoverageGap.coordinates gap = DensityPoint.coordinates p
             /\ CoverageGap.population gap = 10000%Z
             /\ CoverageGap.severity gap = "high"%string).
Proof.
  intros geo data p Hpoints Hpop; split.
  - intros Hself; unfold PopulationAnalyzer.analyze_population_data.
    cbn [PopulationAnalysisResult.optimal_stop_locations
         PopulationAnalysisResult.coverage_gaps].
    rewrite (single_point_candidates geo data p Hpoints) by (rewrite Hpop; lia).
    split; [reflexivity |].
    unfold PopulationAnalyzer._identify_coverage_gaps; rewrite Hpoints.
    cbn [flat_map PopulationAnalyzer.scan_stops].
    unfold PopulationAnalyzer._calculate_distance.
    replace (Qle_bool _ 1) with true by (symmetry; apply Qle_bool_iff; exact Hself).
    reflexivity.
  - intros stops Hne Hfar.
    unfold PopulationAnalyzer._identify_coverage_gaps; rewrite Hpoints.
    destruct stops as [| stop stops]; [contradiction |].
    cbn [flat_map].
    rewrite (scan_stops_far geo _ (stop :: stops) 1 Float.inf Hfar), Hpop.
    cbn [negb andb Z.ltb Z.compare Pos.compare Pos.compare_cont app stable_sort
         insert_sorted].
    eexists; split; [reflexivity |].
    cbn [CoverageGap.coordinates CoverageGap.population CoverageGap.severity].
    repeat split.
Qed.

Lemma single_point_coverage_gaps_witness :
  PopulationAnalysisResult.coverage_gaps
    (PopulationAnalyzer.analyze_population_data Samples.geo Samples.hamlet) = []
  /\ exists gap,
       PopulationAnalyzer._identify_coverage_gaps Samples.geo Samples.hamlet
                                                  [Samples.far_stop] 1 = [gap]
       /\ CoverageGap.coordinates gap = DensityPoint.coordinates Samples.hamlet_point
       /\ CoverageGap.population gap = 10000%Z
       /\ CoverageGap.severity gap = "high"%string.
Proof.
  destruct (single_point_coverage_gaps Samples.geo Samples.hamlet Samples.hamlet_point
              eq_refl eq_refl) as [Hself Hfar].
  split.
  - apply Hself; vm_compute; discriminate.
  - apply Hfar; [discriminate |].
    intros stop [<- | []]; vm_compute; reflexivity.
Defined.

(** The claim as stated fails on the single-point dataset: the analysis
    returns no coverage gap at all. *)
Lemma single_point_has_no_gap :
  length (PopulationAnalysisResult.coverage_gaps
            (PopulationAnalyzer.analyze_population_data Samples.geo Samples.hamlet))
  <> 1%nat.
Proof. vm_compute; discriminate. Qed.
End CoverageGaps.

(** ** Stable sorting *)

Section StableSort.
Context {A : Type}.
Variable before : A -> A -> bool.
Hypothesis before_total : forall a b, before a b = true \/ before b a = true.
Hypothesis before_trans :
  forall a b c, before a b = true -> before b c = true -> before a c = true.

Lemma insert_sorted_Permutation (x : A) (l : list A) :
  Permutation (insert_sorted before x l) (x :: l).
Proof.
  induction l as [| y ys IH]; simpl; [apply Permutation_refl |].
  destruct (before x y); [apply Permutation_refl |].
  apply perm_trans with (y :: x :: ys); [apply perm_skip, IH | apply perm_swap].
Qed.

Lemma stable_sort_Permutation (l : list A) : Permutation (stable_sort before l) l.
Proof.
  induction l as [| x xs IH]; simpl; [apply Permutation_refl |].
  apply perm_trans with (x :: stable_sort before xs);
    [apply insert_sorted_Permutation | apply perm_skip, IH].
Qed.

Lemma insert_sorted_sorted (x : A) (l : list A) :
  StronglySorted (fun a b => before a b = true) l ->
  StronglySorted (fun a b => before a b = true) (insert_sorted before x l).
Proof.
  induction 1 as [| y ys Hsorted IH Hy]; simpl; [repeat constructor |].
  destruct (before x y) eqn:E.
  - constructor; [constructor; assumption |].
    constructor; [exact E |].
    rewrite Forall_forall in Hy |- *; intros z Hz.
    apply before_trans with y; [exact E | apply Hy, Hz].
  - constructor; [exact IH |].
    apply Forall_forall; intros z Hz.
    apply (Permutation_in _ (insert_sorted_Permutation x ys)) in Hz as [<- | Hz].
    + destruct (before_total x y) as [H | H]; [congruence | exact H].
    + rewrite Forall_forall in Hy; apply Hy, Hz.
Qed.

Lemma stable_sort_sorted (l : list A) :
  StronglySorted (fun a b => before a b = true) (stable_sort before l).
Proof.
  induction l as [| x xs IH]; simpl; [constructor | apply insert_sorted_sorted, IH].
Qed.

(** Sorting a list that is already sorted by a secondary order keeps the
    secondary order among the elements the primary order ties. *)
Variable secondary : A -> A -> Prop.

Lemma insert_sorted_lex (x : A) (l : list A) :
  Forall (secondary x) l ->
  StronglySorted (lex_order before secondary) l ->
  StronglySorted (lex_order before secondary) (insert_sorted before x l).
Proof.
  intros Hx Hsorted; induction Hsorted as [| y ys Hsorted IH Hy]; simpl;
    [repeat constructor |].
  inversion Hx as [| ? ? Hxy Hxys]; subst.
  destruct (before x y) eqn:E.
  - constructor; [constructor; assumption |].
    constructor; [split; [exact E | intros _; exact Hxy] |].
    rewrite Forall_forall in Hy, Hxys |- *; intros z Hz.
    split; [| intros _; apply Hxys, Hz].
    apply before_trans with y; [exact E | apply Hy, Hz].
  - constructor; [apply IH, Hxys |].
    apply Forall_forall; intros z Hz.
    apply (Permutation_in _ (insert_sorted_Permutation x ys)) in Hz as [<- | Hz].
    + split; [| congruence].
      destruct (before_total x y) as [H | H]; [congruence | exact H].
    + rewrite Forall_forall in Hy; apply Hy, Hz.
Qed.

Lemma stable_sort_lex (l : list A) :
  StronglySorted secondary l ->
  StronglySorted (lex_order before secondary) (stable_sort before l).
Proof.
  induction 1 as [| x xs Hsorted IH Hx]; simpl; [constructor |].
  apply insert_sorted_lex; [| exact IH].
  rewrite Forall_forall in Hx |- *; intros z Hz.
  apply Hx, (Permutation_in _ (stable_sort_Permutation xs)), Hz.
Qed.
End StableSort.

(** Sorting is stable: the elements of a class whose members may all
    precede one another keep their order. *)
Lemma insert_sorted_filter {A : Type} (before keep : A -> A -> bool) (a x : A)
      (l : list A) :
  (forall y z, keep a y = true -> keep a z = true -> before y z = true) ->
  filter (keep a) (insert_sorted before x l)
  = if keep a x then x :: filter (keep a) l else filter (keep a) l.
Proof.
  intros Hclass; induction l as [| y ys IH]; cbn [insert_sorted filter].
  - destruct (keep a x); reflexivity.
  - destruct (before x y) eqn:E; cbn [filter].
    + destruct (keep a x); reflexivity.
    + rewrite IH.
      destruct (keep a x) eqn:Ex, (keep a y) eqn:Ey; try reflexivity.
      rewrite (Hclass x y Ex Ey) in E; discriminate E.
Qed.

Lemma stable_sort_filter {A : Type} (before keep : A -> A -> bool) (a : A) (l : list A) :
  (forall y z, keep a y = true -> keep a z = true -> before y z = true) ->
  filter (keep a) (stable_sort before l) = filter (keep a) l.
Proof.
  intros Hclass; induction l as [| x xs IH]; [reflexivity |].
  cbn [stable_sort filter]; rewrite (insert_sorted_filter before keep a x _ Hclass), IH.
  reflexivity.
Qed.

(** ** Sorted permutations of one another *)

Section SortedUnique.
Context {A : Type}.
Variable R : A -> A -> Prop.
Hypothesis R_refl : forall a, R a a.
Hypothesis R_trans : forall a b c, R a b -> R b c -> R a c.

Lemma both_ways_sym (a b : A) : both_ways R a b -> both_ways R b a.
Proof. intros [H1 H2]; split; assumption. Qed.

Lemma both_ways_trans (a b c : A) :
  both_ways R a b -> both_ways R b c -> both_ways R a c.
Proof.
  intros [H1 H2] [H3 H4]; split; [apply R_trans with b | apply R_trans with b]; assumption.
Qed.

Lemma Forall2_all_both_ways (a : A) (l1 l2 : list A) :
  Forall (both_ways R a) l1 -> Forall (both_ways R a) l2 -> length l1 = length l2 ->
  Forall2 (both_ways R) l1 l2.
Proof.
  revert l2; induction l1 as [| x xs IH]; intros [| y ys] H1 H2 Hlen;
    try discriminate Hlen; [constructor |].
  inversion H1; inversion H2; subst.
  constructor; [apply both_ways_trans with a; [apply both_ways_sym |]; assumption |].
  apply IH; [assumption | assumption | simpl in Hlen; lia].
Qed.

Lemma StronglySorted_app_inv (u v : list A) :
  StronglySorted R (u ++ v) ->
  StronglySorted R u /\ StronglySorted R v /\ forall x y, In x u -> In y v -> R x y.
Proof.
  induction u as [| a u IH]; simpl; intros H.
  - split; [constructor | split; [exact H | intros x y []]].
  - inversion H as [| ? ? Hsorted Ha]; subst.
    destruct (IH Hsorted) as [Hu [Hv Huv]].
    rewrite Forall_forall in Ha.
    split; [constructor; [exact Hu |] | split; [exact Hv |]].
    + apply Forall_forall; intros x Hx; apply Ha, in_or_app; left; exact Hx.
    + intros x y [<- | Hx] Hy; [apply Ha, in_or_app; right; exact Hy | apply Huv; assumption].
Qed.

Lemma StronglySorted_remove_middle (u v : list A) (a : A) :
  StronglySorted R (u ++ a :: v) -> StronglySorted R (u ++ v).
Proof.
  induction u as [| b u IH]; simpl; intros H.
  - inversion H; assumption.
  - inversion H as [| ? ? Hsorted Hb]; subst.
    constructor; [apply IH, Hsorted |].
    rewrite Forall_forall in Hb |- *; intros x Hx; apply Hb.
    apply in_app_or in Hx as [Hx | Hx]; apply in_or_app;
      [left; exact Hx | right; right; exact Hx].
Qed.

Lemma sorted_permutations_equiv (l1 l2 : list A) :
  StronglySorted R l1 -> StronglySorted R l2 -> Permutation l1 l2 ->
  Forall2 (both_ways R) l1 l2.
Proof.
  revert l2; induction l1 as [| a l1 IH]; intros l2 H1 H2 Hperm.
  - apply Permutation_nil in Hperm; subst l2; constructor.
  - inversion H1 as [| ? ? Hsorted1 Ha]; subst.
    assert (Hin : In a l2) by (apply (Permutation_in _ Hperm); left; reflexivity).
    apply in_split in Hin as [u [v ->]].
    apply Permutation_cons_app_inv in Hperm.
    specialize (IH (u ++ v) Hsorted1 (StronglySorted_remove_middle u v a H2) Hperm).
    apply Forall2_app_inv_r in IH as [w1 [w2 [Hu [Hv ->]]]].
    assert (Hmin : forall x, In x (w1 ++ w2) -> R a x)
      by (rewrite Forall_forall in Ha; exact Ha).
    destruct (StronglySorted_app_inv u (a :: v) H2) as [_ [_ Hua]].
    assert (Hu_equiv : Forall (both_ways R a) u).
    { apply Forall_forall; intros x Hx; split.
      - apply Hmin, (Permutation_in _ (Permutation_sym Hperm)), in_or_app; left; exact Hx.
      - apply Hua; [exact Hx | left; reflexivity]. }
    assert (Hw1_equiv : Forall (both_ways R a) w1).
    { clear - Hu Hu_equiv R_trans.
      induction Hu as [| x y w1 u Hxy _ IHu]; [constructor |].
      inversion Hu_equiv; subst.
      constructor; [apply both_ways_trans with y; [assumption | apply both_ways_sym, Hxy] |].
      apply IHu; assumption. }
    change (a :: w1 ++ w2) with ((a :: w1) ++ w2).
    replace (u ++ a :: v) with ((u ++ [a]) ++ v) by (rewrite <- app_assoc; reflexivity).
    apply Forall2_app; [| exact Hv].
    apply (Forall2_all_both_ways a).
    + constructor; [split; apply R_refl | exact Hw1_equiv].
    + apply Forall_app; split; [exact Hu_equiv |].
      constructor; [split; apply R_refl | constructor].
    + rewrite length_app; simpl.
      apply Forall2_length in Hu; lia.
Qed.
End SortedUnique.

(** ** Ranking *)

Lemma String_leb_refl (s : string) : String.leb s s = true.
Proof.
  unfold String.leb.
  destruct (String.compare s s) eqn:E; try reflexivity.
  pose proof (String.compare_antisym s s) as H; rewrite E in H; discriminate H.
Qed.

Lemma String_leb_iff (a b : string) :
  String.leb a b = true <-> a = b \/ String_as_OT.lt a b.
Proof.
  unfold String.leb, String_as_OT.lt.
  change (String_as_OT.compare a b) with (String.compare a b).
  destruct (String.compare a b) eqn:E; split; intros H; try reflexivity.
  - left; apply String.compare_eq_iff; exact E.
  - right; reflexivity.
  - discriminate H.
  - destruct H as [-> | H]; [| congruence].
    pose proof (String_leb_refl b) as Hr; unfold String.leb in Hr; rewrite E in Hr.
    discriminate Hr.
Qed.

Lemma String_leb_trans (a b c : string) :
  String.leb a b = true -> String.leb b c = true -> String.leb a c = true.
Proof.
  rewrite !String_leb_iff; intros [-> | Hab] [-> | Hbc]; auto.
  right; exact (StrictOrder_Transitive a b c Hab Hbc).
Qed.

Lemma by_route_id_total (a b : OptimizationResult.t * Q) :
  RouteRankingEngine.by_route_id a b = true \/ RouteRankingEngine.by_route_id b a = true.
Proof. apply String.leb_total. Qed.

Lemma by_route_id_trans (a b c : OptimizationResult.t * Q) :
  RouteRankingEngine.by_route_id a b = true -> RouteRankingEngine.by_route_id b c = true ->
  RouteRankingEngine.by_route_id a c = true.
Proof. apply String_leb_trans. Qed.

Lemma by_score_desc_total (a b : OptimizationResult.t * Q) :
  RouteRankingEngine.by_score_desc a b = true \/ RouteRankingEngine.by_score_desc b a = true.
Proof.
  unfold RouteRankingEngine.by_score_desc; rewrite !Qle_bool_iff.
  destruct (Qlt_le_dec (snd a) (snd b)); [right; lra | left; lra].
Qed.

Lemma by_score_desc_trans (a b c : OptimizationResult.t * Q) :
  RouteRankingEngine.by_score_desc a b = true -> RouteRankingEngine.by_score_desc b c = true ->
  RouteRankingEngine.by_score_desc a c = true.
Proof.
  unfold RouteRankingEngine.by_score_desc; rewrite !Qle_bool_iff; lra.
Qed.

Lemma rank_order_refl (a : OptimizationResult.t * Q) :
  lex_order RouteRankingEngine.by_score_desc
            (fun x y => RouteRankingEngine.by_route_id x y = true) a a.
Proof.
  split; [| intros _; apply String_leb_refl].
  unfold RouteRankingEngine.by_score_desc; apply Qle_bool_iff; lra.
Qed.

Lemma rank_order_trans (a b c : OptimizationResult.t * Q) :
  lex_order RouteRankingEngine.by_score_desc
            (fun x y => RouteRankingEngine.by_route_id x y = true) a b ->
  lex_order RouteRankingEngine.by_score_desc
            (fun x y => RouteRankingEngine.by_route_id x y = true) b c ->
  lex_order RouteRankingEngine.by_score_desc
            (fun x y => RouteRankingEngine.by_route_id x y = true) a c.
Proof.
  intros [Hab Hab'] [Hbc Hbc']; split.
  - apply by_score_desc_trans with b; assumption.
  - intros Hca; apply by_route_id_trans with b.
    + apply Hab', by_score_desc_trans with c; assumption.
    + apply Hbc', by_score_desc_trans with a; assumption.
Qed.

Lemma rank_unfold (results : list OptimizationResult.t) (criteria : RankingCriteria)
      (weights : option (dict Q)) :
  RouteRankingEngine.rank_optimization_results results criteria weights
  = map fst
        (stable_sort RouteRankingEngine.by_score_desc
           (stable_sort RouteRankingEngine.by_route_id
              (map (fun r => (r, RouteRankingEngine._calculate_ranking_score r criteria
                                   weights)) results))).
Proof. destruct results; reflexivity. Qed.

Lemma scored_sorted (results : list OptimizationResult.t) (criteria : RankingCriteria)
      (weights : option (dict Q)) :
  let scored :=
    stable_sort RouteRankingEngine.by_score_desc
      (stable_sort RouteRankingEngine.by_route_id
         (map (fun r => (r, RouteRankingEngine._calculate_ranking_score r criteria weights))
              results)) in
  StronglySorted (lex_order RouteRankingEngine.by_score_desc
                            (fun x y => RouteRankingEngine.by_route_id x y = true)) scored
  /\ Permutation scored
       (map (fun r => (r, RouteRankingEngine._calculate_ranking_score r criteria weights))
            results).
Proof.
  split.
  - apply stable_sort_lex;
      [apply by_score_desc_total | apply by_score_desc_trans |].
    apply stable_sort_sorted; [apply by_route_id_total | apply by_route_id_trans].
  - apply perm_trans with
      (stable_sort RouteRankingEngine.by_route_id
         (map (fun r => (r, RouteRankingEngine._calculate_ranking_score r criteria weights))
              results)); apply stable_sort_Permutation.
Qed.

Lemma scored_ties (criteria : RankingCriteria) (weights : option (dict Q))
      (a b : OptimizationResult.t) :
  both_ways (lex_order RouteRankingEngine.by_score_desc
                       (fun x y => RouteRankingEngine.by_route_id x y = true))
            (a, RouteRankingEngine._calculate_ranking_score a criteria weights)
            (b, RouteRankingEngine._calculate_ranking_score b criteria weights) ->
  ties criteria weights a b.
Proof.
  intros [[Hab Hab'] [Hba Hba']]; split.
  - unfold RouteRankingEngine.by_score_desc in Hab, Hba; cbn [snd] in Hab, Hba.
    apply Qle_bool_iff in Hab, Hba; lra.
  - apply String.leb_antisym; [apply (Hab' Hba) | apply (Hba' Hab)].
Qed.

Lemma scored_ranks_before (criteria : RankingCriteria) (weights : option (dict Q))
      (a b : OptimizationResult.t) :
  lex_order RouteRankingEngine.by_score_desc
            (fun x y => RouteRankingEngine.by_route_id x y = true)
            (a, RouteRankingEngine._calculate_ranking_score a criteria weights)
            (b, RouteRankingEngine._calculate_ranking_score b criteria weights) ->
  ranks_before criteria weights a b.
Proof.
  intros [Hab Hab']; unfold ranks_before.
  unfold RouteRankingEngine.by_score_desc in Hab, Hab'; cbn [snd] in Hab, Hab'.
  apply Qle_bool_iff in Hab.
  destruct (Qlt_le_dec (RouteRankingEngine._calculate_ranking_score b criteria weights)
                       (RouteRankingEngine._calculate_ranking_score a criteria weights))
    as [Hlt | Hle]; [left; exact Hlt | right].
  split; [lra | apply Hab', Qle_bool_iff, Hle].
Qed.

Section Ranking.
Variable criteria : RankingCriteria.
Variable weights : option (dict Q).

Local Abbreviation score_of :=
  (fun r => (r, RouteRankingEngine._calculate_ranking_score r criteria weights)).
Local Abbreviation rank_order :=
  (lex_order RouteRankingEngine.by_score_desc
             (fun x y => RouteRankingEngine.by_route_id x y = true)).

Lemma Forall2_ties_of_scored (l1 l2 : list (OptimizationResult.t * Q)) :
  Forall2 (both_ways rank_order) l1 l2 ->
  (forall p, In p l1 -> p = score_of (fst p)) ->
  (forall p, In p l2 -> p = score_of (fst p)) ->
  Forall2 (ties criteria weights) (map fst l1) (map fst l2).
Proof.
  induction 1 as [| p q l1 l2 Hpq _ IH]; intros H1 H2; [constructor |].
  cbn [map]; constructor.
  - apply scored_ties.
    rewrite <- (H1 p (or_introl eq_refl)), <- (H2 q (or_introl eq_refl)); exact Hpq.
  - apply IH; intros x Hx; [apply H1 | apply H2]; right; exact Hx.
Qed.

Lemma StronglySorted_ranks_before (l : list (OptimizationResult.t * Q)) :
  StronglySorted rank_order l ->
  (forall p, In p l -> p = score_of (fst p)) ->
  StronglySorted (ranks_before criteria weights) (map fst l).
Proof.
  induction 1 as [| p l Hsorted IH Hp]; intros Hform; [constructor |].
  cbn [map]; constructor.
  - apply IH; intros x Hx; apply Hform; right; exact Hx.
  - rewrite Forall_forall in Hp |- *; intros r Hr.
    apply in_map_iff in Hr as [q [<- Hq]].
    apply scored_ranks_before.
    rewrite <- (Hform p (or_introl eq_refl)), <- (Hform q (or_intror Hq)).
    apply Hp, Hq.
Qed.

Lemma Forall2_ties_ids (l1 l2 : list OptimizationResult.t) :
  Forall2 (ties criteria weights) l1 l2 ->
  map OptimizationResult.original_route_id l1 = map OptimizationResult.original_route_id l2.
Proof.
  induction 1 as [| a b l1 l2 [_ Hid] _ IH]; [reflexivity |].
  cbn [map]; rewrite Hid, IH; reflexivity.
Qed.

Lemma Forall2_ties_eq (domain l1 l2 : list OptimizationResult.t) :
  (forall a b, In a domain -> In b domain -> ties criteria weights a b -> a = b) ->
  incl l1 domain -> incl l2 domain ->
  Forall2 (ties criteria weights) l1 l2 -> l1 = l2.
Proof.
  intros Hinj H1 H2 H; induction H as [| a b l1 l2 Hab _ IH]; [reflexivity |].
  f_equal.
  - apply Hinj; [apply H1 | apply H2 | exact Hab]; left; reflexivity.
  - apply IH; intros x Hx; [apply H1 | apply H2]; right; exact Hx.
Qed.

(** The results that tie with [a] come out of the ranking in their input
    order. *)
Lemma ranking_keeps_tied_in_order (results : list OptimizationResult.t)
      (a : OptimizationResult.t) :
  filter (tiesb criteria weights a)
         (RouteRankingEngine.rank_optimization_results results criteria weights)
  = filter (tiesb criteria weights a) results.
Proof.
  rewrite rank_unfold.
  set (keep := fun (a p : OptimizationResult.t * Q) =>
                 Qeq_bool (snd p) (snd a)
                 && String.eqb (OptimizationResult.original_route_id (fst p))
                               (OptimizationResult.original_route_id (fst a))).
  assert (Hkeep : forall l : list (OptimizationResult.t * Q),
             filter (tiesb criteria weights a) (map fst l)
             = map fst (filter (fun p => tiesb criteria weights a (fst p)) l)).
  { induction l as [| p l IH]; cbn [map filter]; [reflexivity |].
    destruct (tiesb criteria weights a (fst p)); cbn [map]; rewrite IH; reflexivity. }
  assert (Hscored : forall l : list (OptimizationResult.t * Q),
             (forall p, In p l -> p = score_of (fst p)) ->
             filter (fun p => tiesb criteria weights a (fst p)) l
             = filter (keep (score_of a)) l).
  { intros l Hl; apply filter_ext_in; intros p Hp.
    rewrite (Hl p Hp) at 2; reflexivity. }
  destruct (scored_sorted results criteria weights) as [_ Hperm]; cbv zeta in Hperm.
  rewrite Hkeep, Hscored
    by (intros p Hp; apply (Permutation_in _ Hperm) in Hp;
        apply in_map_iff in Hp as [r [<- _]]; reflexivity).
  rewrite !(stable_sort_filter _ keep).
  - rewrite <- Hscored by (intros p Hp; apply in_map_iff in Hp as [r [<- _]]; reflexivity).
    rewrite <- Hkeep, map_map; cbn [fst]; rewrite map_id; reflexivity.
  - intros y z Hy Hz; unfold keep in Hy, Hz.
    apply andb_prop in Hy as [_ Hy]; apply andb_prop in Hz as [_ Hz].
    apply String.eqb_eq in Hy; apply String.eqb_eq in Hz.
    unfold RouteRankingEngine.by_route_id; rewrite Hy, Hz; apply String_leb_refl.
  - intros y z Hy Hz; unfold keep in Hy, Hz.
    apply andb_prop in Hy as [Hy _]; apply andb_prop in Hz as [Hz _].
    apply Qeq_bool_iff in Hy; apply Qeq_bool_iff in Hz.
    unfold RouteRankingEngine.by_score_desc; apply Qle_bool_iff.
    rewrite Hy, Hz; apply Qle_refl.
Qed.

Lemma scored_form (results : list OptimizationResult.t)
      (l : list (OptimizationResult.t * Q)) :
  Permutation l (map score_of results) ->
  forall p, In p l -> p = score_of (fst p) /\ In (fst p) results.
Proof.
  intros Hperm p Hp; apply (Permutation_in _ Hperm) in Hp.
  apply in_map_iff in Hp as [r [<- Hr]]; split; [reflexivity | exact Hr].
Qed.

(** C3, as amended.  For a fixed criterion, ranking any permutation of a
    list of results gives an output sorted descending by score with equal
    scores ascending by original route id, and the same sequence of scores
    and of original route ids as ranking the list itself; the two outputs
    are the same list whenever no two distinct results of the list share
    both score and original route id; results that share both keep their
    relative input order. *)
Theorem ranking_up_to_ties :
  forall (l1 l2 : list OptimizationResult.t),
    Permutation l1 l2 ->
    let ranked1 := RouteRankingEngine.rank_optimization_results l1 criteria weights in
    let ranked2 := RouteRankingEngine.rank_optimization_results l2 criteria weights in
    StronglySorted (ranks_before criteria weights) ranked1
    /\ Permutation ranked1 l1
    /\ Forall2 (ties criteria weights) ranked1 ranked2
    /\ map OptimizationResult.original_route_id ranked1
       = map OptimizationResult.original_route_id ranked2
    /\ ((forall a b, In a l1 -> In b l1 -> ties criteria weights a b -> a = b) ->
        ranked1 = ranked2)
    /\ (forall a, filter (tiesb criteria weights a) ranked1
                  = filter (tiesb criteria weights a) l1).
Proof.
  intros l1 l2 Hperm ranked1 ranked2.
  unfold ranked1, ranked2; rewrite !rank_unfold.
  destruct (scored_sorted l1 criteria weights) as [Hsorted1 Hperm1].
  destruct (scored_sorted l2 criteria weights) as [Hsorted2 Hperm2].
  cbv zeta in Hsorted1, Hperm1, Hsorted2, Hperm2.
  set (out1 := stable_sort _ (stable_sort _ (map _ l1))) in *.
  set (out2 := stable_sort _ (stable_sort _ (map _ l2))) in *.
  pose proof (scored_form l1 out1 Hperm1) as Hform1.
  pose proof (scored_form l2 out2 Hperm2) as Hform2.
  assert (Hties : Forall2 (ties criteria weights) (map fst out1) (map fst out2)).
  { apply Forall2_ties_of_scored.
    - apply sorted_permutations_equiv;
        [apply rank_order_refl | apply rank_order_trans | exact Hsorted1 | exact Hsorted2 |].
      apply perm_trans with (map score_of l1); [exact Hperm1 |].
      apply perm_trans with (map score_of l2);
        [apply Permutation_map, Hperm | apply Permutation_sym, Hperm2].
    - intros p Hp; apply Hform1, Hp.
    - intros p Hp; apply Hform2, Hp. }
  split; [| split; [| split; [| split; [| split]]]].
  - apply StronglySorted_ranks_before; [exact Hsorted1 |].
    intros p Hp; apply Hform1, Hp.
  - apply perm_trans with (map fst (map score_of l1)); [apply Permutation_map, Hperm1 |].
    rewrite map_map; cbn [fst]; rewrite map_id; apply Permutation_refl.
  - exact Hties.
  - apply Forall2_ties_ids, Hties.
  - intros Hinj; apply (Forall2_ties_eq l1); [exact Hinj | | | exact Hties].
    + intros r Hr; apply in_map_iff in Hr as [p [<- Hp]]; apply Hform1, Hp.
    + intros r Hr; apply in_map_iff in Hr as [p [<- Hp]].
      apply (Permutation_in _ (Permutation_sym Hperm)), Hform2, Hp.
  - intros a; unfold out1; rewrite <- rank_unfold.
    apply ranking_keeps_tied_in_order.
Qed.
End Ranking.

Lemma ranking_up_to_ties_witness :
  Permutation [Samples.first_run; Samples.other_run] [Samples.other_run; Samples.first_run]
  /\ RouteRankingEngine.rank_optimization_results
       [Samples.first_run; Samples.other_run] TIME_EFFICIENCY None
     = RouteRankingEngine.rank_optimization_results
         [Samples.other_run; Samples.first_run] TIME_EFFICIENCY None.
Proof.
  split; [apply perm_swap |].
  apply (ranking_up_to_ties TIME_EFFICIENCY None
           [Samples.first_run; Samples.other_run] [Samples.other_run; Samples.first_run]
           (perm_swap _ _ _)).
  intros a b [<- | [<- | []]] [<- | [<- | []]] [_ Hid];
    try reflexivity; vm_compute in Hid; discriminate Hid.
Defined.

(** Two results of the same original route with the same score keep their
    input order: the ranking of the list and of its shuffle differ. *)
Lemma ranking_depends_on_input_order :
  Permutation [Samples.first_run; Samples.second_run]
              [Samples.second_run; Samples.first_run]
  /\ RouteRankingEngine.rank_optimization_results
       [Samples.first_run; Samples.second_run] TIME_EFFICIENCY None
     <> RouteRankingEngine.rank_optimization_results
          [Samples.second_run; Samples.first_run] TIME_EFFICIENCY None.
Proof.
  split; [apply perm_swap |].
  vm_compute; discriminate.
Qed.
(** ** The weighted composite score *)

Section WeightedScore.
Local Open Scope Q_scope.

Lemma Qsum_shift (l : list Q) (a : Q) : fold_left Qplus l a == a + Qsum l.
Proof.
  unfold Qsum; revert a; induction l as [| x xs IH]; intros a; simpl; [lra |].
  rewrite (IH (a + x)), (IH (0 + x)); lra.
Qed.

Lemma Qsum_cons (x : Q) (l : list Q) : Qsum (x :: l) == x + Qsum l.
Proof. unfold Qsum at 1; simpl; rewrite Qsum_shift; lra. Qed.

Lemma Qsum_app (l1 l2 : list Q) : Qsum (l1 ++ l2) == Qsum l1 + Qsum l2.
Proof.
  induction l1 as [| x xs IH]; simpl; [unfold Qsum at 2; simpl; lra |].
  rewrite !Qsum_cons, IH; lra.
Qed.

Lemma Qsum_scaled (d : dict Q) (total : Q) :
  Qsum (dict_values (map (fun kv => (fst kv, snd kv / total)) d))
  == Qsum (dict_values d) / total.
Proof.
  unfold dict_values; induction d as [| [k v] d IH]; cbn [map fst snd].
  - unfold Qsum; simpl; unfold Qdiv; lra.
  - rewrite !Qsum_cons, IH; unfold Qdiv; lra.
Qed.

Lemma normalize_weights_sum (weights : dict Q) :
  0 < Qsum (dict_values weights) ->
  Qsum (dict_values (RouteRankingEngine.normalize_weights weights)) == 1.
Proof.
  intros Hpos; unfold RouteRankingEngine.normalize_weights.
  rewrite (proj2 (Qlt_bool_true _ _) Hpos), Qsum_scaled.
  field; lra.
Qed.

Lemma dict_get_app_absent {V : Type} (d : dict V) (key k : string) (v : V) :
  dict_get d key = None ->
  dict_get (d ++ [(key, v)]) k
  = match dict_get d k with
    | Some w => Some w
    | None => if String.eqb k key then Some v else None
    end.
Proof.
  intros Habsent; induction d as [| [k0 v0] d IH]; cbn [app dict_get].
  - reflexivity.
  - cbn [dict_get] in Habsent.
    destruct (String.eqb key k0); [discriminate Habsent |].
    destruct (String.eqb k k0); [reflexivity | apply IH, Habsent].
Qed.

Lemma dict_get_scaled (d : dict Q) (total : Q) (k : string) :
  dict_get (map (fun kv => (fst kv, snd kv / total)) d) k
  = option_map (fun v => v / total) (dict_get d k).
Proof.
  induction d as [| [k0 v0] d IH]; cbn [map dict_get fst snd]; [reflexivity |].
  destruct (String.eqb k k0); [reflexivity | exact IH].
Qed.

Lemma normalize_weights_get (weights : dict Q) (k : string) :
  dict_get (RouteRankingEngine.normalize_weights weights) k
  = option_map (fun v => if Qlt_bool 0 (Qsum (dict_values weights))
                         then v / Qsum (dict_values weights) else v)
               (dict_get weights k).
Proof.
  unfold RouteRankingEngine.normalize_weights.
  destruct (Qlt_bool 0 (Qsum (dict_values weights))).
  - apply dict_get_scaled.
  - destruct (dict_get weights k); reflexivity.
Qed.

Lemma Qlt_bool_compat (a b c : Q) : b == c -> Qlt_bool a b = Qlt_bool a c.
Proof.
  intros H; destruct (Qlt_bool a c) eqn:E.
  - apply Qlt_bool_true; apply Qlt_bool_true in E; lra.
  - apply Qlt_bool_false; apply Qlt_bool_false in E; lra.
Qed.

Lemma py_min_compat (a a' c : Q) : a == a' -> py_min a c == py_min a' c.
Proof.
  intros H; destruct (py_min_spec a c) as [[H1 ->] | [H1 ->]];
    destruct (py_min_spec a' c) as [[H2 ->] | [H2 ->]]; lra.
Qed.

(** With a zero weight for a criterion the map does not mention, every
    lookup contributes what it contributed before. *)
Lemma add_weighted_zero (weights : dict Q) (key k : string) (value score score' : Q) :
  dict_get weights key = None ->
  score == score' ->
  RouteRankingEngine.add_weighted
    (RouteRankingEngine.normalize_weights (weights ++ [(key, 0)])) k value score
  == RouteRankingEngine.add_weighted
       (RouteRankingEngine.normalize_weights weights) k value score'.
Proof.
  intros Habsent Hscore; unfold RouteRankingEngine.add_weighted.
  rewrite !normalize_weights_get, (dict_get_app_absent weights key k 0 Habsent).
  assert (Htotal : Qsum (dict_values (weights ++ [(key, 0)])) == Qsum (dict_values weights)).
  { unfold dict_values; rewrite map_app, Qsum_app; cbn [map snd].
    rewrite Qsum_cons; change (Qsum []) with 0; lra. }
  rewrite (Qlt_bool_compat 0 _ _ Htotal).
  destruct (dict_get weights k) as [w |]; cbn [option_map].
  - destruct (Qlt_bool 0 (Qsum (dict_values weights))); [| rewrite Hscore; reflexivity].
    rewrite Hscore, Htotal; reflexivity.
  - destruct (String.eqb k key); cbn [option_map]; [| exact Hscore].
    destruct (Qlt_bool 0 (Qsum (dict_values weights)));
      rewrite Hscore; unfold Qdiv; lra.
Qed.

(** One step of the weighted sum: the value times the share of its
    criterion, the share being the supplied weight, 0 for a criterion the
    map does not mention, divided by the total of the map when that is
    positive. *)
Lemma add_weighted_share (weights : dict Q) (key : string) (value score : Q) :
  RouteRankingEngine.add_weighted (RouteRankingEngine.normalize_weights weights)
                                  key value score
  == score
     + value * (let weight := match dict_get weights key with
                              | Some w => w
                              | None => 0
                              end in
                if Qlt_bool 0 (Qsum (dict_values weights))
                then weight / Qsum (dict_values weights) else weight).
Proof.
  unfold RouteRankingEngine.add_weighted; rewrite normalize_weights_get; cbv zeta.
  destruct (dict_get weights key) as [w |]; cbn [option_map].
  - reflexivity.
  - destruct (Qlt_bool 0 (Qsum (dict_values weights))); unfold Qdiv; lra.
Qed.

(** C9, as amended.  The default table is used only when no weight map is
    supplied.  A supplied map is used as it is: every supplied weight is
    divided by the total of the supplied weights when the total is
    positive; the score is the sum, capped at 100, of the six criterion
    values, each times the share of its criterion, where the share is the
    supplied weight so divided (the supplied weight itself when the total is
    not positive), and where a criterion the map does not mention has
    weight 0: it contributes nothing to the score. *)
Theorem weighted_score_uses_supplied_weights :
  forall (result : OptimizationResult.t),
    RouteRankingEngine._calculate_weighted_overall_score result None
    = RouteRankingEngine._calculate_weighted_overall_score
        result (Some RouteRankingEngine.default_weights)
    /\ (forall weights key,
           0 < Qsum (dict_values weights) ->
           dict_get (RouteRankingEngine.normalize_weights weights) key
           = option_map (fun w => w / Qsum (dict_values weights)) (dict_get weights key))
    /\ (forall weights key,
           dict_mem weights key = false ->
           RouteRankingEngine._calculate_weighted_overall_score
             result (Some (weights ++ [(key, 0)]))
           == RouteRankingEngine._calculate_weighted_overall_score result (Some weights))
    /\ (forall weights,
           let metrics := OptimizationResult.metrics result in
           let total := Qsum (dict_values weights) in
           let share key :=
             let weight := match dict_get weights key with
                           | Some w => w
                           | None => 0
                           end in
             if Qlt_bool 0 total then weight / total else weight in
           RouteRankingEngine._calculate_weighted_overall_score result (Some weights)
           == py_min
                (OptimizationMetrics.time_improvement metrics * share "time_improvement"
                 + OptimizationMetrics.distance_reduction metrics
                   * share "distance_reduction"
                 + OptimizationMetrics.passenger_coverage_increase metrics
                   * share "passenger_coverage"
                 + OptimizationMetrics.cost_savings metrics * share "cost_savings"
                 + RouteRankingEngine._calculate_accessibility_score
                     (OptimizationResult.optimized_route result) * share "accessibility"
                 + RouteRankingEngine._calculate_environmental_score result
                   * share "environmental")%string
                100).
Proof.
  intros result; split.
  { unfold RouteRankingEngine._calculate_weighted_overall_score.
    cbv beta iota; reflexivity. }
  split.
  { intros weights key Hpos; rewrite normalize_weights_get.
    rewrite (proj2 (Qlt_bool_true _ _) Hpos); reflexivity. }
  split.
  - intros weights key Hmem.
    assert (Habsent : dict_get weights key = None).
    { unfold dict_mem in Hmem; destruct (dict_get weights key);
        [discriminate | reflexivity]. }
    unfold RouteRankingEngine._calculate_weighted_overall_score.
    apply py_min_compat.
    repeat (apply add_weighted_zero; [exact Habsent |]).
    reflexivity.
  - intros weights metrics total share.
    unfold RouteRankingEngine._calculate_weighted_overall_score.
    apply py_min_compat; cbv zeta; fold metrics.
    rewrite !add_weighted_share; cbv zeta; fold total.
    unfold share; lra.
Qed.

Lemma weighted_score_uses_supplied_weights_witness :
  dict_get (RouteRankingEngine.normalize_weights
              [("time_improvement"%string, 3); ("cost_savings"%string, 1)])
           "cost_savings"
  = Some (1 / Qsum [3; 1])
  /\ RouteRankingEngine._calculate_weighted_overall_score
       Samples.first_run (Some [("time_improvement"%string, 1); ("distance_reduction"%string, 0)])
     == RouteRankingEngine._calculate_weighted_overall_score
          Samples.first_run (Some [("time_improvement"%string, 1)]).
Proof.
  split.
  - apply (proj1 (proj2 (weighted_score_uses_supplied_weights Samples.first_run))
             [("time_improvement"%string, 3); ("cost_savings"%string, 1)]
             "cost_savings"%string).
    vm_compute; reflexivity.
  - apply (proj1 (proj2 (proj2 (weighted_score_uses_supplied_weights Samples.first_run)))
             [("time_improvement"%string, 1)] "distance_reduction"%string).
    reflexivity.
Defined.

(** The claim as stated fails: with only a time weight supplied, the score
    is the time improvement alone, not the score of the map completed with
    the default weights of the five missing criteria. *)
Lemma missing_weights_are_not_defaulted :
  RouteRankingEngine._calculate_weighted_overall_score
    Samples.first_run (Some [("time_improvement"%string, 1)]) == 10
  /\ ~ (RouteRankingEngine._calculate_weighted_overall_score
          Samples.first_run (Some [("time_improvement"%string, 1)])
        == RouteRankingEngine._calculate_weighted_overall_score
             Samples.first_run
             (Some (RouteRankingEngine.spec_fill_missing_weights
                      [("time_improvement"%string, 1)]))).
Proof.
  split; [vm_compute; reflexivity |].
  vm_compute; discriminate.
Qed.
End WeightedScore.

(** ** Shortest paths

    [find_shortest_path] is Dijkstra's algorithm on the distance matrix, a
    positive finite cell being an edge. *)

Section ShortestPaths.
Import PathMatrixCalculator.

Lemma setitem_length {A : Type} (l : list A) (i : nat) (x : A) :
  length (setitem l i x) = length l.
Proof.
  revert i; induction l as [| a l IH]; intros [| i]; simpl; try reflexivity.
  f_equal; apply IH.
Qed.

Lemma nth_setitem_eq {A : Type} (l : list A) (i : nat) (x d : A) :
  (i < length l)%nat -> nth i (setitem l i x) d = x.
Proof.
  revert i; induction l as [| a l IH]; intros [| i] H; simpl in *; try lia; try reflexivity.
  apply IH; lia.
Qed.

Lemma nth_setitem_neq {A : Type} (l : list A) (i j : nat) (x d : A) :
  i <> j -> nth j (setitem l i x) d = nth j l d.
Proof.
  revert i j; induction l as [| a l IH]; intros [| i] [| j] H; simpl; try reflexivity;
    try congruence.
  apply IH; congruence.
Qed.

Lemma relax_visited (distances : list (list Float.t)) (min_idx : nat) (vs : list nat)
      (st st' : dijkstra_state) :
  relax distances min_idx vs st = Ok st' -> visited st' = visited st.
Proof.
  revert st; induction vs as [| v vs IH]; intros st H; cbn [relax] in H.
  - injection H as <-; reflexivity.
  - destruct (nth v (visited st) false); [apply (IH st H) |].
    apply bind_Ok_inv in H as [d [_ H]].
    destruct (_ && _); apply IH in H; exact H.
Qed.

(** One relaxation step keeps the search tree, as long as the vertex the
    edges leave from and the origin are visited. *)
Lemma relax_search_tree (matrix : PathMatrix.t) (origin min_idx : nat) (vs : list nat)
      (st st' : dijkstra_state) :
  Forall (fun v => (v < length (PathMatrix.stop_ids matrix))%nat) vs ->
  nth min_idx (visited st) false = true ->
  nth origin (visited st) false = true ->
  search_tree matrix origin st ->
  relax (PathMatrix.distance_matrix matrix) min_idx vs st = Ok st' ->
  search_tree matrix origin st'.
Proof.
  revert st; induction vs as [| v vs IH]; intros st Hvs Hmin Horigin Hinv H;
    cbn [relax] in H.
  - injection H as <-; exact Hinv.
  - inversion Hvs as [| ? ? Hv Hvs']; subst.
    destruct (nth v (visited st) false) eqn:Hvis; [apply (IH st Hvs' Hmin Horigin Hinv H) |].
    apply bind_Ok_inv in H as [d [Hd H]].
    destruct (Float.ltb (Float.fin 0) d
              && Float.ltb (Float.add (nth min_idx (dist st) Float.inf) d)
                           (nth v (dist st) Float.inf)) eqn:E;
      [| apply (IH st Hvs' Hmin Horigin Hinv H)].
    apply andb_prop in E as [Hpos Hless].
    destruct Hinv as [[Hlv [Hld Hlp]] [Hdo [Hpo [Hfin [Hlinks [Hpar Hvd]]]]]].
    destruct (nth min_idx (dist st) Float.inf) as [dm |] eqn:Hdm;
      [| exfalso; apply (Hvd min_idx Hmin); exact Hdm].
    destruct d as [q |]; [| discriminate Hless].
    simpl in Hpos; apply Qlt_bool_true in Hpos.
    assert (Hvm : v <> min_idx) by (intros ->; congruence).
    assert (Hvo : v <> origin) by (intros ->; congruence).
    refine (IH _ Hvs' _ _ _ H); cbn [visited dist parent]; try assumption.
    unfold search_tree, wf_state, parent_links; cbn [visited dist parent Float.add].
    split; [| split; [| split; [| split; [| split; [| split]]]]].
    + repeat split; rewrite ?setitem_length; assumption.
    + rewrite nth_setitem_neq by exact Hvo; exact Hdo.
    + rewrite nth_setitem_neq by exact Hvo; exact Hpo.
    + intros w _; right; exact Horigin.
    + intros w u Hw.
      destruct (Nat.eq_dec w v) as [-> | Hwv].
      * rewrite nth_setitem_eq in Hw by lia; injection Hw as <-.
        split; [exact Hmin |].
        exists dm, q.
        rewrite nth_setitem_neq by exact Hvm.
        rewrite nth_setitem_eq by lia.
        repeat split; assumption.
      * rewrite nth_setitem_neq in Hw by congruence.
        destruct (Hlinks w u Hw) as [Hu [du [d [Hdu [Hcell [Hd0 Hdw]]]]]].
        split; [exact Hu |].
        exists du, d.
        assert (Huv : v <> u) by (intros ->; congruence).
        rewrite !nth_setitem_neq by congruence.
        repeat split; assumption.
    + intros w Hw Hwo.
      destruct (Nat.eq_dec w v) as [-> | Hwv].
      * rewrite nth_setitem_eq by lia; discriminate.
      * rewrite nth_setitem_neq in Hw by congruence.
        rewrite nth_setitem_neq by congruence.
        apply Hpar; assumption.
    + intros u Hu.
      assert (Huv : v <> u) by (intros ->; congruence).
      rewrite nth_setitem_neq by exact Huv; apply Hvd, Hu.
Qed.

Lemma find_min_spec (st : dijkstra_state) (vs : list nat) (min_dist : Float.t)
      (min_idx : option nat) :
  (forall w, min_idx = Some w -> nth w (dist st) Float.inf = min_dist) ->
  match find_min st vs min_dist min_idx with
  | None =>
      min_idx = None
      /\ forall v, In v vs -> nth v (visited st) false = false ->
                   Float.ltb (nth v (dist st) Float.inf) min_dist = false
  | Some r =>
      (min_idx = Some r
       \/ (In r vs /\ nth r (visited st) false = false
           /\ Float.ltb (nth r (dist st) Float.inf) min_dist = true))
      /\ Float.ltb min_dist (nth r (dist st) Float.inf) = false
      /\ forall v, In v vs -> nth v (visited st) false = false ->
                   Float.ltb (nth v (dist st) Float.inf) (nth r (dist st) Float.inf) = false
  end.
Proof.
  revert min_dist min_idx; induction vs as [| v vs IH]; intros md mi Hmi; cbn [find_min].
  - destruct mi as [r |].
    + split; [left; reflexivity |].
      rewrite (Hmi r eq_refl); split; [apply Float_ltb_irrefl | intros v []].
    + split; [reflexivity | intros v []].
  - destruct (negb (nth v (visited st) false)
              && Float.ltb (nth v (dist st) Float.inf) md) eqn:E.
    + apply andb_prop in E as [Hv Hlt]; apply negb_true_iff in Hv.
      specialize (IH (nth v (dist st) Float.inf) (Some v)).
      destruct (find_min st vs (nth v (dist st) Float.inf) (Some v)) as [r |].
      * destruct IH as [Hr [Hle Hall]]; [intros w E; injection E as <-; reflexivity |].
        split; [| split].
        -- right; destruct Hr as [Hr | [Hin [Hvis Hlt']]].
           ++ injection Hr as <-; split; [left; reflexivity | split; assumption].
           ++ split; [right; exact Hin | split; [exact Hvis |]].
              apply Float_lt_trans with (nth v (dist st) Float.inf); assumption.
        -- apply Float_le_trans with (nth v (dist st) Float.inf);
             [exact Hle | apply Float_lt_le; exact Hlt].
        -- intros v' [<- | Hin] Hvis; [exact Hle | apply Hall; assumption].
      * destruct IH as [IH _]; [intros w E; injection E as <-; reflexivity |].
        discriminate IH.
    + specialize (IH md mi Hmi).
      assert (Hv : nth v (visited st) false = false ->
                   Float.ltb (nth v (dist st) Float.inf) md = false).
      { intros Hvis; rewrite Hvis in E; exact E. }
      destruct (find_min st vs md mi) as [r |].
      * destruct IH as [Hr [Hle Hall]].
        split; [| split; [exact Hle |]].
        -- destruct Hr as [Hr | [Hin [Hvis Hlt']]]; [left; exact Hr |].
           right; split; [right; exact Hin | split; assumption].
        -- intros v' [<- | Hin] Hvis; [| apply Hall; assumption].
           apply Float_le_trans with md; [exact Hle | apply Hv, Hvis].
      * destruct IH as [-> Hall]; split; [reflexivity |].
        intros v' [<- | Hin] Hvis; [apply Hv, Hvis | apply Hall; assumption].
Qed.

Lemma nth_setitem_true (l : list bool) (i u : nat) :
  nth u l false = true -> nth u (setitem l i true) false = true.
Proof.
  intros H; destruct (Nat.eq_dec i u) as [-> | Hne].
  - apply nth_setitem_eq.
    destruct (Nat.lt_ge_cases u (length l)) as [Hlt | Hge]; [exact Hlt |].
    rewrite nth_overflow in H by exact Hge; discriminate H.
  - rewrite nth_setitem_neq by exact Hne; exact H.
Qed.

Lemma nth_finite_in_range (l : list Float.t) (v : nat) :
  nth v l Float.inf <> Float.inf -> (v < length l)%nat.
Proof.
  intros H; destruct (Nat.lt_ge_cases v (length l)) as [Hlt | Hge]; [exact Hlt |].
  rewrite nth_overflow in H by exact Hge; contradiction.
Qed.

Lemma initial_search_tree (matrix : PathMatrix.t) (origin : nat) :
  let n := length (PathMatrix.stop_ids matrix) in
  (origin < n)%nat ->
  search_tree matrix origin
    {| visited := repeat false n;
       dist := setitem (repeat Float.inf n) origin (Float.fin 0);
       parent := repeat None n |}.
Proof.
  intros n Horigin.
  assert (Hfin : forall v, nth v (setitem (repeat Float.inf n) origin (Float.fin 0)) Float.inf
                           <> Float.inf -> v = origin).
  { intros v Hv.
    destruct (nth_setitem_cases (repeat Float.inf n) v origin (Float.fin 0) Float.inf)
      as [Hsame | [-> _]]; [| reflexivity].
    rewrite Hsame, nth_repeat_default in Hv; contradiction. }
  unfold search_tree, wf_state, parent_links; cbn [visited dist parent].
  split; [| split; [| split; [| split; [| split; [| split]]]]].
  - rewrite setitem_length, !repeat_length; repeat split.
  - apply nth_setitem_eq; rewrite repeat_length; exact Horigin.
  - apply nth_repeat_default.
  - intros v Hv; left; apply Hfin, Hv.
  - intros v u Hv; rewrite nth_repeat_default in Hv; discriminate Hv.
  - intros v Hv Hne; exfalso; apply Hne, Hfin, Hv.
  - intros u Hu; rewrite nth_repeat_default in Hu; discriminate Hu.
Qed.

Lemma Forall_seq_lt (n : nat) : Forall (fun v => (v < n)%nat) (seq 0 n).
Proof. apply Forall_forall; intros v Hv; apply in_seq in Hv; lia. Qed.

(** Visiting the closest unvisited vertex keeps the search tree. *)
Lemma visit_search_tree (matrix : PathMatrix.t) (origin m : nat) (st : dijkstra_state) :
  search_tree matrix origin st ->
  nth m (dist st) Float.inf <> Float.inf ->
  let st1 := {| visited := setitem (visited st) m true; dist := dist st;
                parent := parent st |} in
  search_tree matrix origin st1
  /\ nth m (visited st1) false = true
  /\ nth origin (visited st1) false = true.
Proof.
  intros [[Hlv [Hld Hlp]] [Hdo [Hpo [Hfin [Hlinks [Hpar Hvd]]]]]] Hm st1.
  assert (Hmn : (m < length (visited st))%nat)
    by (rewrite Hlv, <- Hld; apply nth_finite_in_range, Hm).
  assert (Hmv : nth m (visited st1) false = true) by (apply nth_setitem_eq, Hmn).
  assert (Hov : nth origin (visited st1) false = true).
  { destruct (Hfin m Hm) as [<- | Ho]; [exact Hmv | apply nth_setitem_true, Ho]. }
  split; [| split; assumption].
  subst st1; cbn [visited] in Hmv, Hov.
  unfold search_tree, wf_state, parent_links; cbn [visited dist parent].
  split; [| split; [| split; [| split; [| split; [| split]]]]].
  - rewrite setitem_length; repeat split; assumption.
  - exact Hdo.
  - exact Hpo.
  - intros v _; right; exact Hov.
  - intros v u Hv; destruct (Hlinks v u Hv) as [Hu Hrest].
    split; [apply nth_setitem_true, Hu | exact Hrest].
  - exact Hpar.
  - intros u Hu; destruct (Nat.eq_dec m u) as [<- | Hne]; [exact Hm |].
    rewrite nth_setitem_neq in Hu by exact Hne; apply Hvd, Hu.
Qed.

Lemma find_min_first (st : dijkstra_state) (n m : nat) :
  find_min st (seq 0 n) Float.inf None = Some m ->
  (m < n)%nat /\ nth m (visited st) false = false
  /\ nth m (dist st) Float.inf <> Float.inf.
Proof.
  intros H; pose proof (find_min_spec st (seq 0 n) Float.inf None) as Hspec.
  rewrite H in Hspec; destruct Hspec as [[Hr | [Hin [Hvis Hlt]]] _];
    [intros w E; discriminate E | discriminate Hr |].
  apply in_seq in Hin; split; [lia | split; [exact Hvis |]].
  intros E; rewrite E in Hlt; discriminate Hlt.
Qed.

Lemma dijkstra_loop_search_tree (matrix : PathMatrix.t) (origin rounds : nat)
      (st st' : dijkstra_state) :
  search_tree matrix origin st ->
  dijkstra_loop (PathMatrix.distance_matrix matrix) (length (PathMatrix.stop_ids matrix))
                rounds st = Ok st' ->
  search_tree matrix origin st'.
Proof.
  revert st; induction rounds as [| rounds IH]; intros st Hinv H;
    cbn [dijkstra_loop] in H.
  - injection H as <-; exact Hinv.
  - destruct (find_min st (seq 0 (length (PathMatrix.stop_ids matrix))) Float.inf None)
      as [m |] eqn:Hmin; [| injection H as <-; exact Hinv].
    apply bind_Ok_inv in H as [st2 [Hrelax H]].
    apply find_min_first in Hmin as [_ [_ Hm]].
    destruct (visit_search_tree matrix origin m st Hinv Hm) as [Hinv1 [Hmv Hov]].
    apply (IH st2); [| exact H].
    apply (relax_search_tree matrix origin m _ _ st2 (Forall_seq_lt _) Hmv Hov Hinv1 Hrelax).
Qed.

Lemma dijkstra_search_tree (matrix : PathMatrix.t) (origin : nat) (st : dijkstra_state) :
  (origin < length (PathMatrix.stop_ids matrix))%nat ->
  dijkstra matrix origin = Ok st -> search_tree matrix origin st.
Proof.
  intros Horigin; unfold dijkstra.
  apply dijkstra_loop_search_tree, initial_search_tree, Horigin.
Qed.

Lemma filter_length_mono {A : Type} (f g : A -> bool) (l : list A) :
  (forall y, In y l -> f y = true -> g y = true) ->
  (length (filter f l) <= length (filter g l))%nat.
Proof.
  induction l as [| a l IH]; intros H; simpl; [lia |].
  assert (IH' := IH (fun y Hy => H y (or_intror Hy))).
  destruct (f a) eqn:Ef.
  - rewrite (H a (or_introl eq_refl) Ef); simpl; lia.
  - destruct (g a); simpl; lia.
Qed.

Lemma filter_length_strict {A : Type} (f g : A -> bool) (l : list A) (x : A) :
  (forall y, In y l -> f y = true -> g y = true) ->
  In x l -> f x = false -> g x = true ->
  (length (filter f l) < length (filter g l))%nat.
Proof.
  induction l as [| a l IH]; intros H Hin Hf Hg; simpl; [contradiction |].
  assert (Hmono := filter_length_mono f g l (fun y Hy => H y (or_intror Hy))).
  destruct Hin as [-> | Hin].
  - rewrite Hf, Hg; simpl; lia.
  - specialize (IH (fun y Hy => H y (or_intror Hy)) Hin Hf Hg).
    destruct (f a) eqn:Ef.
    + rewrite (H a (or_introl eq_refl) Ef); simpl; lia.
    + destruct (g a); simpl; lia.
Qed.

Lemma rank_lt_n (st : dijkstra_state) (n v : nat) : (v < n)%nat -> (rank st n v < n)%nat.
Proof.
  intros Hv; unfold rank.
  pose proof (filter_length_lt (closer st v) (seq 0 n) v) as H.
  rewrite length_seq in H; apply H; [apply in_seq; lia |].
  unfold closer; apply Float_ltb_irrefl.
Qed.

Lemma linked_snoc {A : Type} (R : A -> A -> Prop) (l : list A) (x d : A) :
  linked R l -> (l <> [] -> R (last l d) x) -> linked R (l ++ [x]).
Proof.
  induction l as [| a l IH]; intros Hl Hx; [exact I |].
  destruct l as [| b l'].
  - simpl; split; [apply Hx; discriminate | exact I].
  - destruct Hl as [Hab Hl]; split; [exact Hab |].
    apply IH; [exact Hl | intros _; apply Hx; discriminate].
Qed.

Lemma path_sum_snoc (matrix : PathMatrix.t) (w : list nat) (v : nat) (acc : Float.t)
      (d : nat) :
  w <> [] ->
  path_sum matrix (w ++ [v]) acc
  = Float.add (path_sum matrix w acc) (cell matrix (last w d) v).
Proof.
  revert acc; induction w as [| a w IH]; intros acc Hne; [contradiction |].
  destruct w as [| b w']; [reflexivity |].
  change (path_sum matrix (b :: w' ++ [v]) (Float.add acc (cell matrix a b))
          = Float.add (path_sum matrix (b :: w') (Float.add acc (cell matrix a b)))
                      (cell matrix (last (b :: w') d) v)).
  apply (IH (Float.add acc (cell matrix a b))); discriminate.
Qed.

Lemma getitem2_cell (matrix : PathMatrix.t) (i j : nat) (c : Float.t) :
  getitem2 (PathMatrix.distance_matrix matrix) i j = Ok c -> cell matrix i j = c.
Proof.
  unfold getitem2, getitem, cell; intros H.
  destruct (nth_error (PathMatrix.distance_matrix matrix) i) as [row |] eqn:Ei;
    [| discriminate H].
  cbn [bind] in H.
  destruct (nth_error row j) as [x |] eqn:Ej; [| discriminate H].
  injection H as <-.
  rewrite (nth_error_nth _ _ _ Ei); apply nth_error_nth; exact Ej.
Qed.

Lemma reconstruct_chain (matrix : PathMatrix.t) (origin : nat) (st : dijkstra_state) :
  let ids := PathMatrix.stop_ids matrix in
  search_tree matrix origin st ->
  forall (fuel c : nat) (acc : list string),
    nth c (dist st) Float.inf <> Float.inf ->
    (rank st (length ids) c < fuel)%nat ->
    exists w,
      reconstruct fuel ids (parent st) (Some c) acc
      = Returns (Ok (acc ++ map (id_at ids) (rev w)))
      /\ hd_error w = Some origin
      /\ last w origin = c
      /\ linked (edge matrix) w
      /\ exists s dc,
           path_sum matrix w (Float.fin 0) = Float.fin s
           /\ nth c (dist st) Float.inf = Float.fin dc
           /\ (s == dc)%Q.
Proof.
  intros ids Hinv.
  pose proof Hinv as [[Hlv [Hld Hlp]] [Hdo [Hpo [Hfin [Hlinks [Hpar Hvd]]]]]].
  induction fuel as [| fuel IH]; intros c acc Hc Hrank; [lia |].
  assert (Hcn : (c < length ids)%nat)
    by (unfold ids; rewrite <- Hld; apply nth_finite_in_range, Hc).
  cbn [reconstruct].
  rewrite (getitem_in_range ids c EmptyString Hcn); fold (id_at ids c).
  destruct (nth c (parent st) None) as [u |] eqn:Hparent.
  - destruct (Hlinks c u Hparent) as [Hu [du [d [Hdu [Hcell [Hd Hdc]]]]]].
    assert (Hufin : nth u (dist st) Float.inf <> Float.inf) by (rewrite Hdu; discriminate).
    assert (Hun : (u < length ids)%nat)
      by (unfold ids; rewrite <- Hld; apply nth_finite_in_range, Hufin).
    assert (Hlt : Float.ltb (nth u (dist st) Float.inf) (nth c (dist st) Float.inf) = true).
    { rewrite Hdu, Hdc; simpl; apply Qlt_bool_true; lra. }
    assert (Hranks : (rank st (length ids) u < rank st (length ids) c)%nat).
    { unfold rank; apply filter_length_strict with u.
      - intros y _ Hy; unfold closer in *.
        apply Float_lt_trans with (nth u (dist st) Float.inf); assumption.
      - apply in_seq; lia.
      - unfold closer; apply Float_ltb_irrefl.
      - exact Hlt. }
    destruct (IH u (acc ++ [id_at ids c]) Hufin)
      as [w [Hrec [Hhd [Hlast [Hwalk [s [du' [Hsum [Hdu' Hs]]]]]]]]]; [lia |].
    exists (w ++ [c]).
    rewrite Hrec, rev_app_distr; cbn [rev app map].
    rewrite <- app_assoc; cbn [app].
    split; [reflexivity |].
    destruct w as [| a w']; [discriminate Hhd |].
    split; [exact Hhd |].
    split; [apply last_last |].
    split.
    + apply linked_snoc with origin; [exact Hwalk |].
      intros _; rewrite Hlast; exists d; split; assumption.
    + exists (s + d)%Q, (du + d)%Q.
      rewrite (path_sum_snoc matrix (a :: w') c (Float.fin 0) origin) by discriminate.
      rewrite Hsum, Hlast, (getitem2_cell matrix u c _ Hcell).
      split; [reflexivity | split; [exact Hdc |]].
      rewrite Hdu in Hdu'; injection Hdu' as <-; rewrite Hs; reflexivity.
  - exists [c]; cbn [rev app map].
    destruct (Nat.eq_dec c origin) as [-> | Hne].
    + split; [destruct fuel; reflexivity |].
      split; [reflexivity | split; [reflexivity | split; [exact I |]]].
      exists 0%Q, 0%Q; split; [reflexivity | split; [exact Hdo | reflexivity]].
    + exfalso; apply (Hpar c Hc Hne), Hparent.
Qed.

Lemma last_map {A B : Type} (f : A -> B) (l : list A) (d : A) (d' : B) :
  l <> [] -> last (map f l) d' = f (last l d).
Proof.
  induction l as [| a l IH]; intros Hne; [contradiction |].
  destruct l as [| b l']; [reflexivity |].
  change (last (map f (b :: l')) d' = f (last (b :: l') d)).
  apply IH; discriminate.
Qed.

Lemma find_shortest_path_found (matrix : PathMatrix.t) (origin dest : string) (fuel : nat)
      (st : dijkstra_state) :
  let ids := PathMatrix.stop_ids matrix in
  In origin ids -> In dest ids -> (length ids <= fuel)%nat ->
  dijkstra matrix (position ids origin) = Ok st ->
  nth (position ids dest) (dist st) Float.inf <> Float.inf ->
  exists w,
    find_shortest_path fuel matrix origin dest = Returns (Some (map (id_at ids) w))
    /\ hd_error w = Some (position ids origin)
    /\ last w (position ids origin) = position ids dest
    /\ linked (edge matrix) w
    /\ exists s dc,
         path_sum matrix w (Float.fin 0) = Float.fin s
         /\ nth (position ids dest) (dist st) Float.inf = Float.fin dc
         /\ (s == dc)%Q.
Proof.
  intros ids Ho Hd Hfuel Hst Hfin.
  assert (Hon : (position ids origin < length ids)%nat) by (apply position_spec, Ho).
  pose proof (dijkstra_search_tree matrix _ st Hon Hst) as Hinv.
  assert (Hdn : (position ids dest < length ids)%nat) by (apply position_spec, Hd).
  destruct (reconstruct_chain matrix _ st Hinv fuel (position ids dest) [] Hfin)
    as [w [Hrec Hw]].
  { pose proof (rank_lt_n st (length ids) (position ids dest) Hdn); fold ids; lia. }
  exists w; split; [| exact Hw].
  unfold find_shortest_path; fold ids.
  rewrite (proj2 (mem_In origin ids) Ho), (proj2 (mem_In dest ids) Hd); cbn [negb orb].
  rewrite (index_present origin ids Ho), (index_present dest ids Hd); cbn [bind].
  rewrite Hst; cbn [bind].
  destruct (nth (position ids dest) (dist st) Float.inf) eqn:E; [| contradiction].
  cbn [Float.is_inf]; fold ids in Hrec; rewrite Hrec; cbn [app].
  rewrite <- map_rev, rev_involutive; reflexivity.
Qed.

(** The search needs no more fuel than there are stops, and a path it
    returns leads from the origin to the destination along edges. *)
Lemma find_shortest_path_cases (matrix : PathMatrix.t) (origin dest : string) (fuel : nat) :
  let ids := PathMatrix.stop_ids matrix in
  (length ids <= fuel)%nat ->
  find_shortest_path fuel matrix origin dest = Returns None
  \/ exists w,
       find_shortest_path fuel matrix origin dest = Returns (Some (map (id_at ids) w))
       /\ In origin ids /\ In dest ids
       /\ hd_error w = Some (position ids origin)
       /\ last w (position ids origin) = position ids dest
       /\ linked (edge matrix) w.
Proof.
  intros ids Hfuel.
  destruct (mem origin ids) eqn:Eo;
    [| left; unfold find_shortest_path; fold ids; rewrite Eo; reflexivity].
  destruct (mem dest ids) eqn:Ed;
    [| left; unfold find_shortest_path; fold ids; rewrite Eo, Ed; reflexivity].
  apply mem_In in Eo, Ed.
  destruct (dijkstra matrix (position ids origin)) as [st |] eqn:Hst.
  - destruct (nth (position ids dest) (dist st) Float.inf) as [q |] eqn:E.
    + right.
      destruct (find_shortest_path_found matrix origin dest fuel st Eo Ed Hfuel Hst)
        as [w [Hw Hrest]]; [fold ids; rewrite E; discriminate |].
      destruct Hrest as [Hhd [Hlast [Hwalk _]]].
      exists w; split; [exact Hw | split; [exact Eo | split; [exact Ed |]]].
      repeat split; assumption.
    + left; apply find_shortest_path_inv; [exact Eo | exact Ed |].
      fold ids; intros st' Hst'; rewrite Hst in Hst'; injection Hst' as <-; exact E.
  - left; apply find_shortest_path_inv; [exact Eo | exact Ed |].
    fold ids; intros st' Hst'; rewrite Hst in Hst'; discriminate Hst'.
Qed.

(** X1.  For every path matrix and every fuel of at least the number of its
    stops, the search of [find_shortest_path] ends (it does not run out of
    fuel), and a path it returns starts at the origin id, ends at the
    destination id and is the id list of a walk along positive finite cells
    of the distance matrix. *)
Theorem shortest_path_is_a_walk :
  forall (matrix : PathMatrix.t) (origin dest : string) (fuel : nat) (path : list string),
    (length (PathMatrix.stop_ids matrix) <= fuel)%nat ->
    find_shortest_path fuel matrix origin dest <> OutOfFuel
    /\ (find_shortest_path fuel matrix origin dest = Returns (Some path) ->
        hd_error path = Some origin
        /\ last path EmptyString = dest
        /\ exists w,
             path = map (id_at (PathMatrix.stop_ids matrix)) w
             /\ linked (edge matrix) w).
Proof.
  intros matrix origin dest fuel path Hfuel.
  destruct (find_shortest_path_cases matrix origin dest fuel Hfuel)
    as [H | [w [H [Ho [Hd [Hhd [Hlast Hwalk]]]]]]]; rewrite H.
  - split; [discriminate | intros E; discriminate E].
  - split; [discriminate |].
    intros E; injection E as <-.
    destruct w as [| a w']; [discriminate Hhd |].
    split; [| split].
    + injection Hhd as ->; cbn [map hd_error]; f_equal; apply position_spec, Ho.
    + rewrite (last_map _ _ (position (PathMatrix.stop_ids matrix) origin)) by discriminate.
      rewrite Hlast; apply position_spec, Hd.
    + exists (a :: w'); split; [reflexivity | exact Hwalk].
Qed.

Lemma shortest_path_is_a_walk_witness :
  find_shortest_path 3 Samples.triangle "a" "b" = Returns (Some ["a"; "b"]%string)
  /\ hd_error ["a"; "b"]%string = Some "a"%string
  /\ last ["a"; "b"]%string EmptyString = "b"%string.
Proof.
  assert (E : find_shortest_path 3 Samples.triangle "a" "b" = Returns (Some ["a"; "b"]%string))
    by (vm_compute; reflexivity).
  split; [exact E |].
  destruct (proj2 (shortest_path_is_a_walk Samples.triangle "a" "b" 3 ["a"; "b"]%string
                     (le_n 3)) E) as [Hhd [Hlast _]].
  split; assumption.
Defined.

Lemma Float_le_refl (a : Float.t) : Float.le a a.
Proof. apply Float_ltb_irrefl. Qed.

Lemma Float_le_inf (a : Float.t) : Float.le a Float.inf.
Proof. reflexivity. Qed.

Lemma Float_le_fin (x y : Q) : Float.le (Float.fin x) (Float.fin y) <-> (x <= y)%Q.
Proof. unfold Float.le; simpl; apply Qlt_bool_false. Qed.

Lemma Float_le_transitive (a b c : Float.t) : Float.le a b -> Float.le b c -> Float.le a c.
Proof. unfold Float.le; intros Hab Hbc; apply Float_le_trans with b; assumption. Qed.

Lemma Float_le_add (a b : Float.t) (d : Q) :
  Float.le a b -> Float.le (Float.add a (Float.fin d)) (Float.add b (Float.fin d)).
Proof.
  destruct a as [x |], b as [y |]; simpl; try reflexivity.
  - rewrite !Float_le_fin; intros H; lra.
  - intros H; discriminate H.
Qed.

Lemma Float_le_add_r (a : Float.t) (d : Q) :
  (0 <= d)%Q -> Float.le a (Float.add a (Float.fin d)).
Proof.
  destruct a as [x |]; simpl; [| reflexivity].
  rewrite Float_le_fin; intros H; lra.
Qed.

(** What a pass of [relax] from a visited vertex [u] does to the distances. *)
Lemma relax_distances (matrix : PathMatrix.t) (u : nat) (du : Q) (vs : list nat)
      (st st' : dijkstra_state) :
  Forall (fun v => (v < length (dist st))%nat) vs ->
  nth u (visited st) false = true ->
  nth u (dist st) Float.inf = Float.fin du ->
  relax (PathMatrix.distance_matrix matrix) u vs st = Ok st' ->
  visited st' = visited st
  /\ length (dist st') = length (dist st)
  /\ (forall w, nth w (visited st) false = true ->
                nth w (dist st') Float.inf = nth w (dist st) Float.inf)
  /\ (forall w, Float.le (nth w (dist st') Float.inf) (nth w (dist st) Float.inf))
  /\ (forall w, Float.le (Float.fin du) (nth w (dist st) Float.inf) ->
                Float.le (Float.fin du) (nth w (dist st') Float.inf))
  /\ (forall v d, In v vs -> nth v (visited st) false = false ->
                  getitem2 (PathMatrix.distance_matrix matrix) u v = Ok (Float.fin d) ->
                  (0 < d)%Q ->
                  Float.le (nth v (dist st') Float.inf) (Float.fin (du + d))).
Proof.
  revert st; induction vs as [| v vs IH]; intros st Hvs Hu Hdu H; cbn [relax] in H.
  - injection H as <-.
    repeat split; try reflexivity; try (intros; apply Float_le_refl); try (intros; assumption).
    intros v d [].
  - inversion Hvs as [| ? ? Hv Hvs']; subst.
    destruct (nth v (visited st) false) eqn:Hvis.
    { destruct (IH st Hvs' Hu Hdu H) as [Ha [Hb [Hc [Hd [He Hf]]]]].
      repeat split; try assumption.
      intros v' d [<- | Hin] Hv' Hcell Hpos; [congruence | apply Hf; assumption]. }
    apply bind_Ok_inv in H as [c [Hc H]].
    rewrite Hdu in H.
    destruct (Float.ltb (Float.fin 0) c
              && Float.ltb (Float.add (Float.fin du) c) (nth v (dist st) Float.inf)) eqn:E.
    + apply andb_prop in E as [Hpos Hless].
      destruct c as [q |]; [| discriminate Hless].
      simpl in Hpos; apply Qlt_bool_true in Hpos.
      assert (Hvu : v <> u) by (intros ->; congruence).
      apply IH in H; cbn [visited dist parent] in *.
      * destruct H as [Ha [Hb [Hc' [Hd [He Hf]]]]].
        rewrite setitem_length in Hb.
        split; [exact Ha | split; [exact Hb |]].
        split; [| split; [| split]].
        -- intros w Hw; rewrite (Hc' w Hw).
           apply nth_setitem_neq; intros ->; congruence.
        -- intros w; apply Float_le_transitive with (1 := Hd w).
           destruct (Nat.eq_dec v w) as [<- | Hne].
           ++ rewrite nth_setitem_eq by exact Hv.
              simpl in Hless; unfold Float.le; apply Float_lt_le; exact Hless.
           ++ rewrite nth_setitem_neq by exact Hne; apply Float_le_refl.
        -- intros w Hw; apply He.
           destruct (Nat.eq_dec v w) as [<- | Hne].
           ++ rewrite nth_setitem_eq by exact Hv; simpl.
              apply Float_le_fin; lra.
           ++ rewrite nth_setitem_neq by exact Hne; exact Hw.
        -- intros v' d [<- | Hin] Hv' Hcell Hd0.
           ++ rewrite Hc in Hcell; injection Hcell as <-.
              apply Float_le_transitive with (1 := Hd v).
              rewrite nth_setitem_eq by exact Hv; apply Float_le_refl.
           ++ apply Hf; assumption.
      * rewrite setitem_length; exact Hvs'.
      * exact Hu.
      * rewrite nth_setitem_neq by exact Hvu; exact Hdu.
    + destruct (IH st Hvs' Hu Hdu H) as [Ha [Hb [Hc' [Hd [He Hf]]]]].
      repeat split; try assumption.
      intros v' d [<- | Hin] Hv' Hcell Hd0; [| apply Hf; assumption].
      rewrite Hc in Hcell; injection Hcell as ->.
      apply Float_le_transitive with (1 := Hd v).
      apply andb_false_iff in E as [E | E].
      * simpl in E; apply Qlt_bool_false in E; lra.
      * exact E.
Qed.

Lemma getitem_Ok_in_range {A : Type} (l : list A) (i : nat) (a : A) :
  getitem l i = Ok a -> (i < length l)%nat /\ In a l.
Proof.
  unfold getitem; destruct (nth_error l i) eqn:E; intros H; [| discriminate H].
  injection H as <-; split; [apply nth_error_Some; congruence | apply (nth_error_In _ _ E)].
Qed.

Lemma getitem2_Ok_in_range (matrix : PathMatrix.t) (i j : nat) (c : Float.t) :
  square_matrix matrix ->
  getitem2 (PathMatrix.distance_matrix matrix) i j = Ok c ->
  (i < length (PathMatrix.stop_ids matrix))%nat /\ (j < length (PathMatrix.stop_ids matrix))%nat.
Proof.
  intros [Hrows Hcols] H; unfold getitem2 in H.
  apply bind_Ok_inv in H as [row [Hrow H]].
  apply getitem_Ok_in_range in Hrow as [Hi Hin], H as [Hj _].
  rewrite Forall_forall in Hcols; rewrite (Hcols row Hin) in Hj; lia.
Qed.

Lemma relax_total (matrix : PathMatrix.t) (u : nat) (vs : list nat) (st : dijkstra_state) :
  square_matrix matrix ->
  (u < length (PathMatrix.stop_ids matrix))%nat ->
  Forall (fun v => (v < length (PathMatrix.stop_ids matrix))%nat) vs ->
  exists st', relax (PathMatrix.distance_matrix matrix) u vs st = Ok st'.
Proof.
  intros Hsq Hu; revert st; induction vs as [| v vs IH]; intros st Hvs; cbn [relax].
  - exists st; reflexivity.
  - inversion Hvs as [| ? ? Hv Hvs']; subst.
    destruct (nth v (visited st) false); [apply IH, Hvs' |].
    rewrite (getitem2_in_range matrix u v Hsq Hu Hv); cbn [bind].
    destruct (_ && _); apply IH, Hvs'.
Qed.

(** One round of the search keeps [settled]. *)
Lemma round_settled (matrix : PathMatrix.t) (origin u : nat) (st st2 : dijkstra_state) :
  let n := length (PathMatrix.stop_ids matrix) in
  square_matrix matrix ->
  search_tree matrix origin st ->
  settled matrix st ->
  find_min st (seq 0 n) Float.inf None = Some u ->
  relax (PathMatrix.distance_matrix matrix) u (seq 0 n)
        {| visited := setitem (visited st) u true; dist := dist st; parent := parent st |}
  = Ok st2 ->
  settled matrix st2.
Proof.
  intros n Hsq Hinv [HO2 HO3] Hmin Hrelax.
  pose proof Hinv as [[Hlv [Hld Hlp]] _].
  pose proof (find_min_spec st (seq 0 n) Float.inf None) as Hspec.
  rewrite Hmin in Hspec.
  destruct Hspec as [[Hr | [Hin [Hvis Hlt]]] [_ Hleast]];
    [intros w E; discriminate E | discriminate Hr |].
  apply in_seq in Hin.
  destruct (nth u (dist st) Float.inf) as [du |] eqn:Hdu; [| discriminate Hlt].
  assert (Hleast' : forall y, nth y (visited st) false = false ->
                              Float.le (Float.fin du) (nth y (dist st) Float.inf)).
  { intros y Hy; destruct (Nat.lt_ge_cases y n) as [Hyn | Hyn].
    - apply Hleast; [apply in_seq; lia | exact Hy].
    - rewrite (nth_overflow (dist st)) by (rewrite Hld; exact Hyn).
      apply Float_le_inf. }
  assert (Hun : (u < length (visited st))%nat) by (rewrite Hlv; fold n; lia).
  set (st1 := {| visited := setitem (visited st) u true; dist := dist st;
                 parent := parent st |}) in *.
  destruct (relax_distances matrix u du (seq 0 n) st1 st2) as [Ha [Hb [Hc [Hd [He Hf]]]]].
  - cbn [dist st1]; rewrite Hld; apply Forall_seq_lt.
  - apply nth_setitem_eq, Hun.
  - exact Hdu.
  - exact Hrelax.
  - cbn [visited dist st1] in *.
    assert (Hold : forall x, nth x (setitem (visited st) u true) false = true ->
                             x = u \/ nth x (visited st) false = true).
    { intros x Hx; destruct (Nat.eq_dec u x) as [-> | Hne]; [left; reflexivity |].
      right; rewrite nth_setitem_neq in Hx by exact Hne; exact Hx. }
    assert (Hdux : forall x, nth x (setitem (visited st) u true) false = true ->
                             Float.le (nth x (dist st2) Float.inf) (Float.fin du)).
    { intros x Hx; rewrite (Hc x Hx).
      destruct (Hold x Hx) as [-> | Hx']; [rewrite Hdu; apply Float_le_refl |].
      rewrite <- Hdu; apply HO3; assumption. }
    split.
    + intros x v d Hx Hcell Hpos; rewrite Ha in Hx.
      rewrite (Hc x Hx).
      destruct (getitem2_Ok_in_range matrix x v _ Hsq Hcell) as [_ Hvn].
      destruct (Hold x Hx) as [-> | Hx'].
      * rewrite Hdu; cbn [Float.add].
        destruct (nth v (setitem (visited st) u true) false) eqn:Hv.
        -- apply Float_le_transitive with (1 := Hdux v Hv).
           apply Float_le_fin; lra.
        -- apply Hf; [apply in_seq; fold n; lia | exact Hv | exact Hcell | exact Hpos].
      * apply Float_le_transitive with (1 := Hd v).
        apply HO2; assumption.
    + intros x y Hx Hy; rewrite Ha in Hx, Hy.
      apply Float_le_transitive with (1 := Hdux x Hx).
      apply He, Hleast'.
      destruct (Nat.eq_dec u y) as [-> | Hne].
      * rewrite nth_setitem_eq in Hy by exact Hun; discriminate Hy.
      * rewrite nth_setitem_neq in Hy by exact Hne; exact Hy.
Qed.

Lemma unvisited_count_visit (n u : nat) (st st2 : dijkstra_state) :
  (u < length (visited st))%nat -> (u < n)%nat ->
  nth u (visited st) false = false ->
  visited st2 = setitem (visited st) u true ->
  (unvisited_count n st2 < unvisited_count n st)%nat.
Proof.
  intros Hlen Hu Hvis Hst2; unfold unvisited_count; rewrite Hst2.
  apply filter_length_strict with u.
  - intros y _ Hy; apply negb_true_iff in Hy; apply negb_true_iff.
    destruct (nth y (visited st) false) eqn:E; [| reflexivity].
    rewrite (nth_setitem_true _ u y E) in Hy; discriminate Hy.
  - apply in_seq; lia.
  - apply negb_false_iff, nth_setitem_eq, Hlen.
  - rewrite Hvis; reflexivity.
Qed.

(** On a square matrix the search runs to its end: the final state is a
    search tree, it is settled, and every vertex at finite distance has
    been visited. *)
Lemma dijkstra_loop_complete (matrix : PathMatrix.t) (origin rounds : nat)
      (st : dijkstra_state) :
  let n := length (PathMatrix.stop_ids matrix) in
  square_matrix matrix ->
  search_tree matrix origin st ->
  settled matrix st ->
  (unvisited_count n st <= rounds)%nat ->
  exists st',
    dijkstra_loop (PathMatrix.distance_matrix matrix) n rounds st = Ok st'
    /\ search_tree matrix origin st'
    /\ settled matrix st'
    /\ (forall v, nth v (dist st') Float.inf <> Float.inf ->
                  nth v (visited st') false = true).
Proof.
  intros n Hsq; revert st; induction rounds as [| rounds IH]; intros st Hinv Hset Hcount;
    cbn [dijkstra_loop]; pose proof Hinv as [[Hlv [Hld Hlp]] _].
  - exists st; split; [reflexivity | split; [exact Hinv | split; [exact Hset |]]].
    intros v Hv; apply nth_finite_in_range in Hv; rewrite Hld in Hv.
    assert (Hnil : filter (fun v => negb (nth v (visited st) false)) (seq 0 n) = []).
    { unfold unvisited_count in Hcount.
      destruct (filter _ (seq 0 n)); [reflexivity | simpl in Hcount; lia]. }
    destruct (nth v (visited st) false) eqn:E; [reflexivity |].
    assert (Hin : In v (filter (fun v => negb (nth v (visited st) false)) (seq 0 n))).
    { apply filter_In; split; [apply in_seq; fold n; lia | rewrite E; reflexivity]. }
    rewrite Hnil in Hin; contradiction.
  - destruct (find_min st (seq 0 n) Float.inf None) as [u |] eqn:Hmin.
    + destruct (find_min_first st n u Hmin) as [Hun [Hvis Hfin]].
      destruct (visit_search_tree matrix origin u st Hinv Hfin) as [Hinv1 [Hu1 Ho1]].
      set (st1 := {| visited := setitem (visited st) u true; dist := dist st;
                     parent := parent st |}) in *.
      destruct (relax_total matrix u (seq 0 n) st1 Hsq Hun (Forall_seq_lt n))
        as [st2 Hrelax].
      rewrite Hrelax; cbn [bind].
      apply IH.
      * apply (relax_search_tree matrix origin u (seq 0 n) st1 st2 (Forall_seq_lt n)
                 Hu1 Ho1 Hinv1 Hrelax).
      * apply (round_settled matrix origin u st st2 Hsq Hinv Hset Hmin Hrelax).
      * assert (Hlt : (unvisited_count n st2 < unvisited_count n st)%nat).
        { apply unvisited_count_visit with u; [rewrite Hlv; exact Hun | exact Hun
                                               | exact Hvis |].
          apply (relax_visited _ _ _ _ _ Hrelax). }
        lia.
    + exists st; split; [reflexivity | split; [exact Hinv | split; [exact Hset |]]].
      intros v Hv; pose proof (nth_finite_in_range _ _ Hv) as Hvn; rewrite Hld in Hvn.
      pose proof (find_min_spec st (seq 0 n) Float.inf None) as Hspec.
      rewrite Hmin in Hspec; destruct Hspec as [_ Hall]; [intros w E; discriminate E |].
      destruct (nth v (visited st) false) eqn:E; [reflexivity |].
      exfalso; apply Hv, Float_le_inf_l, Hall; [apply in_seq; fold n; lia | exact E].
Qed.

Lemma dijkstra_complete (matrix : PathMatrix.t) (origin : nat) :
  square_matrix matrix ->
  (origin < length (PathMatrix.stop_ids matrix))%nat ->
  exists st,
    dijkstra matrix origin = Ok st
    /\ search_tree matrix origin st
    /\ settled matrix st
    /\ (forall v, nth v (dist st) Float.inf <> Float.inf ->
                  nth v (visited st) false = true).
Proof.
  intros Hsq Horigin; unfold dijkstra.
  apply dijkstra_loop_complete; [exact Hsq | apply initial_search_tree, Horigin | |].
  - split; cbn [visited dist].
    + intros x v d Hx; rewrite nth_repeat_default in Hx; discriminate Hx.
    + intros x y Hx; rewrite nth_repeat_default in Hx; discriminate Hx.
  - unfold unvisited_count.
    pose proof (filter_length_le
                  (fun v => negb (nth v (repeat false (length (PathMatrix.stop_ids matrix)))
                                      false))
                  (seq 0 (length (PathMatrix.stop_ids matrix)))) as H.
    rewrite length_seq in H; exact H.
Qed.

Lemma linked_snoc_inv {A : Type} (R : A -> A -> Prop) (l : list A) (x d : A) :
  linked R (l ++ [x]) -> linked R l /\ (l <> [] -> R (last l d) x).
Proof.
  induction l as [| a l IH]; intros H; [split; [exact I | intros E; contradiction] |].
  destruct l as [| b l'].
  - destruct H as [H _]; split; [exact I | intros _; exact H].
  - destruct H as [Hab H]; destruct (IH H) as [Hl Hx].
    split; [split; assumption | intros _; apply Hx; discriminate].
Qed.

(** In a settled state whose origin is at distance at most 0, no walk from
    the origin is shorter than the distance recorded for a visited vertex. *)
Lemma settled_lower_bound (matrix : PathMatrix.t) (origin : nat) (st : dijkstra_state) :
  settled matrix st ->
  Float.le (nth origin (dist st) Float.inf) (Float.fin 0) ->
  forall w,
    hd_error w = Some origin -> linked (edge matrix) w ->
    let v := last w origin in
    let len := path_sum matrix w (Float.fin 0) in
    (nth v (visited st) false = true -> Float.le (nth v (dist st) Float.inf) len)
    /\ (nth v (visited st) false = false ->
        exists y, nth y (visited st) false = false
                  /\ Float.le (nth y (dist st) Float.inf) len).
Proof.
  intros [HO2 HO3] Horigin w; induction w as [| v w0 IH] using rev_ind;
    [intros H; discriminate H |].
  intros Hhd Hwalk.
  destruct w0 as [| a w0'].
  - injection Hhd as ->; cbn [app last path_sum].
    split; [intros _; exact Horigin | intros Hv; exists origin; split; assumption].
  - apply (linked_snoc_inv _ _ _ origin) in Hwalk as [Hwalk0 Hedge].
    specialize (Hedge ltac:(discriminate)).
    specialize (IH Hhd Hwalk0); cbv zeta in IH |- *.
    rewrite last_last.
    rewrite (path_sum_snoc matrix (a :: w0') v (Float.fin 0) origin) by discriminate.
    set (x := last (a :: w0') origin) in *.
    set (len0 := path_sum matrix (a :: w0') (Float.fin 0)) in *.
    destruct Hedge as [d [Hcell Hpos]].
    rewrite (getitem2_cell matrix x v _ Hcell).
    destruct IH as [IHv IHu].
    assert (Hgrow : Float.le len0 (Float.add len0 (Float.fin d)))
      by (apply Float_le_add_r; lra).
    destruct (nth x (visited st) false) eqn:Hx.
    + assert (Hv : Float.le (nth v (dist st) Float.inf) (Float.add len0 (Float.fin d))).
      { apply Float_le_transitive with (1 := HO2 x v d Hx Hcell Hpos).
        apply Float_le_add, IHv; reflexivity. }
      split; [intros _; exact Hv | intros Hvu; exists v; split; assumption].
    + destruct (IHu eq_refl) as [y [Hy Hle]].
      assert (Hy' : Float.le (nth y (dist st) Float.inf) (Float.add len0 (Float.fin d)))
        by (apply Float_le_transitive with (1 := Hle), Hgrow).
      split; [| intros _; exists y; split; assumption].
      intros Hv; apply Float_le_transitive with (2 := Hy'); apply HO3; assumption.
Qed.

Lemma last_default {A : Type} (l : list A) (d d' : A) : l <> [] -> last l d = last l d'.
Proof.
  induction l as [| a l IH]; intros Hne; [contradiction |].
  destruct l as [| b l']; [reflexivity |].
  change (last (b :: l') d = last (b :: l') d'); apply IH; discriminate.
Qed.

Lemma settled_reachable_finite (matrix : PathMatrix.t) (origin : nat) (st : dijkstra_state) :
  search_tree matrix origin st ->
  settled matrix st ->
  (forall v, nth v (dist st) Float.inf <> Float.inf -> nth v (visited st) false = true) ->
  forall v, reachable matrix origin v -> nth v (dist st) Float.inf <> Float.inf.
Proof.
  intros [_ [Hdo _]] [HO2 _] Hdone v Hv; induction Hv as [| u v _ IH [d [Hcell Hpos]]].
  - rewrite Hdo; discriminate.
  - specialize (HO2 u v d (Hdone u IH) Hcell Hpos).
    destruct (nth u (dist st) Float.inf) as [du |]; [| contradiction].
    intros E; rewrite E in HO2; discriminate HO2.
Qed.

(** The search on a square matrix: either the destination cannot be
    reached and the answer is [None], or the answer is a walk from the
    origin to the destination that no other such walk undercuts. *)
Lemma find_shortest_path_correct (matrix : PathMatrix.t) (origin dest : string)
      (fuel : nat) :
  let ids := PathMatrix.stop_ids matrix in
  square_matrix matrix -> In origin ids -> In dest ids -> (length ids <= fuel)%nat ->
  (find_shortest_path fuel matrix origin dest = Returns None
   /\ ~ reachable matrix (position ids origin) (position ids dest))
  \/ (reachable matrix (position ids origin) (position ids dest)
      /\ exists w,
           find_shortest_path fuel matrix origin dest = Returns (Some (map (id_at ids) w))
           /\ hd_error w = Some (position ids origin)
           /\ last w O = position ids dest
           /\ linked (edge matrix) w
           /\ forall w',
                hd_error w' = Some (position ids origin) ->
                last w' O = position ids dest ->
                linked (edge matrix) w' ->
                Float.le (path_sum matrix w (Float.fin 0))
                         (path_sum matrix w' (Float.fin 0))).
Proof.
  intros ids Hsq Ho Hd Hfuel.
  assert (Hon : (position ids origin < length ids)%nat) by (apply position_spec, Ho).
  destruct (dijkstra_complete matrix (position ids origin) Hsq Hon)
    as [st [Hst [Hinv [Hset Hdone]]]].
  destruct (nth (position ids dest) (dist st) Float.inf) as [dc |] eqn:E.
  - right; split.
    { apply (dijkstra_reachable matrix _ st Hst); fold ids; rewrite E; discriminate. }
    destruct (find_shortest_path_found matrix origin dest fuel st Ho Hd Hfuel Hst)
      as [w [Hw [Hhd [Hlast [Hwalk [s [dc' [Hsum [Hdc Hs]]]]]]]]];
      [fold ids; rewrite E; discriminate |].
    fold ids in Hdc; rewrite E in Hdc; injection Hdc as <-.
    assert (Hne : w <> []) by (intros ->; discriminate Hhd).
    exists w; split; [exact Hw | split; [exact Hhd | split; [| split; [exact Hwalk |]]]].
    + rewrite (last_default w _ (position ids origin) Hne); exact Hlast.
    + intros w' Hhd' Hlast' Hwalk'.
      assert (Hne' : w' <> []) by (intros ->; discriminate Hhd').
      destruct Hinv as [_ [Hdo _]].
      destruct (settled_lower_bound matrix (position ids origin) st Hset) with (w := w')
        as [Hbound _]; [rewrite Hdo; apply Float_le_refl | exact Hhd' | exact Hwalk' |].
      rewrite (last_default w' _ O Hne'), Hlast' in Hbound.
      rewrite Hsum.
      apply Float_le_transitive with (Float.fin dc); [apply Float_le_fin; lra |].
      rewrite <- E; apply Hbound, Hdone; fold ids; rewrite E; discriminate.
  - left; split.
    + apply find_shortest_path_inv; [exact Ho | exact Hd |].
      fold ids; intros st' Hst'; rewrite Hst in Hst'; injection Hst' as <-; exact E.
    + intros Hreach.
      apply (settled_reachable_finite matrix _ st Hinv Hset Hdone _ Hreach); exact E.
Qed.

(** X2.  On a square matrix whose finite cells are small enough for the
    sums of the search to stay within the range of a float, with origin and
    destination among its stop ids and fuel of at least the number of
    stops, [find_shortest_path] returns a path exactly when the destination
    can be reached from the origin along positive finite cells of the
    distance matrix. *)
Theorem shortest_path_found_iff_reachable :
  forall (matrix : PathMatrix.t) (origin dest : string) (fuel : nat),
    square_matrix matrix ->
    sums_stay_finite matrix ->
    In origin (PathMatrix.stop_ids matrix) ->
    In dest (PathMatrix.stop_ids matrix) ->
    (length (PathMatrix.stop_ids matrix) <= fuel)%nat ->
    (exists path, find_shortest_path fuel matrix origin dest = Returns (Some path))
    <-> reachable matrix (position (PathMatrix.stop_ids matrix) origin)
                  (position (PathMatrix.stop_ids matrix) dest).
Proof.
  intros matrix origin dest fuel Hsq _ Ho Hd Hfuel.
  destruct (find_shortest_path_correct matrix origin dest fuel Hsq Ho Hd Hfuel)
    as [[Hnone Hunreach] | [Hreach [w [Hw _]]]].
  - split; [intros [path H]; rewrite Hnone in H; discriminate H | intros H; contradiction].
  - split; [intros _; exact Hreach | intros _; eexists; exact Hw].
Qed.

(** X3.  On a square matrix, the path [find_shortest_path] returns is a
    shortest one: it is the id list of a walk from the origin to the
    destination whose sum of distance-matrix cells is at most that of every
    walk from the origin to the destination along positive finite cells. *)
Theorem shortest_path_is_shortest :
  forall (matrix : PathMatrix.t) (origin dest : string) (fuel : nat) (path : list string),
    let ids := PathMatrix.stop_ids matrix in
    square_matrix matrix ->
    (length ids <= fuel)%nat ->
    find_shortest_path fuel matrix origin dest = Returns (Some path) ->
    exists w,
      path = map (id_at ids) w
      /\ hd_error w = Some (position ids origin)
      /\ last w O = position ids dest
      /\ linked (edge matrix) w
      /\ forall w',
           hd_error w' = Some (position ids origin) ->
           last w' O = position ids dest ->
           linked (edge matrix) w' ->
           Float.le (path_sum matrix w (Float.fin 0)) (path_sum matrix w' (Float.fin 0)).
Proof.
  intros matrix origin dest fuel path ids Hsq Hfuel H.
  destruct (find_shortest_path_cases matrix origin dest fuel Hfuel)
    as [Hnone | [w0 [_ [Ho [Hd _]]]]]; [rewrite Hnone in H; discriminate H |].
  destruct (find_shortest_path_correct matrix origin dest fuel Hsq Ho Hd Hfuel)
    as [[Hnone _] | [_ [w [Hw Hrest]]]]; [rewrite Hnone in H; discriminate H |].
  rewrite Hw in H; injection H as <-.
  exists w; split; [reflexivity | exact Hrest].
Qed.

(** X4.  On a square matrix, the shortest path from a stop of the matrix to
    itself is the one-element list of that stop. *)
Theorem shortest_path_to_itself :
  forall (matrix : PathMatrix.t) (origin : string) (fuel : nat),
    square_matrix matrix ->
    In origin (PathMatrix.stop_ids matrix) ->
    (1 <= fuel)%nat ->
    find_shortest_path fuel matrix origin origin = Returns (Some [origin]).
Proof.
  intros matrix origin fuel Hsq Ho Hfuel.
  set (ids := PathMatrix.stop_ids matrix) in *.
  destruct (position_spec origin ids Ho) as [Hid Hon].
  destruct (dijkstra_complete matrix (position ids origin) Hsq Hon)
    as [st [Hst [[_ [Hdo [Hpo _]]] _]]].
  unfold find_shortest_path; fold ids.
  rewrite (proj2 (mem_In origin ids) Ho); cbn [negb orb].
  rewrite (index_present origin ids Ho); cbn [bind].
  rewrite Hst; cbn [bind]; rewrite Hdo; cbn [Float.is_inf].
  destruct fuel as [| fuel]; [lia |].
  cbn [reconstruct].
  rewrite (getitem_in_range ids _ EmptyString Hon); fold (id_at ids (position ids origin)).
  rewrite Hpo, Hid.
  destruct fuel; reflexivity.
Qed.

Lemma triangle_is_square : square_matrix Samples.triangle.
Proof. split; [reflexivity | repeat constructor]. Qed.

Lemma shortest_path_found_iff_reachable_witness :
  (exists path, find_shortest_path 3 Samples.triangle "a" "b" = Returns (Some path))
  <-> reachable Samples.triangle 0 1.
Proof.
  apply (shortest_path_found_iff_reachable Samples.triangle "a" "b" 3).
  - exact triangle_is_square.
  - repeat constructor; vm_compute; discriminate.
  - left; reflexivity.
  - right; left; reflexivity.
  - simpl; lia.
Defined.

Lemma shortest_path_is_shortest_witness :
  exists w,
    ["a"; "b"]%string = map (id_at (PathMatrix.stop_ids Samples.triangle)) w
    /\ hd_error w = Some 0%nat
    /\ last w O = 1%nat
    /\ linked (edge Samples.triangle) w
    /\ forall w',
         hd_error w' = Some 0%nat -> last w' O = 1%nat ->
         linked (edge Samples.triangle) w' ->
         Float.le (path_sum Samples.triangle w (Float.fin 0))
                  (path_sum Samples.triangle w' (Float.fin 0)).
Proof.
  apply (shortest_path_is_shortest Samples.triangle "a" "b" 3 ["a"; "b"]%string).
  - exact triangle_is_square.
  - simpl; lia.
  - vm_compute; reflexivity.
Defined.

Lemma shortest_path_to_itself_witness :
  find_shortest_path 1 Samples.triangle "c" "c" = Returns (Some ["c"%string]).
Proof.
  apply (shortest_path_to_itself Samples.triangle "c" 1).
  - exact triangle_is_square.
  - right; right; left; reflexivity.
  - lia.
Defined.
End ShortestPaths.

(** ** The path matrix *)

Section PathMatrixShape.
Local Open Scope Q_scope.

Lemma enumerate_from_length {A : Type} (l : list A) (i : nat) :
  length (enumerate_from i l) = length l.
Proof.
  revert i; induction l as [| x xs IH]; intros i; simpl; [reflexivity | f_equal; apply IH].
Qed.

Lemma nth_error_enumerate_from {A : Type} (l : list A) (i k : nat) (x : A) :
  nth_error l k = Some x -> nth_error (enumerate_from i l) k = Some ((i + k)%nat, x).
Proof.
  revert i k; induction l as [| a l IH]; intros i [| k] H; simpl in *; try discriminate H.
  - injection H as <-; rewrite Nat.add_0_r; reflexivity.
  - rewrite (IH (S i) k H); do 2 f_equal; lia.
Qed.

Lemma matrix_of_shape {A : Type} (zero : A) (cell : BusStop.t -> BusStop.t -> A)
      (stops : list BusStop.t) :
  length (PathMatrixCalculator.matrix_of zero cell stops) = length stops
  /\ Forall (fun row => length row = length stops)
            (PathMatrixCalculator.matrix_of zero cell stops).
Proof.
  unfold PathMatrixCalculator.matrix_of, enumerate; split.
  - rewrite length_map; apply enumerate_from_length.
  - apply Forall_forall; intros row Hrow.
    apply in_map_iff in Hrow as [i_si [<- _]].
    rewrite length_map; apply enumerate_from_length.
Qed.

Lemma matrix_of_cell {A : Type} (zero : A) (cell : BusStop.t -> BusStop.t -> A)
      (stops : list BusStop.t) (i j : nat) (si sj : BusStop.t) :
  nth_error stops i = Some si -> nth_error stops j = Some sj ->
  getitem2 (PathMatrixCalculator.matrix_of zero cell stops) i j
  = Ok (if Nat.eqb i j then zero else cell si sj).
Proof.
  intros Hi Hj; unfold getitem2, getitem, PathMatrixCalculator.matrix_of, enumerate.
  rewrite nth_error_map, (nth_error_enumerate_from stops 0 i si Hi); cbn [option_map bind].
  rewrite nth_error_map, (nth_error_enumerate_from stops 0 j sj Hj); cbn [option_map fst snd].
  reflexivity.
Qed.

(** X5.  [calculate_path_matrix] lists the stop ids in input order and builds
    two n by n matrices for n stops: on the diagonal both are 0, and off
    the diagonal the distance cell is the distance of the chosen algorithm
    and the time cell the estimated travel time times the traffic factor
    of the two stops. *)
Theorem calculate_path_matrix_shape :
  forall (geo : GeoMetric.t) (stops : list BusStop.t) (algorithm : PathAlgorithm),
    let matrix := PathMatrixCalculator.calculate_path_matrix geo stops algorithm in
    PathMatrix.stop_ids matrix = map BusStop.id stops
    /\ square_matrix matrix
    /\ length (PathMatrix.time_matrix matrix) = length stops
    /\ Forall (fun row => length row = length stops) (PathMatrix.time_matrix matrix)
    /\ forall (i j : nat) (si sj : BusStop.t),
         nth_error stops i = Some si -> nth_error stops j = Some sj ->
         let distance := PathMatrixCalculator._calculate_distance geo si sj algorithm in
         getitem2 (PathMatrix.distance_matrix matrix) i j
         = Ok (if Nat.eqb i j then Float.fin 0 else Float.fin distance)
         /\ getitem2 (PathMatrix.time_matrix matrix) i j
            = Ok (if Nat.eqb i j then 0
                  else PathMatrixCalculator._estimate_travel_time si sj distance
                       * PathMatrixCalculator._get_traffic_factor si sj).
Proof.
  intros geo stops algorithm matrix.
  unfold matrix, PathMatrixCalculator.calculate_path_matrix, square_matrix;
    cbn [PathMatrix.stop_ids PathMatrix.distance_matrix PathMatrix.time_matrix].
  rewrite length_map.
  split; [reflexivity |].
  split; [apply matrix_of_shape |].
  split; [apply matrix_of_shape |].
  split; [apply matrix_of_shape |].
  intros i j si sj Hi Hj; cbv zeta; split.
  - exact (matrix_of_cell (Float.fin 0)
             (fun a b => Float.fin (PathMatrixCalculator._calculate_distance geo a b algorithm))
             stops i j si sj Hi Hj).
  - exact (matrix_of_cell 0
             (fun a b =>
                PathMatrixCalculator._estimate_travel_time
                  a b (PathMatrixCalculator._calculate_distance geo a b algorithm)
                * PathMatrixCalculator._get_traffic_factor a b)
             stops i j si sj Hi Hj).
Qed.

(** X6.  The difficulty score of a segment lies between 0 and 80 for any two
    stops: the cap of 100 in [_calculate_difficulty_score] is never reached. *)
Theorem difficulty_score_at_most_80 :
  forall (geo : GeoMetric.t) (stop1 stop2 : BusStop.t),
    0 <= PathMatrixCalculator._calculate_difficulty_score geo stop1 stop2 <= 80.
Proof.
  intros geo stop1 stop2; unfold PathMatrixCalculator._calculate_difficulty_score.
  destruct (Qlt_bool 10 _); [| destruct (Qlt_bool 5 _)];
    (destruct (negb _ || negb _));
    (destruct (Qlt_bool 8000 _); [| destruct (Qlt_bool 5000 _); [| destruct (Qlt_bool _ 500)]]);
    (destruct (Nat.eqb _ 0); [| destruct (Nat.ltb _ 3)]);
    match goal with
    | |- 0 <= py_min 100 ?x <= 80 =>
        destruct (py_min_spec 100 x) as [[H ->] | [H ->]]; lra
    end.
Qed.

(** X7.  For a non-negative haversine distance, the weighted distance of two
    stops is between 0.81 and 1.27 times that distance. *)
Theorem weighted_distance_within_factor :
  forall (geo : GeoMetric.t) (stop1 stop2 : BusStop.t),
    let base :=
      GeoMetric.haversine_distance geo (BusStop.coordinates stop1)
                                   (BusStop.coordinates stop2) in
    0 <= base ->
    0.81 * base <= PathMatrixCalculator._weighted_distance geo stop1 stop2
    /\ PathMatrixCalculator._weighted_distance geo stop1 stop2 <= 1.27 * base.
Proof.
  intros geo stop1 stop2 base Hbase; unfold PathMatrixCalculator._weighted_distance.
  fold base.
  destruct (BusStop.is_accessible stop1), (BusStop.is_accessible stop2); cbn [andb orb negb];
    (destruct (Qlt_bool 5000 _); [| destruct (Qlt_bool _ 1000)]);
    destruct (Nat.ltb 4 _); lra.
Qed.

Lemma weighted_distance_within_factor_witness :
  let stop1 := Samples.stop "a" 19.00 72.80 1000 true in
  let stop2 := Samples.stop "b" 19.05 72.80 800 false in
  let base :=
    GeoMetric.haversine_distance Samples.geo (BusStop.coordinates stop1)
                                 (BusStop.coordinates stop2) in
  0.81 * base <= PathMatrixCalculator._weighted_distance Samples.geo stop1 stop2
  /\ PathMatrixCalculator._weighted_distance Samples.geo stop1 stop2 <= 1.27 * base.
Proof.
  apply (weighted_distance_within_factor Samples.geo
           (Samples.stop "a" 19.00 72.80 1000 true)
           (Samples.stop "b" 19.05 72.80 800 false)).
  vm_compute; discriminate.
Defined.
End PathMatrixShape.

(** ** The visiting order, whatever the matrix *)

Lemma set_remove_Permutation (x : nat) (s : list nat) :
  In x s -> Permutation (x :: PathMatrixCalculator.set_remove x s) s.
Proof.
  induction s as [| y ys IH]; simpl; intros H; [contradiction |].
  destruct (Nat.eqb x y) eqn:E.
  - apply Nat.eqb_eq in E; subst y; apply Permutation_refl.
  - destruct H as [-> | H]; [rewrite Nat.eqb_refl in E; discriminate E |].
    apply perm_trans with (y :: x :: PathMatrixCalculator.set_remove x ys);
      [apply perm_swap | apply perm_skip, IH, H].
Qed.

(** The loop appends the unvisited stops to the route, in some order. *)
Lemma nn_loop_appends (matrix : PathMatrix.t) (current : nat)
      (unvisited route route' : list nat) :
  PathMatrixCalculator.nn_loop matrix (length unvisited) current unvisited route = Ok route' ->
  exists tail, route' = route ++ tail /\ Permutation tail unvisited.
Proof.
  remember (length unvisited) as rounds eqn:Hrounds.
  revert current unvisited route Hrounds; induction rounds as [| rounds IH];
    intros current unvisited route Hrounds H.
  - destruct unvisited; [| discriminate Hrounds].
    simpl in H; injection H as <-; exists []; rewrite app_nil_r; split; constructor.
  - destruct unvisited as [| x xs]; [discriminate Hrounds |].
    cbn [PathMatrixCalculator.nn_loop] in H.
    apply bind_Ok_inv in H as [d [_ H]].
    apply bind_Ok_inv in H as [nearest [Hnear H]].
    apply nearest_of_In in Hnear.
    pose proof (set_remove_length nearest (x :: xs) Hnear) as Hlen.
    apply IH in H as [tail [-> Htail]]; [| rewrite <- Hrounds in Hlen; lia].
    exists (nearest :: tail); rewrite <- app_assoc; split; [reflexivity |].
    apply perm_trans with (nearest :: PathMatrixCalculator.set_remove nearest (x :: xs));
      [apply perm_skip, Htail | apply set_remove_Permutation, Hnear].
Qed.

Lemma set_add_Permutation (x : nat) (s : list nat) :
  ~ In x s -> Permutation (PathMatrixCalculator.set_add x s) (x :: s).
Proof.
  induction s as [| y ys IH]; simpl; intros H; [apply Permutation_refl |].
  destruct (Nat.ltb x y); [apply Permutation_refl |].
  destruct (Nat.eqb x y) eqn:E.
  - apply Nat.eqb_eq in E; subst y; exfalso; apply H; left; reflexivity.
  - apply perm_trans with (y :: x :: ys); [| apply perm_swap].
    apply perm_skip, IH; intros Hin; apply H; right; exact Hin.
Qed.

Lemma set_of_list_Permutation (l : list nat) :
  NoDup l -> Permutation (PathMatrixCalculator.set_of_list l) l.
Proof.
  unfold PathMatrixCalculator.set_of_list.
  assert (H : forall s, NoDup (s ++ l) ->
                        Permutation (fold_left (fun s x => PathMatrixCalculator.set_add x s) l s)
                                    (s ++ l)).
  { induction l as [| x xs IH]; intros s Hnd; simpl.
    - rewrite app_nil_r; apply Permutation_refl.
    - assert (Hx : ~ In x s).
      { apply NoDup_remove_2 in Hnd; intros Hin; apply Hnd, in_or_app; left; exact Hin. }
      assert (Hperm := set_add_Permutation x s Hx).
      apply perm_trans with (PathMatrixCalculator.set_add x s ++ xs).
      + apply IH.
        apply (Permutation_NoDup (l := (x :: s) ++ xs));
          [apply Permutation_app_tail, Permutation_sym, Hperm |].
        apply (Permutation_NoDup (l := s ++ x :: xs)); [| exact Hnd].
        apply Permutation_sym, (Permutation_middle s xs x).
      + apply perm_trans with ((x :: s) ++ xs); [apply Permutation_app_tail, Hperm |].
        apply (Permutation_middle s xs x). }
  intros Hnd; apply (H [] Hnd).
Qed.

Lemma position_injective (ids : list string) (s t : string) :
  In s ids -> In t ids -> position ids s = position ids t -> s = t.
Proof.
  intros Hs Ht E.
  destruct (position_spec s ids Hs) as [<- _].
  destruct (position_spec t ids Ht) as [<- _].
  rewrite E; reflexivity.
Qed.

Lemma NoDup_map_position (ids l : list string) :
  incl l ids -> NoDup l -> NoDup (map (position ids) l).
Proof.
  induction l as [| s l IH]; intros Hincl Hnd; [constructor |].
  inversion Hnd as [| ? ? Hs Hl]; subst.
  cbn [map]; constructor.
  - intros Hin; apply in_map_iff in Hin as [t [E Ht]].
    apply position_injective in E;
      [subst t; contradiction | apply Hincl; right; exact Ht | apply Hincl; left; reflexivity].
  - apply IH; [intros x Hx; apply Hincl; right; exact Hx | exact Hl].
Qed.

(** What the two searches return, whatever the matrix. *)
Lemma brute_force_tsp_head (matrix : PathMatrix.t) (ids r : list string) :
  PathMatrixCalculator._brute_force_tsp matrix ids = Ok r -> hd_error r = hd_error ids.
Proof.
  unfold PathMatrixCalculator._brute_force_tsp.
  destruct ids as [| first rest]; [intros H; injection H as <-; reflexivity |].
  rewrite indices_of_eq; cbn [bind].
  set (ids := first :: rest) in *.
  set (present := filter _ ids).
  destruct (Nat.eqb (length (map (position (PathMatrix.stop_ids matrix)) present))
                    (length ids)) eqn:Hlen; cbn [negb];
    [| intros H; injection H as <-; reflexivity].
  assert (Hall : present = ids).
  { apply Nat.eqb_eq in Hlen; rewrite length_map in Hlen.
    apply filter_full_length; exact Hlen. }
  rewrite Hall; clear Hlen.
  assert (Hfirst : In first (PathMatrix.stop_ids matrix)).
  { apply mem_In.
    assert (Hin : In first present) by (rewrite Hall; left; reflexivity).
    apply filter_In in Hin as [_ Hin]; exact Hin. }
  unfold ids at 1; cbn [map].
  intros H; apply bind_Ok_inv in H as [order [Hloop Hget]].
  apply mapM_getitem_Ok_inv in Hget; subst r.
  assert (Hhd : hd_error order = Some (position (PathMatrix.stop_ids matrix) first)).
  { apply tsp_loop_shape in Hloop as [-> | [p [_ ->]]]; reflexivity. }
  destruct order as [| i order']; [discriminate Hhd |].
  injection Hhd as ->; unfold ids; cbn [map hd_error]; f_equal.
  apply position_spec, Hfirst.
Qed.

Lemma nearest_neighbor_tsp_permutation (matrix : PathMatrix.t) (ids r : list string) :
  NoDup ids ->
  PathMatrixCalculator._nearest_neighbor_tsp matrix ids = Ok r ->
  Permutation r ids /\ hd_error r = hd_error ids.
Proof.
  intros Hnd; unfold PathMatrixCalculator._nearest_neighbor_tsp.
  destruct ids as [| first rest];
    [intros H; injection H as <-; split; [constructor | reflexivity] |].
  rewrite indices_of_eq; cbn [bind].
  set (ids := first :: rest) in *.
  set (present := filter _ ids).
  destruct (Nat.eqb (length (map (position (PathMatrix.stop_ids matrix)) present))
                    (length ids)) eqn:Hlen; cbn [negb];
    [| intros H; injection H as <-; split; [apply Permutation_refl | reflexivity]].
  assert (Hall : present = ids).
  { apply Nat.eqb_eq in Hlen; rewrite length_map in Hlen.
    apply filter_full_length; exact Hlen. }
  rewrite Hall; clear Hlen.
  assert (Hincl : incl ids (PathMatrix.stop_ids matrix)).
  { intros s Hs; apply mem_In.
    rewrite <- Hall in Hs; apply filter_In in Hs as [_ Hs]; exact Hs. }
  unfold ids at 1; cbn [map].
  intros H; apply bind_Ok_inv in H as [route [Hloop Hget]].
  apply mapM_getitem_Ok_inv in Hget; subst r.
  apply nn_loop_appends in Hloop as [tail [-> Htail]].
  assert (Hpos : NoDup (map (position (PathMatrix.stop_ids matrix)) ids))
    by (apply NoDup_map_position; assumption).
  unfold ids in Hpos; cbn [map] in Hpos; inversion Hpos as [| ? ? _ Hrest]; subst.
  assert (Hperm : Permutation (position (PathMatrix.stop_ids matrix) first :: tail)
                              (map (position (PathMatrix.stop_ids matrix)) ids)).
  { unfold ids; cbn [map]; apply perm_skip.
    apply perm_trans with (1 := Htail), set_of_list_Permutation, Hrest. }
  cbn [app map hd_error]; split.
  - apply (Permutation_map (id_at (PathMatrix.stop_ids matrix))) in Hperm.
    rewrite (map_id_at_position (PathMatrix.stop_ids matrix) ids Hincl) in Hperm.
    exact Hperm.
  - unfold ids; cbn [hd_error]; f_equal; apply position_spec, Hincl; left; reflexivity.
Qed.

(** The order found is a rearrangement; shared with the reordering step of
    the optimisation engine. *)
Lemma find_optimal_route_order_rearranges (matrix : PathMatrix.t) (ids : list string) :
  (length ids <= 8)%nat \/ NoDup ids ->
  Permutation (PathMatrixCalculator.find_optimal_route_order matrix ids) ids
  /\ hd_error (PathMatrixCalculator.find_optimal_route_order matrix ids) = hd_error ids.
Proof.
  intros Hids; unfold PathMatrixCalculator.find_optimal_route_order.
  destruct (Nat.leb (length ids) 2); [split; [apply Permutation_refl | reflexivity] |].
  destruct (Nat.leb (length ids) 8) eqn:Hlen.
  - destruct (PathMatrixCalculator._brute_force_tsp matrix ids) as [r |] eqn:E;
      [| split; [apply Permutation_refl | reflexivity]].
    split; [apply (brute_force_tsp_shape matrix), E | apply (brute_force_tsp_head matrix), E].
  - apply Nat.leb_gt in Hlen.
    destruct Hids as [Hle | Hnd]; [lia |].
    destruct (PathMatrixCalculator._nearest_neighbor_tsp matrix ids) as [r |] eqn:E;
      [| split; [apply Permutation_refl | reflexivity]].
    apply (nearest_neighbor_tsp_permutation matrix); assumption.
Qed.

(** X8.  For any path matrix and any list of stop ids that has at most 8
    entries or no duplicates, [find_optimal_route_order] returns a
    rearrangement of the list that starts with the same stop id, whether
    the search succeeds or falls back to the input order. *)
Theorem find_optimal_route_order_permutation :
  forall (matrix : PathMatrix.t) (ids : list string),
    (length ids <= 8)%nat \/ NoDup ids ->
    Permutation (PathMatrixCalculator.find_optimal_route_order matrix ids) ids
    /\ hd_error (PathMatrixCalculator.find_optimal_route_order matrix ids) = hd_error ids.
Proof.
  intros matrix ids Hids; unfold PathMatrixCalculator.find_optimal_route_order.
  destruct (Nat.leb (length ids) 2); [split; [apply Permutation_refl | reflexivity] |].
  destruct (Nat.leb (length ids) 8) eqn:Hlen.
  - destruct (PathMatrixCalculator._brute_force_tsp matrix ids) as [r |] eqn:E;
      [| split; [apply Permutation_refl | reflexivity]].
    split; [apply (brute_force_tsp_shape matrix), E | apply (brute_force_tsp_head matrix), E].
  - apply Nat.leb_gt in Hlen.
    destruct Hids as [Hle | Hnd]; [lia |].
    destruct (PathMatrixCalculator._nearest_neighbor_tsp matrix ids) as [r |] eqn:E;
      [| split; [apply Permutation_refl | reflexivity]].
    apply (nearest_neighbor_tsp_permutation matrix); assumption.
Qed.

Lemma nearest_of_least (matrix : PathMatrix.t) (current : nat) (candidates : list nat)
      (best : nat) :
  let n := length (PathMatrix.stop_ids matrix) in
  square_matrix matrix -> (current < n)%nat ->
  Forall (fun i => (i < n)%nat) candidates ->
  forall seen,
    (forall c, In c seen -> Float.le (cell matrix current best) (cell matrix current c)) ->
    exists nearest,
      PathMatrixCalculator.nearest_of matrix current candidates best
                                      (cell matrix current best) = Ok nearest
      /\ In nearest (best :: candidates)
      /\ forall c, In c (seen ++ best :: candidates) ->
                   Float.le (cell matrix current nearest) (cell matrix current c).
Proof.
  intros n Hsq Hcur; revert best; induction candidates as [| x xs IH];
    intros best Hrange seen Hseen; cbn [PathMatrixCalculator.nearest_of].
  - exists best; split; [reflexivity | split; [left; reflexivity |]].
    intros c Hc; apply in_app_or in Hc as [Hc | [<- | []]];
      [apply Hseen, Hc | apply Float_le_refl].
  - inversion Hrange as [| ? ? Hx Hxs]; subst.
    rewrite (getitem2_in_range matrix current x Hsq Hcur Hx); cbn [bind].
    destruct (Float.ltb (cell matrix current x) (cell matrix current best)) eqn:E.
    + destruct (IH x Hxs (seen ++ [best])) as [nearest [Hn [Hin Hleast]]].
      { intros c Hc; apply in_app_or in Hc as [Hc | [<- | []]].
        - apply Float_le_transitive with (cell matrix current best);
            [apply Float_lt_le, E | apply Hseen, Hc].
        - apply Float_lt_le, E. }
      exists nearest; split; [exact Hn | split; [right; exact Hin |]].
      intros c Hc; apply Hleast; rewrite <- app_assoc; exact Hc.
    + destruct (IH best Hxs (seen ++ [x])) as [nearest [Hn [Hin Hleast]]].
      { intros c Hc; apply in_app_or in Hc as [Hc | [<- | []]];
          [apply Hseen, Hc | exact E]. }
      exists nearest; split; [exact Hn | split].
      * destruct Hin as [<- | Hin]; [left; reflexivity | right; right; exact Hin].
      * intros c Hc; apply Hleast.
        apply in_app_or in Hc as [Hc | [<- | [<- | Hc]]].
        -- apply in_or_app; left; apply in_or_app; left; exact Hc.
        -- apply in_or_app; right; left; reflexivity.
        -- apply in_or_app; left; apply in_or_app; right; left; reflexivity.
        -- apply in_or_app; right; right; exact Hc.
Qed.

Lemma nn_loop_greedy (matrix : PathMatrix.t) (current : nat) (unvisited route : list nat) :
  let n := length (PathMatrix.stop_ids matrix) in
  square_matrix matrix -> (current < n)%nat ->
  Forall (fun i => (i < n)%nat) unvisited ->
  exists tail,
    PathMatrixCalculator.nn_loop matrix (length unvisited) current unvisited route
    = Ok (route ++ tail)
    /\ Permutation tail unvisited
    /\ nearest_first matrix current tail.
Proof.
  intros n Hsq.
  remember (length unvisited) as rounds eqn:Hrounds.
  revert current unvisited route Hrounds; induction rounds as [| rounds IH];
    intros current unvisited route Hrounds Hcur Hrange.
  - destruct unvisited; [| discriminate Hrounds].
    exists []; simpl; rewrite app_nil_r; repeat split; constructor.
  - destruct unvisited as [| x xs]; [discriminate Hrounds |].
    cbn [PathMatrixCalculator.nn_loop].
    inversion Hrange as [| ? ? Hx Hxs]; subst.
    rewrite (getitem2_in_range matrix current x Hsq Hcur Hx); cbn [bind].
    destruct (nearest_of_least matrix current xs x Hsq Hcur Hxs [])
      as [nearest [Hn [Hin Hleast]]]; [intros c [] |].
    rewrite Hn; cbn [bind].
    pose proof (set_remove_length nearest (x :: xs) Hin) as Hlen.
    assert (Hnear : (nearest < n)%nat)
      by (rewrite Forall_forall in Hrange; apply Hrange, Hin).
    destruct (IH nearest (PathMatrixCalculator.set_remove nearest (x :: xs))
                 (route ++ [nearest])) as [tail [Hloop [Hperm Hgreedy]]].
    + rewrite <- Hrounds in Hlen; lia.
    + exact Hnear.
    + apply Forall_forall; intros i Hi; apply set_remove_incl in Hi.
      rewrite Forall_forall in Hrange; apply Hrange, Hi.
    + exists (nearest :: tail); rewrite Hloop, <- app_assoc.
      assert (Hall : Permutation (nearest :: tail) (x :: xs)).
      { apply perm_trans with (nearest :: PathMatrixCalculator.set_remove nearest (x :: xs));
          [apply perm_skip, Hperm | apply set_remove_Permutation, Hin]. }
      split; [reflexivity | split; [exact Hall |]].
      split; [| exact Hgreedy].
      intros c Hc; apply Hleast; cbn [app].
      apply (Permutation_in _ Hall), Hc.
Qed.

(** X9.  For more than 8 distinct stop ids of a square matrix,
    [find_optimal_route_order] keeps the first stop and then always moves
    to a stop that is nearest, by the distance matrix, among the stops not
    yet visited. *)
Theorem nearest_neighbor_order_is_greedy :
  forall (matrix : PathMatrix.t) (first : string) (rest : list string),
    let ids := PathMatrix.stop_ids matrix in
    square_matrix matrix ->
    (8 < length (first :: rest))%nat ->
    NoDup (first :: rest) ->
    (forall s, In s (first :: rest) -> In s ids) ->
    exists tail,
      PathMatrixCalculator.find_optimal_route_order matrix (first :: rest)
      = first :: map (id_at ids) tail
      /\ Permutation (map (id_at ids) tail) rest
      /\ nearest_first matrix (position ids first) tail.
Proof.
  intros matrix first rest ids Hsq Hlen Hnd Hin.
  assert (Hincl : incl (first :: rest) ids) by exact Hin.
  pose proof (Forall_position_in_range ids (first :: rest) Hincl) as Hrange.
  cbn [map] in Hrange; inversion Hrange as [| ? ? Hfirst Hrest]; subst.
  pose proof (NoDup_map_position ids (first :: rest) Hincl Hnd) as Hpos.
  cbn [map] in Hpos; inversion Hpos as [| ? ? _ Hposrest]; subst.
  pose proof (set_of_list_Permutation _ Hposrest) as Hset.
  destruct (nn_loop_greedy matrix (position ids first)
              (PathMatrixCalculator.set_of_list (map (position ids) rest))
              [position ids first] Hsq Hfirst) as [tail [Hloop [Hperm Hgreedy]]].
  { apply Forall_forall; intros i Hi; apply (Permutation_in _ Hset) in Hi.
    rewrite Forall_forall in Hrest; apply Hrest, Hi. }
  exists tail.
  assert (Htail : Permutation tail (map (position ids) rest))
    by (apply perm_trans with (1 := Hperm), Hset).
  split; [| split; [| exact Hgreedy]].
  - unfold PathMatrixCalculator.find_optimal_route_order.
    replace (Nat.leb (length (first :: rest)) 2) with false
      by (symmetry; apply Nat.leb_gt; lia).
    replace (Nat.leb (length (first :: rest)) 8) with false
      by (symmetry; apply Nat.leb_gt; lia).
    unfold PathMatrixCalculator._nearest_neighbor_tsp.
    rewrite indices_of_eq, (all_present_filter matrix _ Hincl); cbn [bind].
    rewrite length_map, Nat.eqb_refl; cbn [negb map].
    fold ids; rewrite Hloop; cbn [bind app].
    rewrite mapM_getitem_in_range.
    + cbn [map]; f_equal; apply position_spec, Hincl; left; reflexivity.
    + constructor; [exact Hfirst |].
      apply Forall_forall; intros i Hi; apply (Permutation_in _ Htail) in Hi.
      rewrite Forall_forall in Hrest; apply Hrest, Hi.
  - apply (Permutation_map (id_at ids)) in Htail.
    rewrite map_id_at_position in Htail; [exact Htail |].
    intros s Hs; apply Hincl; right; exact Hs.
Qed.

Lemma avenue_is_square : square_matrix Cases.avenue.
Proof. split; [reflexivity | repeat constructor]. Qed.

Lemma avenue_ids_NoDup : NoDup Cases.avenue_ids.
Proof.
  unfold Cases.avenue_ids.
  repeat (constructor; [simpl; intuition discriminate |]); constructor.
Qed.

Lemma find_optimal_route_order_permutation_witness :
  Permutation (PathMatrixCalculator.find_optimal_route_order Cases.avenue Cases.avenue_ids)
              Cases.avenue_ids
  /\ hd_error (PathMatrixCalculator.find_optimal_route_order Cases.avenue Cases.avenue_ids)
     = hd_error Cases.avenue_ids.
Proof.
  apply (find_optimal_route_order_permutation Cases.avenue Cases.avenue_ids).
  right; exact avenue_ids_NoDup.
Defined.

Lemma nearest_neighbor_order_is_greedy_witness :
  exists tail,
    PathMatrixCalculator.find_optimal_route_order Cases.avenue Cases.avenue_ids
    = "0"%string :: map (id_at (PathMatrix.stop_ids Cases.avenue)) tail
    /\ Permutation (map (id_at (PathMatrix.stop_ids Cases.avenue)) tail)
                   ["1"; "2"; "3"; "4"; "5"; "6"; "7"; "8"]%string
    /\ nearest_first Cases.avenue 0 tail.
Proof.
  apply (nearest_neighbor_order_is_greedy Cases.avenue "0"
           ["1"; "2"; "3"; "4"; "5"; "6"; "7"; "8"]%string).
  - exact avenue_is_square.
  - simpl; lia.
  - exact avenue_ids_NoDup.
  - intros s Hs; exact Hs.
Defined.

(** ** The route analysis *)

Section RouteAnalysis.
Local Open Scope Q_scope.
Variable geo : GeoMetric.t.

Lemma clamp_bounds (lo hi x : Q) :
  0 <= lo -> hi <= 100 -> lo <= x <= hi -> lo <= py_max 0 (py_min 100 x) <= hi.
Proof.
  intros Hlo Hhi [Hx1 Hx2].
  destruct (py_min_spec 100 x) as [[H1 ->] | [H1 ->]];
    [destruct (py_max_spec 0 x) as [[H2 ->] | [H2 ->]]
    | destruct (py_max_spec 0 100) as [[H2 ->] | [H2 ->]]]; lra.
Qed.

Lemma accessibility_ratio_in_range (route : Route.t) :
  0 <= nth 3 (RouteAnalyzer._extract_efficiency_features geo route) 0 <= 1.
Proof.
  unfold RouteAnalyzer._extract_efficiency_features, RouteAnalyzer.accessible_stops.
  destruct (Route.stops route) as [| s stops] eqn:E.
  - cbn; lra.
  - set (l := s :: stops) in *.
    assert (Hlen : 0 < Qlen l) by (apply Qnat_pos; simpl; lia).
    pose proof (Qdiv_nonneg _ _ (Qnat_nonneg (length (filter BusStop.is_accessible l))) Hlen).
    pose proof (Qdiv_le_1 _ _ (Qnat_le _ _ (filter_length_le BusStop.is_accessible l)) Hlen).
    cbn [app nth firstn length Nat.sub repeat]; split; assumption.
Qed.

(** The feature vector has ten entries; the last one is padding. *)
Lemma efficiency_features_are_ten :
  forall (route : Route.t),
    let features := RouteAnalyzer._extract_efficiency_features geo route in
    length features = 10%nat
    /\ nth 0 features 0 = Qlen (Route.stops route)
    /\ nth 5 features 0 = (if Route.is_active route then 1 else 0)
    /\ nth 6 features 0 = Route.optimization_score route / 100
    /\ nth 9 features 0 = 0.
Proof.
  intros route features; unfold features, RouteAnalyzer._extract_efficiency_features.
  destruct (Nat.ltb 1 (length (Route.stops route))); repeat split.
Qed.

(** X10.  Without a trained model the efficiency score of a route lies between
    15 and 100, and when the model's prediction raises, the score is the
    fallback 50. *)
Theorem rule_based_efficiency_score_range :
  forall (efficiency_model : option (list Q -> result Q)) (route : Route.t),
    (efficiency_model = None ->
     15 <= RouteAnalyzer._calculate_efficiency_score geo efficiency_model route <= 100)
    /\ (forall predict e,
           efficiency_model = Some predict ->
           predict (RouteAnalyzer._extract_efficiency_features geo route) = Raise e ->
           RouteAnalyzer._calculate_efficiency_score geo efficiency_model route = 50).
Proof.
  intros efficiency_model route; split.
  - intros ->; unfold RouteAnalyzer._calculate_efficiency_score,
                 RouteAnalyzer._rule_based_efficiency_score.
    pose proof (accessibility_ratio_in_range route) as Hratio.
    set (features := RouteAnalyzer._extract_efficiency_features geo route) in *.
    set (ratio := nth 3 features 0) in *.
    destruct (Qle_bool 8 _ && Qle_bool _ 12); [| destruct (Qle_bool 5 _ && Qle_bool _ 15)];
      (destruct (Qle_bool 0.5 _ && Qle_bool _ 2); [| destruct (Qlt_bool 5 _)]);
      (destruct (Qle_bool _ 5); [| destruct (Qlt_bool 10 _)]);
      (apply clamp_bounds; [lra | lra |]; apply clamp_bounds; lra).
  - intros predict e -> Hraise; unfold RouteAnalyzer._calculate_efficiency_score.
    rewrite Hraise; reflexivity.
Qed.

(** X11.  [_generate_recommendations] never returns an empty list, and it
    returns only the default message (performance is good) exactly when
    efficiency is at least 60, coverage at least 50, accessibility at
    least 70, the travel time at most 120 minutes and the route active. *)
Theorem recommendations_never_empty :
  forall (route : Route.t) (efficiency_score coverage_score accessibility_score : Q),
    let recommendations :=
      RouteAnalyzer._generate_recommendations route efficiency_score coverage_score
                                              accessibility_score in
    recommendations <> []
    /\ (recommendations
        = ["Route performance is good - consider minor optimizations for continuous improvement"%string]
        <-> (60 <= efficiency_score /\ 50 <= coverage_score /\ 70 <= accessibility_score
             /\ (Route.estimated_travel_time route <= 120)%Z
             /\ Route.is_active route = true)).
Proof.
  intros route e c a recs; unfold recs, RouteAnalyzer._generate_recommendations.
  destruct (Qlt_bool e 60) eqn:He; [apply Qlt_bool_true in He | apply Qlt_bool_false in He];
    (destruct (Qlt_bool c 50) eqn:Hc; [apply Qlt_bool_true in Hc | apply Qlt_bool_false in Hc]);
    (destruct (Qlt_bool a 70) eqn:Ha; [apply Qlt_bool_true in Ha | apply Qlt_bool_false in Ha]);
    (destruct (120 <? Route.estimated_travel_time route)%Z eqn:Ht;
     [apply Z.ltb_lt in Ht | apply Z.ltb_ge in Ht]);
    destruct (Route.is_active route) eqn:Hact; cbn [negb app];
    try (destruct (Nat.ltb 15 _); [| destruct (Nat.ltb _ 5)]); cbn [app];
    (split; [discriminate |]);
    (split; [intros H; try discriminate H | intros [H1 [H2 [H3 [H4 H5]]]]]);
    try lra; try lia; try discriminate; try reflexivity.
  repeat split; assumption.
Qed.

Lemma flat_map_option_length {A B : Type} (keep : A -> bool) (f : A -> B) (l : list A) :
  length (flat_map (fun x => if keep x then [f x] else []) l) = length (filter keep l).
Proof.
  induction l as [| x xs IH]; simpl; [reflexivity |].
  destruct (keep x); simpl; rewrite IH; reflexivity.
Qed.

Lemma filter_enumerate_length {A : Type} (keep : A -> bool) (l : list A) (i : nat) :
  length (filter (fun i_x => keep (snd i_x)) (enumerate_from i l)) = length (filter keep l).
Proof.
  revert i; induction l as [| x xs IH]; intros i; simpl; [reflexivity |].
  destruct (keep x); simpl; rewrite IH; reflexivity.
Qed.

Lemma enumerate_from_In {A : Type} (l : list A) (i k : nat) (x : A) :
  In (k, x) (enumerate_from i l) -> (i <= k < i + length l)%nat /\ In x l.
Proof.
  revert i; induction l as [| a l IH]; intros i H; simpl in H; [contradiction |].
  destruct H as [H | H].
  - injection H as <- <-; simpl; split; [lia | left; reflexivity].
  - apply IH in H as [H1 H2]; simpl; split; [lia | right; exact H2].
Qed.

(** Among non-negative counts, fewer than half exceed twice the mean. *)
Lemma Zsum_flagged (n total : Z) (l : list Z) :
  (forall c, In c l -> 2 * total + 1 <= c * n)%Z ->
  (Z.of_nat (length l) * (2 * total + 1) <= Zsum l * n)%Z.
Proof.
  induction l as [| c l IH]; intros H; [unfold Zsum; simpl; lia |].
  rewrite Zsum_cons; cbn [length].
  specialize (IH (fun x Hx => H x (or_intror Hx))).
  specialize (H c (or_introl eq_refl)); nia.
Qed.

Lemma above_twice_the_mean {A : Type} (f : A -> Z) (l : list A) :
  Forall (fun x => (0 <= f x)%Z) l -> l <> [] ->
  (2 * length (filter (fun x => Qlt_bool (inject_Z (Zsum (map f l)) / Qlen l * 2)
                                         (inject_Z (f x))) l)
   < length l)%nat.
Proof.
  intros Hnonneg Hne.
  set (n := Z.of_nat (length l)).
  set (total := Zsum (map f l)).
  assert (Hn : (0 < n)%Z) by (unfold n; destruct l; [contradiction | simpl; lia]).
  set (keep := fun x => Qlt_bool (inject_Z total / Qlen l * 2) (inject_Z (f x))).
  assert (Hkeep : forall x, keep x = true -> (2 * total + 1 <= f x * n)%Z).
  { intros x Hx; unfold keep in Hx; apply Qlt_bool_true in Hx.
    assert (Hq : 0 < Qlen l) by (unfold Qlen, Qnat; fold n; rewrite <- (Zlt_Qlt 0); exact Hn).
    assert (Hlt : inject_Z total * 2 < inject_Z (f x) * Qlen l).
    { apply Qmult_lt_r with (z := Qlen l) in Hx; [| exact Hq].
      assert (E : inject_Z total / Qlen l * 2 * Qlen l == inject_Z total * 2)
        by (field; lra).
      lra. }
    unfold Qlen, Qnat in Hlt; fold n in Hlt.
    change 2 with (inject_Z 2) in Hlt.
    rewrite <- !inject_Z_mult, <- Zlt_Qlt in Hlt; lia. }
  pose proof (Zsum_filter_le f keep l Hnonneg) as Hsum; fold total in Hsum.
  pose proof (Zsum_flagged n total (map f (filter keep l))) as Hflag.
  rewrite length_map in Hflag.
  assert (Hall : forall c, In c (map f (filter keep l)) -> (2 * total + 1 <= c * n)%Z).
  { intros c Hc; apply in_map_iff in Hc as [x [<- Hx]].
    apply Hkeep; apply filter_In in Hx as [_ Hx]; exact Hx. }
  specialize (Hflag Hall).
  set (k := length (filter keep l)) in *.
  assert (Htotal : (0 <= total)%Z) by lia.
  assert (Hkn : (2 * Z.of_nat k < n)%Z) by nia.
  unfold n in Hkn; lia.
Qed.

(** X12.  For a valid route whose passenger counts are at most 2^53, so
    that their halves are floats, fewer than half of the stops are reported
    as high-demand bottlenecks (a stop is reported when its passenger count
    exceeds twice the average). *)
Theorem high_demand_stops_are_a_minority :
  forall (route : Route.t),
    Route.valid route = true ->
    Forall (fun stop => (BusStop.daily_passenger_count stop <= 2 ^ 53)%Z)
           (Route.stops route) ->
    (2 * length (filter is_high_demand (RouteAnalyzer._identify_bottlenecks geo route))
     < length (Route.stops route))%nat.
Proof.
  intros route Hvalid _.
  pose proof (Route_valid_two_stops route Hvalid) as Hlen.
  pose proof (stops_passengers_nonneg route Hvalid) as Hnonneg.
  unfold RouteAnalyzer._identify_bottlenecks, RouteAnalyzer.total_passengers.
  replace (Nat.ltb (length (Route.stops route)) 2) with false
    by (symmetry; apply Nat.ltb_ge; exact Hlen).
  set (stops := Route.stops route) in *.
  set (counts := map BusStop.daily_passenger_count stops) in *.
  rewrite !filter_app.
  match goal with
  | |- (2 * length (filter _ ?hd ++ filter _ ?lg ++ filter _ ?acc) < _)%nat =>
      assert (Hlg : filter is_high_demand lg = []);
      [| assert (Hacc : filter is_high_demand acc = []);
         [| assert (Hhd : filter is_high_demand hd = hd)]]
  end.
  - generalize (enumerate (consecutive stops)); intros l.
    induction l as [| x l IH]; [reflexivity |].
    cbn [flat_map]; rewrite filter_app, IH, app_nil_r.
    repeat match goal with
           | |- context [Qlt_bool ?a ?b] => destruct (Qlt_bool a b)
           end; reflexivity.
  - destruct (Qlt_bool _ _); reflexivity.
  - generalize (enumerate stops); intros l.
    induction l as [| x l IH]; [reflexivity |].
    cbn [flat_map]; rewrite filter_app, IH.
    repeat match goal with
           | |- context [Qlt_bool ?a ?b] => destruct (Qlt_bool a b)
           end; reflexivity.
  - rewrite Hlg, Hacc, Hhd, !app_nil_r.
    rewrite (flat_map_option_length
               (fun i_stop =>
                  Qlt_bool (inject_Z (Zsum counts) / Qlen stops * 2)
                           (inject_Z (BusStop.daily_passenger_count (snd i_stop))))).
    unfold enumerate.
    rewrite (filter_enumerate_length
               (fun stop => Qlt_bool (inject_Z (Zsum counts) / Qlen stops * 2)
                                     (inject_Z (BusStop.daily_passenger_count stop)))).
    apply (above_twice_the_mean BusStop.daily_passenger_count stops).
    + apply Forall_forall; intros s Hs.
      rewrite Forall_forall in Hnonneg; apply Hnonneg, in_map, Hs.
    + destruct stops; [simpl in Hlen; lia | discriminate].
Qed.

Lemma consecutive_length {A : Type} (l : list A) :
  length (consecutive l) = (length l - 1)%nat.
Proof.
  unfold consecutive; rewrite length_combine.
  destruct l as [| a l]; cbn [length tl]; lia.
Qed.

(** X13.  Every bottleneck record of [_identify_bottlenecks] has severity high
    or medium and affected stop indices within the route, and is of one of
    three kinds: a high-demand stop at a valid index, a large gap between a
    valid index and its successor, or an accessibility issue of medium
    severity that lists more than half of the stops. *)
Theorem bottleneck_records_are_well_formed :
  forall (route : Route.t) (b : Bottleneck.t),
    In b (RouteAnalyzer._identify_bottlenecks geo route) ->
    let n := length (Route.stops route) in
    (Bottleneck.severity b = "high"%string \/ Bottleneck.severity b = "medium"%string)
    /\ Forall (fun i => (i < n)%nat) (Bottleneck.affected_stops b)
    /\ ((Bottleneck.type b = "high_demand_stop"%string
         /\ exists i, Bottleneck.stop_index b = Some i /\ (i < n)%nat)
        \/ (Bottleneck.type b = "large_gap"%string
            /\ exists i, Bottleneck.stop_index b = Some i /\ (S i < n)%nat)
        \/ (Bottleneck.type b = "accessibility_issue"%string
            /\ Bottleneck.stop_index b = None
            /\ Bottleneck.severity b = "medium"%string
            /\ (n < 2 * length (Bottleneck.affected_stops b))%nat)).
Proof.
  intros route b Hb n; unfold RouteAnalyzer._identify_bottlenecks in Hb.
  fold n in Hb.
  destruct (Nat.ltb n 2); [contradiction |].
  apply in_app_or in Hb as [Hb | Hb]; [| apply in_app_or in Hb as [Hb | Hb]].
  - apply in_flat_map in Hb as [[i stop] [Hin Hb]]; cbn [fst snd] in Hb.
    destruct (Qlt_bool _ _) in Hb; [| contradiction].
    destruct Hb as [<- | []]; cbn.
    apply enumerate_from_In in Hin as [Hi _].
    split; [destruct (Qlt_bool _ _); [left | right]; reflexivity |].
    split; [constructor |].
    left; split; [reflexivity |]; exists i; split; [reflexivity | fold n in Hi; lia].
  - apply in_flat_map in Hb as [[i pair] [Hin Hb]]; cbn [fst snd] in Hb.
    destruct (Qlt_bool 5 _) in Hb; [| contradiction].
    destruct Hb as [<- | []]; cbn.
    apply enumerate_from_In in Hin as [Hi _].
    rewrite consecutive_length in Hi; fold n in Hi.
    split; [destruct (Qlt_bool _ _); [left | right]; reflexivity |].
    split; [constructor |].
    right; left; split; [reflexivity |]; exists i; split; [reflexivity | lia].
  - destruct (Qlt_bool _ _) eqn:E in Hb; [| contradiction].
    destruct Hb as [<- | []]; cbn.
    split; [right; reflexivity |].
    split.
    + apply Forall_forall; intros i Hi.
      apply in_map_iff in Hi as [[i' stop] [<- Hin]].
      apply filter_In in Hin as [Hin _].
      apply enumerate_from_In in Hin as [Hi _]; fold n in Hi; cbn [fst]; lia.
    + right; right; repeat split.
      apply Qlt_bool_true in E.
      unfold Qlen, Qnat in E.
      set (k := length (map fst (filter _ (enumerate (Route.stops route))))) in *.
      fold n in E.
      assert (E' : inject_Z (Z.of_nat n) < inject_Z (2 * Z.of_nat k)).
      { rewrite inject_Z_mult; change (inject_Z 2) with 2; lra. }
      rewrite <- Zlt_Qlt in E'; lia.
Qed.

Lemma Qsum_nonneg (l : list Q) : (forall x, In x l -> 0 <= x) -> 0 <= Qsum l.
Proof.
  intros H; unfold Qsum.
  apply (fold_left_Qplus_nonneg (fun x => x) l 0 H); lra.
Qed.

Lemma py_int_nonneg (x : Q) : 0 <= x -> (0 <= py_int x)%Z.
Proof.
  intros H; unfold py_int; apply Z.quot_pos; [| lia].
  unfold Qle in H; simpl in H; lia.
Qed.

(** X14.  The travel time estimated by the route analyzer is never below the
    route's recorded travel time, and for a non-negative distance function
    and at least 2 stops it is at least 2 minutes per stop. *)
Theorem estimated_travel_time_lower_bound :
  forall (route : Route.t),
    (Route.estimated_travel_time route <= RouteAnalyzer._estimate_travel_time geo route)%Z
    /\ ((forall c1 c2, 0 <= GeoMetric.haversine_distance geo c1 c2) ->
        (2 <= length (Route.stops route))%nat ->
        (2 * Z.of_nat (length (Route.stops route))
         <= RouteAnalyzer._estimate_travel_time geo route)%Z).
Proof.
  intros route; unfold RouteAnalyzer._estimate_travel_time.
  destruct (Nat.ltb (length (Route.stops route)) 2) eqn:E; split; try lia.
  - intros _ Hlen; apply Nat.ltb_lt in E; lia.
  - intros Hgeo _.
    assert (Hdist : 0 <= RouteAnalyzer.route_distance geo route).
    { unfold RouteAnalyzer.route_distance; apply Qsum_nonneg.
      intros x Hx; apply in_map_iff in Hx as [p [<- _]]; apply Hgeo. }
    assert (Hint : (0 <= py_int (RouteAnalyzer.route_distance geo route / 25 * 60))%Z).
    { apply py_int_nonneg.
      pose proof (Qdiv_nonneg _ 25 Hdist); lra. }
    lia.
Qed.
End RouteAnalysis.

Lemma bottleneck_records_are_well_formed_witness :
  exists b,
    In b (RouteAnalyzer._identify_bottlenecks Samples.geo Samples.line)
    /\ Bottleneck.type b = "large_gap"%string
    /\ Bottleneck.severity b = "medium"%string
    /\ Forall (fun i => (i < 3)%nat) (Bottleneck.affected_stops b).
Proof.
  assert (H : exists b, In b (RouteAnalyzer._identify_bottlenecks Samples.geo Samples.line)
                        /\ Bottleneck.type b = "large_gap"%string
                        /\ Bottleneck.severity b = "medium"%string).
  { vm_compute; eexists; split; [left; reflexivity | split; reflexivity]. }
  destruct H as [b [Hb [Ht Hs]]]; exists b.
  split; [exact Hb | split; [exact Ht | split; [exact Hs |]]].
  exact (proj1 (proj2 (bottleneck_records_are_well_formed Samples.geo Samples.line b Hb))).
Defined.

Lemma high_demand_stops_are_a_minority_witness :
  Route.valid Samples.line = true
  /\ (2 * length (filter is_high_demand
                         (RouteAnalyzer._identify_bottlenecks Samples.geo Samples.line))
      < length (Route.stops Samples.line))%nat.
Proof.
  split; [reflexivity |].
  apply (high_demand_stops_are_a_minority Samples.geo Samples.line); [reflexivity |].
  repeat constructor; vm_compute; discriminate.
Defined.

(** ** Population data and its analysis *)

Lemma StronglySorted_weaken {A : Type} (R S : A -> A -> Prop) (l : list A) :
  (forall a b, R a b -> S a b) -> StronglySorted R l -> StronglySorted S l.
Proof.
  intros HRS; induction 1 as [| x xs Hs IH Hx]; constructor; [exact IH |].
  eapply Forall_impl; [| exact Hx]; intros b; apply HRS.
Qed.


Lemma max_by_In {A : Type} (key : A -> Q) (best : A) (l : list A) :
  In (max_by key best l) (best :: l).
Proof.
  revert best; induction l as [| x xs IH]; intros best; simpl; [left; reflexivity |].
  destruct (IH (if Qlt_bool (key best) (key x) then x else best)) as [H | H].
  - destruct (Qlt_bool (key best) (key x)); [right; left | left]; exact H.
  - right; right; exact H.
Qed.

Lemma max_by_ge {A : Type} (key : A -> Q) (best : A) (l : list A) :
  forall x, In x (best :: l) -> (key x <= key (max_by key best l))%Q.
Proof.
  revert best; induction l as [| y ys IH]; intros best x Hx.
  - destruct Hx as [<- | []]; simpl; apply Qle_refl.
  - cbn [max_by].
    set (best' := if Qlt_bool (key best) (key y) then y else best).
    assert (Hb : (key best <= key best')%Q /\ (key y <= key best')%Q).
    { unfold best'; destruct (Qlt_bool (key best) (key y)) eqn:E.
      - apply Qlt_bool_true in E; split; [apply Qlt_le_weak, E | apply Qle_refl].
      - apply Qlt_bool_false in E; split; [apply Qle_refl | exact E]. }
    assert (Hbest := IH best' best' (or_introl eq_refl)).
    destruct Hx as [<- | [<- | Hx]].
    + apply Qle_trans with (key best'); tauto.
    + apply Qle_trans with (key best'); tauto.
    + apply IH; right; exact Hx.
Qed.

Section PopulationData.
Local Open Scope Q_scope.

Lemma py_abs_nonneg (x : Q) : 0 <= py_abs x.
Proof.
  unfold py_abs; destruct (Qlt_bool x 0) eqn:E;
    [apply Qlt_bool_true in E | apply Qlt_bool_false in E]; lra.
Qed.

(** X15.  For valid population data, the population within any bounds lies
    between 0 and the total population, and equals the total when every
    density point is within the bounds. *)
Theorem population_in_bounds_at_most_total :
  forall (data : PopulationDensityData.t) (bounds : GeoBounds.t),
    PopulationDensityData.valid data = true ->
    (0 <= PopulationDensityData.get_population_in_bounds data bounds
     <= PopulationDensityData.get_total_population data)%Z
    /\ ((forall point, In point (PopulationDensityData.density_points data) ->
                       PopulationDensityData.in_bounds bounds point = true) ->
        PopulationDensityData.get_population_in_bounds data bounds
        = PopulationDensityData.get_total_population data).
Proof.
  intros data bounds Hvalid.
  unfold PopulationDensityData.get_population_in_bounds,
    PopulationDensityData.get_total_population.
  split.
  - apply Zsum_filter_le, points_population_nonneg, Hvalid.
  - intros Hall; rewrite filter_all by exact Hall; reflexivity.
Qed.

(** X16.  [get_density_points_near_coordinates] returns density points of the
    dataset only, returns no point located off the centre for a negative
    radius, returns every point located at the centre for a non-negative
    radius, and returns at least the same points for a larger radius. *)
Theorem density_points_near_coordinates_grow_with_radius :
  forall (data : PopulationDensityData.t) (center : Coordinates.t) (radius_km : Q),
    incl (PopulationDensityData.get_density_points_near_coordinates data center radius_km)
         (PopulationDensityData.density_points data)
    /\ (radius_km < 0 ->
        forall point,
          In point (PopulationDensityData.get_density_points_near_coordinates
                      data center radius_km) ->
          Coordinates.latitude (DensityPoint.coordinates point)
          == Coordinates.latitude center
          /\ Coordinates.longitude (DensityPoint.coordinates point)
             == Coordinates.longitude center)
    /\ (forall point,
           In point (PopulationDensityData.density_points data) ->
           0 <= radius_km ->
           DensityPoint.coordinates point = center ->
           In point (PopulationDensityData.get_density_points_near_coordinates
                       data center radius_km))
    /\ (forall larger,
           radius_km <= larger ->
           incl (PopulationDensityData.get_density_points_near_coordinates data center radius_km)
                (PopulationDensityData.get_density_points_near_coordinates data center larger)).
Proof.
  intros data center radius_km.
  unfold PopulationDensityData.get_density_points_near_coordinates; cbv zeta.
  split; [intros p Hp; apply filter_In in Hp as [Hp _]; exact Hp |].
  split; [| split].
  - intros Hneg p Hp; apply filter_In in Hp as [_ Hp]; exfalso.
    apply andb_prop in Hp as [Hp _]; apply Qle_bool_iff in Hp.
    pose proof (py_abs_nonneg (Coordinates.latitude (DensityPoint.coordinates p)
                               - Coordinates.latitude center)) as Habs.
    assert (radius_km / 111 < 0) by (apply Qlt_shift_div_r; lra).
    lra.
  - intros point Hin Hpos <-; apply filter_In; split; [exact Hin |].
    assert (Hzero : forall x, py_abs (x - x) == 0).
    { intros x; unfold py_abs; destruct (Qlt_bool (x - x) 0); ring. }
    assert (Hr : 0 <= radius_km / 111) by (apply Qdiv_nonneg; lra).
    apply andb_true_intro; split; apply Qle_bool_iff; rewrite Hzero; exact Hr.
  - intros larger Hle p Hp; apply filter_In in Hp as [Hin Hp]; apply filter_In.
    split; [exact Hin |].
    apply andb_prop in Hp as [H1 H2]; apply Qle_bool_iff in H1, H2.
    assert (Hr : radius_km / 111 <= larger / 111).
    { unfold Qdiv; apply Qmult_le_compat_r; [exact Hle |].
      apply Qinv_le_0_compat; lra. }
    apply andb_true_intro; split; apply Qle_bool_iff; lra.
Qed.
End PopulationData.

Lemma population_in_bounds_at_most_total_witness :
  PopulationDensityData.valid Samples.hamlet = true
  /\ (0 <= PopulationDensityData.get_population_in_bounds
             Samples.hamlet (PopulationDensityData.coordinates Samples.hamlet)
      <= PopulationDensityData.get_total_population Samples.hamlet)%Z.
Proof.
  split; [reflexivity |].
  apply (population_in_bounds_at_most_total Samples.hamlet
           (PopulationDensityData.coordinates Samples.hamlet)).
  reflexivity.
Defined.

Section StopLocations.
Local Open Scope Q_scope.
Variable geo : GeoMetric.t.

(** The greedy selection picks remaining points, at most one per round,
    each farther than 500 m from the ones picked before. *)
Lemma select_locations_spec (rounds : nat) (remaining : list PopulationAnalyzer.point)
      (chosen : list Coordinates.t) :
  exists picked,
    PopulationAnalyzer.select_locations geo rounds remaining chosen = chosen ++ picked
    /\ (length picked <= rounds)%nat
    /\ incl picked (map PopulationAnalyzer.point_coords remaining)
    /\ ForallOrdPairs
         (fun earlier later => 0.5 < PopulationAnalyzer._calculate_distance geo later earlier)
         picked.
Proof.
  revert remaining chosen; induction rounds as [| rounds IH]; intros remaining chosen.
  - exists []; simpl; rewrite app_nil_r.
    split; [destruct remaining; reflexivity |].
    split; [lia | split; [intros x [] | constructor]].
  - destruct remaining as [| p ps].
    + exists []; simpl; rewrite app_nil_r.
      split; [reflexivity | split; [lia | split; [intros x [] | constructor]]].
    + cbn [PopulationAnalyzer.select_locations].
      set (best := max_by _ p ps).
      set (rest := filter _ (p :: ps)).
      destruct (IH rest (chosen ++ [PopulationAnalyzer.point_coords best]))
        as [picked [Heq [Hlen [Hincl Hfar]]]].
      exists (PopulationAnalyzer.point_coords best :: picked).
      rewrite Heq, <- app_assoc.
      split; [reflexivity |].
      split; [simpl; lia |].
      split.
      * intros c [<- | Hc].
        -- apply in_map, max_by_In.
        -- apply Hincl in Hc; apply in_map_iff in Hc as [q [<- Hq]].
           apply in_map; apply filter_In in Hq as [Hq _]; exact Hq.
      * constructor; [| exact Hfar].
        apply Forall_forall; intros c Hc.
        apply Hincl in Hc; apply in_map_iff in Hc as [q [<- Hq]].
        apply filter_In in Hq as [_ Hq]; apply Qlt_bool_true in Hq; exact Hq.
Qed.

(** X17.  [_find_optimal_stop_locations] returns at most [max_stops]
    locations, each the location of a density point, and when there are
    more density points than [max_stops] every returned location is more
    than 0.5 km from the locations returned before it. *)
Theorem optimal_stop_locations_are_density_points :
  forall (data : PopulationDensityData.t) (max_stops : nat),
    let locations := PopulationAnalyzer._find_optimal_stop_locations geo data max_stops in
    (length locations <= max_stops)%nat
    /\ incl locations
            (map DensityPoint.coordinates (PopulationDensityData.density_points data))
    /\ ((max_stops < length (PopulationDensityData.density_points data))%nat ->
        ForallOrdPairs
          (fun earlier later => 0.5 < PopulationAnalyzer._calculate_distance geo later earlier)
          locations).
Proof.
  intros data max_stops locations; unfold locations,
    PopulationAnalyzer._find_optimal_stop_locations.
  destruct (PopulationDensityData.density_points data) as [| p ps] eqn:E.
  - split; [simpl; lia | split; [intros x [] | intros _; constructor]].
  - set (points := p :: ps) in *.
    assert (Hcoords : forall q : DensityPoint.t,
               PopulationAnalyzer.point_coords (point_of q) = DensityPoint.coordinates q).
    { intros q; unfold PopulationAnalyzer.point_coords, point_of; cbn [fst snd].
      destruct (DensityPoint.coordinates q); reflexivity. }
    change (map (fun p0 : DensityPoint.t =>
                   (Coordinates.latitude (DensityPoint.coordinates p0),
                    Coordinates.longitude (DensityPoint.coordinates p0),
                    DensityPoint.population p0)) points)
      with (map point_of points).
    assert (Hmap : map PopulationAnalyzer.point_coords (map point_of points)
                   = map DensityPoint.coordinates points).
    { rewrite map_map; apply map_ext; exact Hcoords. }
    destruct (Nat.leb (length (map point_of points)) max_stops) eqn:Hle.
    + apply Nat.leb_le in Hle.
      split; [| split].
      * rewrite length_map.
        apply Nat.le_trans with (2 := Hle), filter_length_le.
      * intros c Hc; apply in_map_iff in Hc as [q [<- Hq]].
        apply filter_In in Hq as [Hq _].
        rewrite <- Hmap; apply in_map, Hq.
      * intros Hlt; rewrite length_map in Hle; lia.
    + destruct (select_locations_spec
                  (Nat.min max_stops (length (map point_of points)))
                  (map point_of points) []) as [picked [Heq [Hlen [Hincl Hfar]]]].
      rewrite Heq; cbn [app].
      split; [lia | split; [| intros _; exact Hfar]].
      rewrite <- Hmap; exact Hincl.
Qed.
End StopLocations.

Section Gaps.
Local Open Scope Q_scope.
Variable geo : GeoMetric.t.



End Gaps.

Section HighDensity.
Local Open Scope Q_scope.
Variable geo : GeoMetric.t.

Lemma arith_mapM_total {A B : Type} (f : A -> arith B) (g : A -> B) (l : list A) :
  (forall x, f x = Num (g x)) -> arith_mapM f l = Num (map g l).
Proof.
  intros H; induction l as [| x xs IH]; [reflexivity |].
  cbn [arith_mapM map]; rewrite H, IH; reflexivity.
Qed.

Lemma filter_length_Permutation {A : Type} (keep : A -> bool) (l l' : list A) :
  Permutation l l' -> length (filter keep l) = length (filter keep l').
Proof.
  induction 1 as [| x l l' _ IH | x y l | l l' l'' _ IH1 _ IH2]; simpl.
  - reflexivity.
  - destruct (keep x); simpl; rewrite IH; reflexivity.
  - destruct (keep x), (keep y); reflexivity.
  - rewrite IH1; exact IH2.
Qed.

Lemma filter_map_length {A B : Type} (f : A -> B) (keep : B -> bool) (l : list A) :
  length (filter keep (map f l)) = length (filter (fun x => keep (f x)) l).
Proof.
  induction l as [| x xs IH]; simpl; [reflexivity |].
  destruct (keep (f x)); simpl; rewrite IH; reflexivity.
Qed.

(** In a list sorted in descending order, the entry at position [i] is at
    most [x] exactly when at most [i] entries exceed [x]. *)
Lemma descending_rank (l : list Z) :
  StronglySorted (fun a b => (b <= a)%Z) l ->
  forall (i : nat) (x : Z),
    (i < length l)%nat ->
    ((nth i l 0 <= x)%Z -> (length (filter (fun y => (x <? y)%Z) l) <= i)%nat)
    /\ ((x < nth i l 0)%Z -> (i < length (filter (fun y => (x <? y)%Z) l))%nat).
Proof.
  induction 1 as [| a l Hs IH Ha]; intros i x Hi; [simpl in Hi; lia |].
  destruct i as [| i]; cbn [nth filter].
  - split; intros Hx.
    + replace (x <? a)%Z with false by (symmetry; apply Z.ltb_ge; exact Hx).
      assert (E : filter (fun y => (x <? y)%Z) l = []).
      { clear - Ha Hx; induction Ha as [| b l Hb _ IH']; [reflexivity |].
        simpl; replace (x <? b)%Z with false by (symmetry; apply Z.ltb_ge; lia).
        exact IH'. }
      rewrite E; simpl; lia.
    + replace (x <? a)%Z with true by (symmetry; apply Z.ltb_lt; exact Hx).
      simpl; lia.
  - simpl in Hi; assert (Hi' : (i < length l)%nat) by lia.
    destruct (IH i x Hi') as [Hle Hlt].
    split; intros Hx.
    + specialize (Hle Hx); destruct (x <? a)%Z; simpl; lia.
    + specialize (Hlt Hx).
      assert (Hai : (nth i l 0 <= a)%Z).
      { rewrite Forall_forall in Ha; apply Ha, nth_In, Hi'. }
      replace (x <? a)%Z with true by (symmetry; apply Z.ltb_lt; lia).
      simpl; lia.
Qed.

Lemma descending_count (l : list Z) :
  StronglySorted (fun a b => (b <= a)%Z) l ->
  forall (i : nat) (x : Z),
    (i < length l)%nat -> (x <= nth i l 0)%Z ->
    (i < length (filter (fun y => (x <=? y)%Z) l))%nat.
Proof.
  induction 1 as [| a l Hs IH Ha]; intros i x Hi Hx; [simpl in Hi; lia |].
  destruct i as [| i]; cbn [nth filter] in *.
  - replace (x <=? a)%Z with true by (symmetry; apply Z.leb_le; exact Hx).
    simpl; lia.
  - simpl in Hi; assert (Hi' : (i < length l)%nat) by lia.
    assert (Hai : (nth i l 0 <= a)%Z).
    { rewrite Forall_forall in Ha; apply Ha, nth_In, Hi'. }
    replace (x <=? a)%Z with true by (symmetry; apply Z.leb_le; lia).
    specialize (IH i x Hi' Hx); simpl; lia.
Qed.

(** The points that pass the threshold are those with fewer than
    [max(1, n // 5)] points of a larger population. *)
Lemma threshold_rank (points : list DensityPoint.t) (p : DensityPoint.t) :
  points <> [] ->
  let populations :=
    stable_sort (fun a b => (b <=? a)%Z) (map DensityPoint.population points) in
  let threshold_index := Nat.max 1 (length populations / 5) in
  (nth (threshold_index - 1) populations 0%Z <=? DensityPoint.population p)%Z
  = (length (filter (fun q => (DensityPoint.population p <? DensityPoint.population q)%Z)
                    points)
     <? Nat.max 1 (length points / 5))%nat
  /\ (Nat.max 1 (length points / 5)
      <= length (filter (fun q => (nth (threshold_index - 1) populations 0%Z
                                   <=? DensityPoint.population q)%Z) points))%nat.
Proof.
  intros Hne populations threshold_index.
  assert (Hperm : Permutation populations (map DensityPoint.population points))
    by apply stable_sort_Permutation.
  assert (Hlen : length populations = length points)
    by (rewrite (Permutation_length Hperm); apply length_map).
  assert (Hsorted : StronglySorted (fun a b => (b <= a)%Z) populations).
  { apply StronglySorted_weaken with (R := fun a b => (b <=? a)%Z = true);
      [intros a b H; apply Z.leb_le; exact H |].
    apply stable_sort_sorted.
    - intros a b; destruct (Z.leb_spec b a); [left; reflexivity | right; apply Z.leb_le; lia].
    - intros a b c; rewrite !Z.leb_le; lia. }
  assert (Hpos : (0 < length points)%nat) by (destruct points; [congruence | simpl; lia]).
  assert (Hk : (threshold_index - 1 < length populations)%nat).
  { unfold threshold_index; rewrite Hlen.
    assert (length points / 5 <= length points)%nat by (apply Nat.Div0.div_le_upper_bound; lia).
    lia. }
  destruct (descending_rank populations Hsorted (threshold_index - 1)
              (DensityPoint.population p) Hk) as [Hle Hlt].
  rewrite (filter_length_Permutation _ _ _ Hperm), filter_map_length in Hle, Hlt.
  fold threshold_index in Hk |- *.
  replace (Nat.max 1 (length points / 5)) with threshold_index
    by (unfold threshold_index; rewrite Hlen; reflexivity).
  assert (H1 : (1 <= threshold_index)%nat) by (unfold threshold_index; lia).
  split.
  - destruct (Z.leb_spec (nth (threshold_index - 1) populations 0%Z)
                         (DensityPoint.population p)) as [H | H].
    + symmetry; apply Nat.ltb_lt; specialize (Hle H); lia.
    + symmetry; apply Nat.ltb_ge; specialize (Hlt H); lia.
  - pose proof (descending_count populations Hsorted (threshold_index - 1)
                  (nth (threshold_index - 1) populations 0%Z) Hk (Z.le_refl _)) as Hc.
    rewrite (filter_length_Permutation _ _ _ Hperm), filter_map_length in Hc; lia.
Qed.

(** X19.  [_identify_high_density_areas] never divides by zero; it reports
    exactly the density points that fewer than max(1, n // 5) of the n
    points exceed in population, which are at least max(1, n // 5) points
    when there are any, sorted by priority score, highest first, each score
    being at most 100. *)
Theorem high_density_areas_are_the_top_fifth :
  forall data : PopulationDensityData.t,
    let points := PopulationDensityData.density_points data in
    let top := Nat.max 1 (length points / 5) in
    let larger (p : DensityPoint.t) :=
      length (filter (fun q => (DensityPoint.population p <? DensityPoint.population q)%Z)
                     points) in
    exists areas,
      PopulationAnalyzer._identify_high_density_areas geo data = Num areas
      /\ Permutation
           (map (fun a => (HighDensityArea.coordinates a, HighDensityArea.population a)) areas)
           (map (fun p => (DensityPoint.coordinates p, DensityPoint.population p))
                (filter (fun p => (larger p <? top)%nat) points))
      /\ StronglySorted
           (fun a b => HighDensityArea.priority_score b <= HighDensityArea.priority_score a)
           areas
      /\ (points <> [] -> (top <= length areas)%nat)
      /\ (forall a, In a areas -> HighDensityArea.priority_score a <= 100).
Proof.
  intros data; cbv zeta.
  unfold PopulationAnalyzer._identify_high_density_areas.
  destruct (PopulationDensityData.density_points data) as [| p0 ps] eqn:E.
  - exists []; split; [reflexivity |].
    split; [apply Permutation_refl | split; [constructor | split; [congruence |]]].
    intros a [].
  - set (points := p0 :: ps) in *.
    set (top := Nat.max 1 (length points / 5)).
    set (larger := fun p : DensityPoint.t =>
      length (filter (fun q => (DensityPoint.population p <? DensityPoint.population q)%Z)
                     points)).
    assert (Hne : points <> []) by discriminate.
    set (keep := fun point : DensityPoint.t => (_ <=? DensityPoint.population point)%Z).
    assert (Hkeep : forall p, keep p = (larger p <? top)%nat).
    { intros p; exact (proj1 (threshold_rank points p Hne)). }
    assert (Hcount : (top <= length (filter keep points))%nat)
      by exact (proj2 (threshold_rank points p0 Hne)).
    set (area := fun (point : DensityPoint.t) =>
      let local_density :=
        inject_Z (Zsum (map DensityPoint.population
                         (filter (fun q =>
                                    Qle_bool (PopulationAnalyzer._calculate_distance geo
                                                (DensityPoint.coordinates point)
                                                (DensityPoint.coordinates q)) 1)
                                 points)))
        / (PopulationAnalyzer.np_pi * (1 * 1)) in
      {| HighDensityArea.coordinates := DensityPoint.coordinates point;
         HighDensityArea.population := DensityPoint.population point;
         HighDensityArea.local_density := local_density;
         HighDensityArea.demographic_profile :=
           PopulationAnalyzer._summarize_demographics (DensityPoint.demographic_data point);
         HighDensityArea.priority_score :=
           PopulationAnalyzer._calculate_priority_score point local_density |}).
    rewrite (arith_mapM_total _ area) by (intros x; reflexivity).
    cbn [arith_bind].
    set (before := fun a b : HighDensityArea.t =>
                     Qle_bool (HighDensityArea.priority_score b)
                              (HighDensityArea.priority_score a)).
    assert (Hperm := stable_sort_Permutation before (map area (filter keep points))).
    eexists; split; [reflexivity |].
    assert (Hareas :
      Permutation
        (map (fun a => (HighDensityArea.coordinates a, HighDensityArea.population a))
             (stable_sort before (map area (filter keep points))))
        (map (fun p => (DensityPoint.coordinates p, DensityPoint.population p))
             (filter (fun p => (larger p <? top)%nat) points))).
    { rewrite (filter_ext _ _ Hkeep).
      apply perm_trans with
        (map (fun a => (HighDensityArea.coordinates a, HighDensityArea.population a))
             (map area (filter (fun p => (larger p <? top)%nat) points))).
      - apply Permutation_map.
        rewrite <- (filter_ext _ _ Hkeep); exact Hperm.
      - rewrite map_map; apply Permutation_refl. }
    split; [exact Hareas | split; [| split]].
    + apply StronglySorted_weaken with (R := fun a b => before a b = true);
        [intros a b H; apply Qle_bool_iff; exact H |].
      apply stable_sort_sorted.
      * intros a b; unfold before.
        destruct (Qlt_le_dec (HighDensityArea.priority_score a)
                             (HighDensityArea.priority_score b)) as [H | H].
        -- right; apply Qle_bool_iff, Qlt_le_weak, H.
        -- left; apply Qle_bool_iff, H.
      * intros a b c; unfold before; rewrite !Qle_bool_iff; intros; lra.
    + intros _.
      rewrite (Permutation_length Hperm), length_map; exact Hcount.
    + intros a Ha; apply (Permutation_in _ Hperm) in Ha.
      apply in_map_iff in Ha as [p [<- _]].
      unfold area; cbn [HighDensityArea.priority_score].
      unfold PopulationAnalyzer._calculate_priority_score; apply py_min_le_l.
Qed.
End HighDensity.

Section Demographics.
Local Open Scope Q_scope.
Variable geo : GeoMetric.t.

(** X20.  The demographic summary names a dominant age group exactly when
    there are age groups, and then the group is one of them, reported with
    its own share, and no age group has a larger share. *)
Theorem dominant_age_group_has_largest_share :
  forall demographic_data : DemographicData.t,
    let summary := PopulationAnalyzer._summarize_demographics demographic_data in
    let age_groups := DemographicData.age_groups demographic_data in
    match DemographicSummary.dominant_age_group summary,
          DemographicSummary.dominant_age_percentage summary with
    | Some group, Some share =>
        In (group, share) age_groups
        /\ forall other, In other age_groups -> snd other <= share
    | None, None => age_groups = []
    | _, _ => False
    end.
Proof.
  intros demographic_data; cbv zeta.
  unfold PopulationAnalyzer._summarize_demographics;
    cbn [DemographicSummary.dominant_age_group DemographicSummary.dominant_age_percentage].
  destruct (DemographicData.age_groups demographic_data) as [| item items];
    [reflexivity |].
  cbn [option_map]; split.
  - rewrite <- surjective_pairing; apply max_by_In.
  - intros other Hother; apply (max_by_ge snd item items other Hother).
Qed.
End Demographics.

(** ** The optimised route and its metrics *)

Section Amenities.

(** The loop [for amenity in wanted: if amenity not in enhanced:
    enhanced.append(amenity)]. *)
Lemma add_missing_spec (wanted enhanced : list string) :
  exists added,
    fold_left (fun enhanced amenity =>
                 if mem amenity enhanced then enhanced else enhanced ++ [amenity])
              wanted enhanced = enhanced ++ added
    /\ incl added wanted
    /\ NoDup added
    /\ (forall a, In a added -> ~ In a enhanced)
    /\ (forall a, In a wanted -> In a (enhanced ++ added)).
Proof.
  revert enhanced; induction wanted as [| w wanted IH]; intros enhanced.
  - exists []; rewrite app_nil_r; simpl.
    split; [reflexivity | split; [intros a [] | split; [constructor |]]].
    split; intros a [].
  - cbn [fold_left]; destruct (mem w enhanced) eqn:E.
    + apply mem_In in E.
      destruct (IH enhanced) as [added [Heq [Hincl [Hnd [Hnew Hall]]]]].
      exists added; split; [exact Heq |].
      split; [intros a Ha; right; apply Hincl, Ha |].
      split; [exact Hnd | split; [exact Hnew |]].
      intros a [<- | Ha]; [apply in_or_app; left; exact E | apply Hall, Ha].
    + assert (Hw : ~ In w enhanced) by (intros H; apply mem_In in H; congruence).
      destruct (IH (enhanced ++ [w])) as [added [Heq [Hincl [Hnd [Hnew Hall]]]]].
      exists (w :: added); rewrite Heq, <- app_assoc.
      split; [reflexivity |].
      split; [intros a [<- | Ha]; [left; reflexivity | right; apply Hincl, Ha] |].
      split.
      { constructor; [| exact Hnd].
        intros H; apply (Hnew w H), in_or_app; right; left; reflexivity. }
      split.
      * intros a [<- | Ha]; [exact Hw |].
        intros H; apply (Hnew a Ha), in_or_app; left; exact H.
      * intros a [<- | Ha].
        -- apply in_or_app; right; left; reflexivity.
        -- specialize (Hall a Ha); rewrite <- app_assoc in Hall; exact Hall.
Qed.

Lemma add_missing_present (wanted enhanced : list string) :
  incl wanted enhanced ->
  fold_left (fun enhanced amenity =>
               if mem amenity enhanced then enhanced else enhanced ++ [amenity])
            wanted enhanced = enhanced.
Proof.
  induction wanted as [| w wanted IH]; intros Hincl; [reflexivity |].
  cbn [fold_left].
  replace (mem w enhanced) with true
    by (symmetry; apply mem_In, Hincl; left; reflexivity).
  apply IH; intros a Ha; apply Hincl; right; exact Ha.
Qed.

Lemma enhance_amenities_spec (current : list string) :
  exists added,
    OptimizationEngine._enhance_amenities current = current ++ added
    /\ incl added standard_amenities
    /\ NoDup added
    /\ (forall a, In a added -> ~ In a current)
    /\ incl standard_amenities (current ++ added).
Proof.
  unfold OptimizationEngine._enhance_amenities.
  destruct (add_missing_spec ["shelter"; "seating"; "lighting"]%string current)
    as [basic [Heq1 [Hincl1 [Hnd1 [Hnew1 Hall1]]]]].
  rewrite Heq1.
  destruct (add_missing_spec ["wheelchair_accessible"; "tactile_paving"]%string
                             (current ++ basic))
    as [features [Heq2 [Hincl2 [Hnd2 [Hnew2 Hall2]]]]].
  rewrite Heq2, <- app_assoc.
  exists (basic ++ features); split; [reflexivity |].
  split; [| split; [| split]].
  - intros a Ha; apply in_app_or in Ha as [Ha | Ha].
    + apply Hincl1 in Ha; unfold standard_amenities; simpl in *; tauto.
    + apply Hincl2 in Ha; unfold standard_amenities; simpl in *; tauto.
  - apply NoDup_app; [exact Hnd1 | exact Hnd2 |].
    intros a Ha Hb; apply (Hnew2 a Hb), in_or_app; right; exact Ha.
  - intros a Ha; apply in_app_or in Ha as [Ha | Ha]; [apply Hnew1, Ha |].
    intros H; apply (Hnew2 a Ha), in_or_app; left; exact H.
  - rewrite app_assoc; intros a Ha.
    unfold standard_amenities in Ha; cbn [In] in Ha.
    destruct Ha as [<- | [<- | [<- | Ha]]];
      try (apply in_or_app; left; apply Hall1; simpl; tauto).
    apply Hall2; simpl in *; tauto.
Qed.

(** X21.  [_enhance_amenities] keeps the current amenities in place and
    appends, without repetition, exactly those of the five standard
    amenities that are missing; applying it twice changes nothing more. *)
Theorem enhance_amenities_adds_the_missing :
  forall current : list string,
    (exists added,
        OptimizationEngine._enhance_amenities current = current ++ added
        /\ NoDup added
        /\ forall a, In a added <-> In a standard_amenities /\ ~ In a current)
    /\ OptimizationEngine._enhance_amenities
         (OptimizationEngine._enhance_amenities current)
       = OptimizationEngine._enhance_amenities current.
Proof.
  intros current.
  destruct (enhance_amenities_spec current) as [added [Heq [Hincl [Hnd [Hnew Hall]]]]].
  split.
  - exists added; split; [exact Heq | split; [exact Hnd |]].
    intros a; split.
    + intros Ha; split; [apply Hincl, Ha | apply Hnew, Ha].
    + intros [Ha Hcur]; apply Hall in Ha; apply in_app_or in Ha as [Ha | Ha];
        [contradiction | exact Ha].
  - rewrite Heq; unfold OptimizationEngine._enhance_amenities.
    rewrite (add_missing_present ["shelter"; "seating"; "lighting"]%string)
      by (intros a Ha; apply Hall; unfold standard_amenities; simpl in *; tauto).
    apply add_missing_present.
    intros a Ha; apply Hall; unfold standard_amenities; simpl in *; tauto.
Qed.
End Amenities.

Section OptimizedStops.
Local Open Scope Q_scope.
Variable geo : GeoMetric.t.
Variable efficiency_model : option (list Q -> result Q).
Variable uuid4 : nat -> string.
Variable today : string.

Lemma improve_accessibility_Ok (stops improved : list BusStop.t) :
  OptimizationEngine._improve_accessibility stops = Ok improved ->
  improved = map improved_stop stops.
Proof.
  unfold OptimizationEngine._improve_accessibility; intros H.
  apply mapM_Ok_Forall2 in H.
  induction H as [| stop stop' stops stops' Hstop _ IH]; [reflexivity |].
  apply validate_Ok_inv in Hstop as [-> _]; cbn [map]; f_equal; exact IH.
Qed.

Lemma add_stops_loop_spec (gaps : list CoverageGap.t) (new_stops r : list BusStop.t) :
  OptimizationEngine.add_stops_loop uuid4 gaps new_stops = Ok r ->
  exists added,
    r = new_stops ++ added
    /\ length added = length gaps
    /\ Forall2 (fun stop gap =>
                  BusStop.coordinates stop = CoverageGap.coordinates gap
                  /\ BusStop.amenities stop = ["shelter"%string]
                  /\ BusStop.daily_passenger_count stop
                     = Z.min (CoverageGap.population gap / 10) 5000
                  /\ BusStop.is_accessible stop = true)
               added gaps.
Proof.
  revert new_stops; induction gaps as [| gap gaps IH]; intros new_stops H;
    cbn [OptimizationEngine.add_stops_loop] in H.
  - injection H as <-; exists []; rewrite app_nil_r; repeat split; constructor.
  - apply bind_Ok_inv in H as [coords [Hcoords H]].
    apply bind_Ok_inv in H as [stop [Hstop H]].
    apply validate_Ok_inv in Hcoords as [-> _].
    apply validate_Ok_inv in Hstop as [-> _].
    destruct (IH _ H) as [added [-> [Hlen Hall]]].
    eexists (_ :: added); rewrite <- app_assoc; split; [reflexivity |].
    split; [simpl; rewrite Hlen; reflexivity |].
    constructor; [| exact Hall].
    cbn; destruct (CoverageGap.coordinates gap); repeat split.
Qed.

(** The stop list of the route [_generate_optimized_route] builds. *)
Lemma generate_optimized_route_shape (route : Route.t) (analysis : RouteAnalysisResult.t)
      (population_analysis : option PopulationAnalysisResult.t) (matrix : PathMatrix.t)
      (r : Route.t) :
  OptimizationEngine._generate_optimized_route geo uuid4 today route analysis
    population_analysis matrix = Ok r ->
  let reordered :=
    if Nat.ltb 2 (length (Route.stops route))
    then OptimizationEngine.reorder_stops matrix (Route.stops route)
    else Route.stops route in
  exists new_stops gaps,
    Route.stops r = map improved_stop (reordered ++ new_stops)
    /\ (length gaps <= 2)%nat
    /\ match population_analysis with
       | None => gaps = []
       | Some a => gaps = firstn 2 (PopulationAnalysisResult.coverage_gaps a)
       end
    /\ Forall2 (fun stop gap =>
                  BusStop.coordinates stop = CoverageGap.coordinates gap
                  /\ BusStop.amenities stop = ["shelter"%string]
                  /\ BusStop.daily_passenger_count stop
                     = Z.min (CoverageGap.population gap / 10) 5000
                  /\ BusStop.is_accessible stop = true)
               new_stops gaps.
Proof.
  intros H reordered; unfold OptimizationEngine._generate_optimized_route in H.
  fold reordered in H.
  apply bind_Ok_inv in H as [new_stops [Hnew H]].
  apply bind_Ok_inv in H as [improved [Himproved H]].
  apply bind_Ok_inv in H as [time [_ H]].
  apply Route_create_Ok_inv in H as [-> _].
  apply improve_accessibility_Ok in Himproved.
  set (kept := match RouteAnalysisResult.bottlenecks analysis with
               | [] => _
               | _ :: _ => _
               end) in Himproved.
  assert (Hkept : kept = reordered ++ new_stops).
  { unfold kept; destruct (RouteAnalysisResult.bottlenecks analysis);
      [reflexivity | apply remove_bottleneck_stops_id]. }
  rewrite Hkept in Himproved; clear kept Hkept.
  destruct population_analysis as [a |].
  - destruct (PopulationAnalysisResult.coverage_gaps a) as [| g gs] eqn:Eg.
    + injection Hnew as <-; exists [], []; repeat split;
        [exact Himproved | simpl; lia | constructor].
    + unfold OptimizationEngine._add_stops_for_coverage_gaps in Hnew.
      apply add_stops_loop_spec in Hnew as [added [-> [Hlen Hall]]].
      exists added, (firstn 2 (g :: gs)); repeat split;
        [exact Himproved | rewrite length_firstn; lia | exact Hall].
  - injection Hnew as <-; exists [], []; repeat split;
      [exact Himproved | simpl; lia | constructor].
Qed.

Lemma stop_dict_of_absent (stops : list BusStop.t) (d : dict BusStop.t) (k : string) :
  ~ In k (map BusStop.id stops) ->
  dict_get (fold_left (fun d stop => dict_set d (BusStop.id stop) stop) stops d) k
  = dict_get d k.
Proof.
  revert d; induction stops as [| s stops IH]; intros d Hk; [reflexivity |].
  cbn [fold_left]; rewrite IH by (intros H; apply Hk; right; exact H).
  rewrite dict_get_set.
  destruct (String.eqb k (BusStop.id s)) eqn:E; [| reflexivity].
  apply String.eqb_eq in E; exfalso; apply Hk; left; symmetry; exact E.
Qed.

(** With distinct ids, the dictionary of the stops gives every stop back. *)
Lemma stop_dict_of_NoDup (stops : list BusStop.t) (s : BusStop.t) :
  NoDup (map BusStop.id stops) -> In s stops ->
  dict_get (OptimizationEngine.stop_dict_of stops) (BusStop.id s) = Some s.
Proof.
  unfold OptimizationEngine.stop_dict_of; generalize (@nil (string * BusStop.t)).
  induction stops as [| x xs IH]; intros d Hnd Hs; [contradiction |].
  cbn [map] in Hnd; inversion Hnd as [| ? ? Hx Hxs]; subst.
  cbn [fold_left]; destruct Hs as [-> | Hs].
  - rewrite stop_dict_of_absent by exact Hx.
    rewrite dict_get_set, String.eqb_refl; reflexivity.
  - apply IH; assumption.
Qed.

Lemma NoDup_map_injective {A B : Type} (f : A -> B) (l : list A) (a b : A) :
  NoDup (map f l) -> In a l -> In b l -> f a = f b -> a = b.
Proof.
  induction l as [| x xs IH]; intros Hnd Ha Hb Hab; [contradiction |].
  cbn [map] in Hnd; inversion Hnd as [| ? ? Hx Hxs]; subst.
  destruct Ha as [-> | Ha], Hb as [-> | Hb].
  - reflexivity.
  - exfalso; apply Hx; rewrite Hab; apply in_map, Hb.
  - exfalso; apply Hx; rewrite <- Hab; apply in_map, Ha.
  - apply IH; assumption.
Qed.

(** With distinct ids the reordering rearranges the stops and keeps the
    first one in place. *)
Lemma reorder_stops_rearranges (matrix : PathMatrix.t) (stops : list BusStop.t) :
  NoDup (map BusStop.id stops) ->
  Permutation (OptimizationEngine.reorder_stops matrix stops) stops
  /\ hd_error (OptimizationEngine.reorder_stops matrix stops) = hd_error stops.
Proof.
  intros Hnd; unfold OptimizationEngine.reorder_stops.
  destruct (find_optimal_route_order_rearranges matrix (map BusStop.id stops)
              (or_intror Hnd)) as [Hperm Hhd].
  destruct (Permutation_map_inv _ _ Hperm) as [stops' [Horder Hstops]].
  rewrite Horder in *.
  assert (Hfound :
    forall l, incl l stops ->
      flat_map (fun stop_id =>
                  match dict_get (OptimizationEngine.stop_dict_of stops) stop_id with
                  | Some stop => [stop]
                  | None => []
                  end) (map BusStop.id l) = l).
  { induction l as [| s l IH]; intros Hincl; [reflexivity |].
    cbn [map flat_map].
    rewrite (stop_dict_of_NoDup stops s Hnd) by (apply Hincl; left; reflexivity).
    rewrite IH by (intros x Hx; apply Hincl; right; exact Hx); reflexivity. }
  rewrite Hfound
    by (intros x Hx; apply (Permutation_in _ (Permutation_sym Hstops)), Hx).
  split; [apply Permutation_sym, Hstops |].
  destruct stops' as [| s' stops'], stops as [| s stops]; try reflexivity;
    try discriminate Hhd.
  cbn [map hd_error] in Hhd |- *; injection Hhd as Hid.
  f_equal; apply (NoDup_map_injective BusStop.id (s :: stops)); try assumption.
  - apply (Permutation_in _ (Permutation_sym Hstops)); left; reflexivity.
  - left; reflexivity.
Qed.

Lemma Route_checks_pass_two_stops (r : Route.t) :
  failing (Route.checks r) = [] -> (2 <= length (Route.stops r))%nat.
Proof.
  unfold failing, Route.checks; cbn [filter map fst snd].
  destruct (Nat.leb 2 (length (Route.stops r))) eqn:E; [intros _; apply Nat.leb_le, E |].
  destruct (len_between 1 (Route.name r) 200);
    destruct (Nat.leb (String.length (Route.description r)) 1000);
    destruct (Qbetween 0 (Route.optimization_score r) 100);
    destruct ((1 <=? Route.estimated_travel_time r)%Z
              && (Route.estimated_travel_time r <=? 1440)%Z);
    cbn [negb filter map fst snd]; discriminate.
Qed.

Lemma filter_two_distinct {A : Type} (keep : A -> bool) (l : list A) (a b : A) :
  a <> b -> In a l -> In b l -> keep a = true -> keep b = true ->
  (2 <= length (filter keep l))%nat.
Proof.
  intros Hab Ha Hb Hka Hkb.
  apply (NoDup_incl_length (l := [a; b])).
  - constructor; [intros [H | []]; congruence | constructor; [intros [] | constructor]].
  - intros x [<- | [<- | []]]; apply filter_In; split; assumption.
Qed.

Lemma fold_left_count_ge {A : Type} (count : A -> nat) (l : list A) (start : nat) :
  Forall (fun x => (2 <= count x)%nat) l ->
  (start + 2 * length l <= fold_left (fun total x => (total + count x)%nat) l start)%nat.
Proof.
  revert start; induction l as [| x xs IH]; intros start Hl; [simpl; lia |].
  inversion Hl as [| ? ? Hx Hxs]; subst.
  cbn [fold_left length]; specialize (IH (start + count x)%nat Hxs); lia.
Qed.

(** The ranking engine's accessibility score of a route whose stops are
    all accessible and offer the two accessibility features. *)
Lemma accessibility_score_of_improved (route : Route.t) :
  Route.stops route <> [] ->
  Forall (fun stop =>
            BusStop.is_accessible stop = true
            /\ In "wheelchair_accessible"%string (BusStop.amenities stop)
            /\ In "tactile_paving"%string (BusStop.amenities stop))
         (Route.stops route) ->
  90 <= RouteRankingEngine._calculate_accessibility_score route <= 100.
Proof.
  intros Hne Hall; unfold RouteRankingEngine._calculate_accessibility_score.
  destruct (Route.stops route) as [| s stops] eqn:E; [congruence |].
  set (l := s :: stops) in *.
  assert (Hlen : 0 < Qlen l) by (apply Qnat_pos; simpl; lia).
  assert (Hacc : filter BusStop.is_accessible l = l).
  { apply filter_all; intros x Hx; rewrite Forall_forall in Hall; apply (Hall x Hx). }
  rewrite Hacc.
  set (amenity_score := fold_left _ l O).
  assert (Hcount : (2 * length l <= amenity_score)%nat).
  { apply (fold_left_count_ge
             (fun stop =>
                length (filter (fun amenity =>
                                  mem amenity RouteRankingEngine.accessibility_amenities)
                               (BusStop.amenities stop))) l 0).
    eapply Forall_impl; [| exact Hall].
    intros x [_ [Hw Ht]].
    apply (filter_two_distinct _ _ "wheelchair_accessible"%string "tactile_paving"%string);
      try assumption; try reflexivity; discriminate. }
  assert (Hratio : Qnat (length l) / Qlen l == 1)
    by (unfold Qlen in Hlen |- *; field; intros Hzero; rewrite Hzero in Hlen; lra).
  assert (Havg : 2 <= Qnat amenity_score / Qlen l).
  { apply Qle_shift_div_l; [exact Hlen |].
    apply Qnat_le in Hcount; unfold Qlen.
    replace (2 * Qnat (length l)) with (2 * Qnat (length l)) by reflexivity.
    unfold Qnat in *; rewrite Nat2Z.inj_mul, inject_Z_mult in Hcount; exact Hcount. }
  pose proof (py_min_glb (Qnat amenity_score / Qlen l) 3 2 Havg) as Hmin.
  pose proof (py_min_le_r (Qnat (length l) / Qlen l * 70
                           + py_min (Qnat amenity_score / Qlen l) 3 * 10) 100).
  split; [| assumption].
  apply py_min_glb; [| lra].
  rewrite Hratio; specialize (Hmin ltac:(lra)); lra.
Qed.

(** X22.  In every result of [optimize_route], all stops of the optimised
    route are accessible and offer the five standard amenities, so the
    ranking engine's accessibility score of the optimised route is between
    90 and 100. *)
Theorem optimized_route_is_fully_accessible :
  forall (route : Route.t) (population_data : option PopulationDensityData.t)
         (res : OptimizationResult.t),
    OptimizationEngine.optimize_route geo efficiency_model uuid4 today route population_data
    = Ok res ->
    let optimized := OptimizationResult.optimized_route res in
    Forall (fun stop =>
              BusStop.is_accessible stop = true
              /\ incl standard_amenities (BusStop.amenities stop))
           (Route.stops optimized)
    /\ 90 <= RouteRankingEngine._calculate_accessibility_score optimized <= 100.
Proof.
  intros route population_data res H optimized.
  apply optimize_route_Ok_inv in H as [H _]; fold optimized in H.
  pose proof (generate_optimized_route_Ok _ _ _ _ _ _ _ _ H) as [_ [_ Hchecks]].
  apply Route_checks_pass_two_stops in Hchecks.
  apply generate_optimized_route_shape in H as [new_stops [gaps [Hstops _]]].
  assert (Hall : Forall (fun stop =>
                           BusStop.is_accessible stop = true
                           /\ incl standard_amenities (BusStop.amenities stop))
                        (Route.stops optimized)).
  { rewrite Hstops; apply Forall_forall; intros stop Hstop.
    apply in_map_iff in Hstop as [s [<- _]].
    split; [reflexivity |]; cbn [improved_stop BusStop.amenities].
    destruct (enhance_amenities_spec (BusStop.amenities s)) as [added [-> [_ [_ [_ Hincl]]]]].
    exact Hincl. }
  split; [exact Hall |].
  apply accessibility_score_of_improved.
  - intros E; rewrite E in Hchecks; simpl in Hchecks; lia.
  - eapply Forall_impl; [| exact Hall].
    intros stop [Hacc Hincl]; split; [exact Hacc |].
    split; apply Hincl; unfold standard_amenities; simpl; tauto.
Qed.

(** X23.  For a route with distinct stop ids, the stops of the optimised route
    are the original stops rearranged, the first one kept first, each made
    accessible with enhanced amenities, followed by at most 2 added stops,
    and by none when no population data is given. *)
Theorem optimized_route_keeps_the_stops :
  forall (route : Route.t) (population_data : option PopulationDensityData.t)
         (res : OptimizationResult.t),
    NoDup (map BusStop.id (Route.stops route)) ->
    OptimizationEngine.optimize_route geo efficiency_model uuid4 today route population_data
    = Ok res ->
    exists kept added,
      Route.stops (OptimizationResult.optimized_route res) = map improved_stop kept ++ added
      /\ Permutation kept (Route.stops route)
      /\ hd_error kept = hd_error (Route.stops route)
      /\ (length added <= 2)%nat
      /\ (population_data = None -> added = []).
Proof.
  intros route population_data res Hnd H.
  apply optimize_route_Ok_inv in H as [H _].
  apply generate_optimized_route_shape in H as [new_stops [gaps [Hstops [Hlen [Hgaps Hnew]]]]].
  rewrite map_app in Hstops.
  eexists _, (map improved_stop new_stops); split; [exact Hstops |].
  assert (Hadded : (length (map improved_stop new_stops) <= 2)%nat).
  { rewrite length_map, (Forall2_length Hnew); exact Hlen. }
  assert (Hnone : population_data = None -> map improved_stop new_stops = []).
  { intros ->; cbn [option_map] in Hgaps; subst gaps.
    inversion Hnew; reflexivity. }
  destruct (Nat.ltb 2 (length (Route.stops route))).
  - destruct (reorder_stops_rearranges
                (PathMatrixCalculator.calculate_path_matrix geo (Route.stops route) WEIGHTED)
                (Route.stops route) Hnd) as [Hperm Hhd].
    repeat split; assumption.
  - repeat split; try assumption; apply Permutation_refl.
Qed.
End OptimizedStops.

Section OptimizationResults.
Local Open Scope Q_scope.
Variable geo : GeoMetric.t.
Variable efficiency_model : option (list Q -> result Q).
Variable uuid4 : nat -> string.
Variable today : string.


Lemma String_length_append (s1 s2 : string) :
  String.length (s1 ++ s2) = (String.length s1 + String.length s2)%nat.
Proof. induction s1 as [| c s1 IH]; simpl; [reflexivity | rewrite IH; reflexivity]. Qed.

(** X25.  [optimize_route] returns no result for a route whose name is made
    of more than 188 ASCII characters: the name of the optimised route,
    with its 12-character suffix, exceeds the 200 characters the [Route]
    model allows. *)
Theorem long_route_names_cannot_be_optimized :
  forall (route : Route.t) (population_data : option PopulationDensityData.t),
    ascii_only (Route.name route) = true ->
    (188 < String.length (Route.name route))%nat ->
    forall res,
      OptimizationEngine.optimize_route geo efficiency_model uuid4 today route
                                        population_data <> Ok res.
Proof.
  intros route population_data _ Hname res H.
  apply optimize_route_Ok_inv in H as [H _].
  unfold OptimizationEngine._generate_optimized_route in H.
  apply bind_Ok_inv in H as [new_stops [_ H]].
  apply bind_Ok_inv in H as [improved [_ H]].
  apply bind_Ok_inv in H as [time [_ H]].
  unfold Route.create in H; apply validate_Ok_inv in H as [_ H].
  unfold failing, Route.checks in H; cbn [filter map fst snd Route.name] in H.
  replace (len_between 1 (Route.name route ++ " (Optimized)") 200) with false in H;
    [discriminate H |].
  unfold len_between; rewrite String_length_append; cbn [String.length].
  symmetry; apply andb_false_iff; right; apply Nat.leb_gt; lia.
Qed.
End OptimizationResults.

Lemma long_route_names_cannot_be_optimized_witness :
  Route.valid Routes.long_name_line = true
  /\ forall res,
       OptimizationEngine.optimize_route Samples.geo None Samples.uuid4 Samples.today
                                         Routes.long_name_line None <> Ok res.
Proof.
  split; [reflexivity |].
  apply (long_route_names_cannot_be_optimized Samples.geo None Samples.uuid4 Samples.today
           Routes.long_name_line None); [reflexivity |].
  vm_compute; lia.
Defined.

Section DefaultPopulationData.
Local Open Scope Q_scope.
Variable uuid4 : nat -> string.





End DefaultPopulationData.


Lemma optimized_route_is_fully_accessible_witness :
  exists res,
    OptimizationEngine.optimize_route Samples.geo None Samples.uuid4 Samples.today
                                      Samples.line None = Ok res
    /\ (90 <= RouteRankingEngine._calculate_accessibility_score
                (OptimizationResult.optimized_route res) <= 100)%Q.
Proof.
  assert (H : exists res,
             OptimizationEngine.optimize_route Samples.geo None Samples.uuid4 Samples.today
                                               Samples.line None = Ok res)
    by (vm_compute; eexists; reflexivity).
  destruct H as [res H]; exists res; split; [exact H |].
  exact (proj2 (optimized_route_is_fully_accessible Samples.geo None Samples.uuid4
                  Samples.today Samples.line None res H)).
Defined.

Lemma line_ids_NoDup : NoDup (map BusStop.id (Route.stops Samples.line)).
Proof.
  cbn; repeat (constructor; [simpl; intuition discriminate |]); constructor.
Qed.

Lemma optimized_route_keeps_the_stops_witness :
  exists res kept,
    OptimizationEngine.optimize_route Samples.geo None Samples.uuid4 Samples.today
                                      Samples.line None = Ok res
    /\ Route.stops (OptimizationResult.optimized_route res) = map improved_stop kept
    /\ Permutation kept (Route.stops Samples.line).
Proof.
  assert (H : exists res,
             OptimizationEngine.optimize_route Samples.geo None Samples.uuid4 Samples.today
                                               Samples.line None = Ok res)
    by (vm_compute; eexists; reflexivity).
  destruct H as [res H]; exists res.
  destruct (optimized_route_keeps_the_stops Samples.geo None Samples.uuid4 Samples.today
              Samples.line None res line_ids_NoDup H)
    as [kept [added [Hstops [Hperm [_ [_ Hnone]]]]]].
  exists kept; split; [exact H |].
  rewrite (Hnone eq_refl), app_nil_r in Hstops; split; assumption.
Defined.

(** ** The comprehensive efficiency metrics *)

Section ComprehensiveMetrics.
Local Open Scope Q_scope.
Variable geo : GeoMetric.t.


Lemma share_in_range {A : Type} (keep : A -> bool) (l : list A) :
  l <> [] -> 0 <= Qnat (length (filter keep l)) / Qlen l <= 1.
Proof.
  intros Hne.
  assert (Hlen : 0 < Qlen l)
    by (apply Qnat_pos; destruct l; [congruence | simpl; lia]).
  split.
  - apply Qdiv_nonneg; [apply Qnat_nonneg | exact Hlen].
  - apply Qdiv_le_1; [apply Qnat_le, filter_length_le | exact Hlen].
Qed.









Lemma route_quality_score_at_most_100 (route : Route.t) :
  EfficiencyMetricsCalculator._calculate_route_quality_score route <= 100.
Proof.
  unfold EfficiencyMetricsCalculator._calculate_route_quality_score.
  destruct (Route.stops route) as [| s stops] eqn:E; [lra |].
  pose proof (share_in_range BusStop.is_accessible (s :: stops) ltac:(discriminate)).
  set (amenities := py_min _ 20); set (coverage := py_min _ 30);
    set (optimization := py_min _ 20).
  assert (amenities <= 20) by apply py_min_le_r.
  assert (coverage <= 30) by apply py_min_le_r.
  assert (optimization <= 20) by apply py_min_le_r.
  lra.
Qed.




End ComprehensiveMetrics.


(** A detour fails the validation of the metrics: the cost savings are
    negative. *)
Example detour_fails_validation :
  EfficiencyMetricsCalculator.calculate_comprehensive_metrics
    Samples.geo Routes.direct_line Samples.line None
  = Num (Raise (ValidationError "OptimizationMetrics" ["cost_savings"%string])).
Proof. vm_compute; reflexivity. Qed.

(** ** Coverage of small datasets *)

Section SmallDatasets.
Local Open Scope Q_scope.
Variable geo : GeoMetric.t.

Lemma scan_stops_near (p : Coordinates.t) (stops : list Coordinates.t) (radius : Q)
      (start : Float.t) (stop : Coordinates.t) :
  In stop stops -> PopulationAnalyzer._calculate_distance geo p stop <= radius ->
  fst (PopulationAnalyzer.scan_stops geo p stops radius start) = true.
Proof.
  revert start; induction stops as [| s stops IH]; intros start Hin Hnear; [contradiction |].
  cbn [PopulationAnalyzer.scan_stops].
  destruct (Qle_bool (PopulationAnalyzer._calculate_distance geo p s) radius) eqn:E;
    [reflexivity |].
  destruct Hin as [-> | Hin]; [| apply IH; assumption].
  apply Qle_bool_iff in Hnear; congruence.
Qed.

(** X29.  When a location is within 1 km of itself and the dataset has at most
    20 density points, the population analysis proposes a stop at every
    density point of positive population, in order, and reports no coverage
    gap. *)
Theorem small_datasets_have_no_coverage_gaps :
  forall data : PopulationDensityData.t,
    (forall c, GeoMetric.haversine_distance geo c c <= 1) ->
    (length (PopulationDensityData.density_points data) <= 20)%nat ->
    let analysis := PopulationAnalyzer.analyze_population_data geo data in
    PopulationAnalysisResult.coverage_gaps analysis = []
    /\ PopulationAnalysisResult.optimal_stop_locations analysis
       = map DensityPoint.coordinates
             (filter (fun p => (0 <? DensityPoint.population p)%Z)
                     (PopulationDensityData.density_points data)).
Proof.
  intros data Hself Hlen analysis; unfold analysis,
    PopulationAnalyzer.analyze_population_data;
    cbn [PopulationAnalysisResult.coverage_gaps
         PopulationAnalysisResult.optimal_stop_locations].
  assert (Hstops :
    PopulationAnalyzer._find_optimal_stop_locations geo data 20
    = map DensityPoint.coordinates
          (filter (fun p => (0 <? DensityPoint.population p)%Z)
                  (PopulationDensityData.density_points data))).
  { unfold PopulationAnalyzer._find_optimal_stop_locations.
    destruct (PopulationDensityData.density_points data) as [| p ps] eqn:E; [reflexivity |].
    set (points := p :: ps) in *.
    rewrite length_map.
    replace (Nat.leb (length points) 20) with true by (symmetry; apply Nat.leb_le, Hlen).
    clear; induction points as [| q qs IH]; [reflexivity |].
    cbn [map filter snd]; destruct (0 <? DensityPoint.population q)%Z; [| exact IH].
    cbn [map]; rewrite IH; f_equal.
    unfold PopulationAnalyzer.point_coords; cbn [fst snd].
    destruct (DensityPoint.coordinates q); reflexivity. }
  rewrite Hstops; split; [| reflexivity].
  unfold PopulationAnalyzer._identify_coverage_gaps.
  destruct (PopulationDensityData.density_points data) as [| p ps] eqn:E; [reflexivity |].
  set (points := p :: ps) in *.
  set (stops := map DensityPoint.coordinates _).
  destruct stops as [| s ss] eqn:Es; [reflexivity |].
  rewrite <- Es; clear Es.
  assert (Hnone : forall l, incl l points ->
    flat_map
      (fun p0 =>
         if negb (fst (PopulationAnalyzer.scan_stops geo (DensityPoint.coordinates p0)
                         stops 1 Float.inf))
            && (500 <? DensityPoint.population p0)%Z
         then [ {| CoverageGap.coordinates := DensityPoint.coordinates p0;
                   CoverageGap.population := DensityPoint.population p0;
                   CoverageGap.distance_to_nearest_stop :=
                     snd (PopulationAnalyzer.scan_stops
                            geo (DensityPoint.coordinates p0) stops 1 Float.inf);
                   CoverageGap.severity :=
                     if (2000 <? DensityPoint.population p0)%Z
                     then "high"%string else "medium"%string;
                   CoverageGap.demographic_profile :=
                     PopulationAnalyzer._summarize_demographics
                       (DensityPoint.demographic_data p0) |} ]
         else []) l = []).
  { induction l as [| q l IH]; intros Hincl; [reflexivity |].
    cbn [flat_map]; rewrite IH by (intros x Hx; apply Hincl; right; exact Hx).
    destruct (500 <? DensityPoint.population q)%Z eqn:Hpop;
      [| rewrite andb_false_r; reflexivity].
    apply Z.ltb_lt in Hpop.
    rewrite (scan_stops_near (DensityPoint.coordinates q) stops 1 Float.inf
               (DensityPoint.coordinates q)); [reflexivity | | apply Hself].
    unfold stops; apply in_map, filter_In; split;
      [apply Hincl; left; reflexivity | apply Z.ltb_lt; lia]. }
  rewrite (Hnone points) by (intros x Hx; exact Hx); reflexivity.
Qed.
End SmallDatasets.

Lemma small_datasets_have_no_coverage_gaps_witness :
  PopulationAnalysisResult.coverage_gaps
    (PopulationAnalyzer.analyze_population_data Samples.geo Samples.hamlet) = []
  /\ PopulationAnalysisResult.optimal_stop_locations
       (PopulationAnalyzer.analyze_population_data Samples.geo Samples.hamlet)
     = [DensityPoint.coordinates Samples.hamlet_point].
Proof.
  apply (small_datasets_have_no_coverage_gaps Samples.geo Samples.hamlet).
  - intros c; unfold Samples.geo, Samples.grid_km, Samples.Qabs_diff;
      cbn [GeoMetric.haversine_distance].
    destruct (Qle_bool (Coordinates.latitude c) (Coordinates.latitude c)),
      (Qle_bool (Coordinates.longitude c) (Coordinates.longitude c)); lra.
  - simpl; lia.
Defined.

(** ** The embedding on sample data *)

Example permutations_order :
  permutations [1; 2; 3]%nat
  = [[1; 2; 3]; [1; 3; 2]; [2; 1; 3]; [2; 3; 1]; [3; 1; 2]; [3; 2; 1]]%nat.
Proof. reflexivity. Qed.

Example stable_sort_keeps_ties_in_order :
  stable_sort (fun a b => Nat.leb (fst b) (fst a))
              [(1, "x"); (2, "y"); (1, "z"); (2, "w")]%nat%string
  = [(2, "y"); (2, "w"); (1, "x"); (1, "z")]%nat%string.
Proof. reflexivity. Qed.

Example triangle_order :
  PathMatrixCalculator.find_optimal_route_order Samples.triangle ["a"; "b"; "c"]%string
  = ["a"; "c"; "b"]%string.
Proof. vm_compute; reflexivity. Qed.

Example triangle_shortest_path :
  PathMatrixCalculator.find_shortest_path 3 Samples.triangle "a" "b"
  = Returns (Some ["a"; "b"]%string).
Proof. vm_compute; reflexivity. Qed.

Example island_no_path :
  PathMatrixCalculator.find_shortest_path 3 Samples.island "a" "c" = Returns None.
Proof. vm_compute; reflexivity. Qed.

Example top_line_is_rejected :
  Route.valid Samples.top_line = true
  /\ OptimizationEngine.optimize_route Samples.geo None Samples.uuid4 Samples.today
                                       Samples.top_line None
     = Raise (ValidationError "Route" ["optimization_score"%string]).
Proof. split; vm_compute; reflexivity. Qed.

Example line_with_hamlet_is_optimized :
  exists res,
    OptimizationEngine.optimize_route Samples.geo None Samples.uuid4 Samples.today
                                      Samples.line (Some Samples.hamlet) = Ok res
    /\ map BusStop.id (Route.stops (OptimizationResult.optimized_route res))
       = ["a"; "c"; "b"]%string.
Proof. vm_compute; eexists; split; reflexivity. Qed.

Example ranking_by_time :
  map OptimizationResult.original_route_id
      (RouteRankingEngine.rank_optimization_results
         [Samples.first_run; Samples.other_run; Samples.second_run] TIME_EFFICIENCY None)
  = ["route-2"; "route-1"; "route-1"]%string.
Proof. vm_compute; reflexivity. Qed.
